(** * Arka System Manager: the state/update core, embedded in Rocq

    The dashboard is a browser program: utils.js, main.js, and the
    classes of the command hub ([AILocalEngine], [Utils]).  This
    development embeds, as executable Rocq functions, the parts of it
    that carry state or compute values: the alert thresholds, the
    profile registry, the synthetic chart series and its range filter,
    the scripted system operations, the keyword classifiers, the
    localStorage adapters with their JSON envelopes, and the chat
    history log; and, in its later sections, further functions of the
    same files: the monitoring update and the health check, the
    analytics and log stores, identifiers and hashes, relative times,
    the permission profiler, deep copies, and the validators,
    sanitizers, device detection, colour utilities and security
    manager with their regular expressions.  DOM rendering, toasts
    and console output are left out, and so is the event tracking
    that the functions of the first part call on their way: they
    neither read back nor change the values modelled there.

    Conventions.
    - A JavaScript number is a rational ([Q]); millisecond clocks and
      counters are integers ([Z]) or naturals.  Floating-point rounding
      of the arithmetic is not modelled.
    - A JavaScript string is a [string] holding its UTF-8 bytes.
      Strings with an unpaired surrogate are outside the model.
      Regular expressions step over UTF-16 code units: a function
      that applies one takes its string as the list of these.
    - [Math.random], [Math.sin] and [Date.now] are inputs of the
      functions that call them.
    - A call that can throw returns a [completion]. *)

From Stdlib Require Import ZArith QArith Qabs Qminmax Qround String Ascii List Lia Bool.
From Stdlib Require Import DecimalString DecimalFacts DecimalPos DecimalZ Lqa.
From stdpp Require Import gmap strings list.

Open Scope string_scope.

(* ================================================================== *)
(** * JavaScript preliminaries *)
(* ================================================================== *)

(** The exceptions the modelled code can meet. *)
Inductive js_error : Type :=
  | TypeError
  | SyntaxError
  | URIError
  | InvalidCharacterError
  | QuotaExceededError.

(** Outcome of evaluating a piece of JavaScript: a value, or a throw. *)
Inductive completion (A : Type) : Type :=
  | Normal (a : A)
  | Throw (e : js_error).
Arguments Normal {A} a.
Arguments Throw {A} e.

Definition bind {A B} (c : completion A) (k : A -> completion B) : completion B :=
  match c with
  | Normal a => k a
  | Throw e => Throw e
  end.

(** [try { body } catch (e) { handler }]. *)
Definition try_catch {A} (body : completion A) (handler : js_error -> completion A)
  : completion A :=
  match body with
  | Normal a => Normal a
  | Throw e => handler e
  end.

#[global] Instance completion_bind : MBind completion :=
  fun A B k c => bind c k.

#[global] Instance completion_ret : MRet completion :=
  fun A a => Normal a.

(** What a function call hands back when the body has no [return e]
    on the path taken ([undefined]), or a boolean. *)
Inductive retval : Type :=
  | RUndefined
  | RBool (b : bool).

(** Property names every object literal inherits from [Object.prototype].
    [obj[name]] yields a function or object, hence a truthy value,
    for each of them even when [obj] has no such own property. *)
Definition object_prototype_names : list string :=
  [ "constructor"; "toString"; "toLocaleString"; "valueOf";
    "hasOwnProperty"; "isPrototypeOf"; "propertyIsEnumerable";
    "__proto__"; "__defineGetter__"; "__defineSetter__";
    "__lookupGetter__"; "__lookupSetter__" ].

(** Result of the property read [obj[key]] on an object literal used
    as a table. *)
Inductive property (A : Type) : Type :=
  | Own (a : A)
  | Inherited
  | Absent.
Arguments Own {A} a.
Arguments Inherited {A}.
Arguments Absent {A}.

Definition js_get {A} (obj : gmap string A) (key : string) : property A :=
  match obj !! key with
  | Some a => Own a
  | None => if bool_decide (key ∈ object_prototype_names) then Inherited else Absent
  end.

(** ** Numbers *)

(** [a > b] on numbers. *)
Definition Qgtb (a b : Q) : bool := negb (Qle_bool a b).

Definition Qltb (a b : Q) : bool := negb (Qle_bool b a).

(** Decimal digits of an integer, as [String(n)] prints them. *)
Definition Z_to_string (z : Z) : string :=
  NilZero.string_of_int (Z.to_int z).

(** [tenths q] is the integer [n] for which [n / 10] is nearest to
    [|q|], the larger one on a tie: the digits [toFixed(1)] prints. *)
Definition tenths (q : Q) : Z := Qfloor (Qabs q * 10 + (1 # 2)).

(** [q.toFixed(1)]. *)
Definition toFixed1 (q : Q) : string :=
  (if Qltb q 0 then "-" else "") ++
  Z_to_string (tenths q / 10) ++ "." ++ Z_to_string (tenths q mod 10).

(** [Number(q.toFixed(1))]: the value of that decimal numeral. *)
Definition Number_toFixed1 (q : Q) : Q :=
  (if Qltb q 0 then - tenths q else tenths q)%Z # 10.

(* ================================================================== *)
(** * Application state (main.js, Section 2) *)
(* ================================================================== *)

Record CpuStatus := {
  cpu_usage : Q;
  cpu_temperature : Q;
  cpu_cores : Z;
  cpu_frequency : Q
}.

Record RamStatus := {
  ram_usage : Q;
  ram_total : Q;
  ram_used : Q;
  ram_free : Q;
  ram_cache : Q
}.

Record DiskStatus := {
  disk_usage : Q;
  disk_total : Q;
  disk_used : Q;
  disk_free : Q
}.

Record NetworkStatus := {
  net_up : Q;
  net_down : Q;
  net_connections : Z;
  net_ping : Q
}.

Record SystemStatus := {
  cpu : CpuStatus;
  ram : RamStatus;
  disk : DiskStatus;
  network : NetworkStatus;
  lastUpdate : option Z
}.

Record UserSettings := {
  theme : string;
  autoOptimize : bool;
  notifications : bool;
  selectedProfile : string;
  aiAssistantEnabled : bool;
  chartTimeRange : string
}.

Record ProfileSettings := {
  priority : string;
  backgroundApps : string;
  powerMode : string;
  visualEffects : bool
}.

Record Profile := {
  profile_id : string;
  profile_name : string;
  profile_icon : string;
  profile_description : string;
  profile_settings : ProfileSettings;
  active : bool
}.

Record AppState := {
  systemStatus : SystemStatus;
  userSettings : UserSettings;
  profiles : gmap string Profile
}.

Definition gaming_profile : Profile := {|
  profile_id := "gaming"; profile_name := "Gaming"; profile_icon := "🎮";
  profile_description := "Optimized for heavy gaming";
  profile_settings := {| priority := "high"; backgroundApps := "minimal";
                         powerMode := "performance"; visualEffects := false |};
  active := false |}.

Definition work_profile : Profile := {|
  profile_id := "work"; profile_name := "Work"; profile_icon := "💼";
  profile_description := "Suitable for office work and programming";
  profile_settings := {| priority := "normal"; backgroundApps := "normal";
                         powerMode := "balanced"; visualEffects := true |};
  active := false |}.

Definition editing_profile : Profile := {|
  profile_id := "editing"; profile_name := "Video Editing"; profile_icon := "🎬";
  profile_description := "Optimized for video editing software";
  profile_settings := {| priority := "high"; backgroundApps := "limited";
                         powerMode := "performance"; visualEffects := true |};
  active := false |}.

Definition default_profile : Profile := {|
  profile_id := "default"; profile_name := "Default"; profile_icon := "⚙️";
  profile_description := "Normal system settings";
  profile_settings := {| priority := "normal"; backgroundApps := "normal";
                         powerMode := "balanced"; visualEffects := true |};
  active := true |}.

(** The [AppState] literal the script starts from. *)
Definition initial_AppState : AppState := {|
  systemStatus := {|
    cpu := {| cpu_usage := 0; cpu_temperature := 45; cpu_cores := 8;
              cpu_frequency := 32 # 10 |};
    ram := {| ram_usage := 0; ram_total := 16; ram_used := 0; ram_free := 16;
              ram_cache := 2 |};
    disk := {| disk_usage := 0; disk_total := 512; disk_used := 128;
               disk_free := 384 |};
    network := {| net_up := 0; net_down := 0; net_connections := 0;
                  net_ping := 28 |};
    lastUpdate := None |};
  userSettings := {|
    theme := "dark"; autoOptimize := true; notifications := true;
    selectedProfile := "default"; aiAssistantEnabled := true;
    chartTimeRange := "5m" |};
  profiles :=
    <["gaming" := gaming_profile]>
      (<["work" := work_profile]>
         (<["editing" := editing_profile]>
            (<["default" := default_profile]> ∅)))
|}.

(* ================================================================== *)
(** * Alert system (main.js, Section 7) *)
(* ================================================================== *)

Inductive AlertType : Type := info | warning | critical.

(** One call [showAlert(title, message, type)]. *)
Record AlertCall := {
  alert_title : string;
  alert_message : string;
  alert_type : AlertType
}.

Definition cpu_usage_alert (status : SystemStatus) : AlertCall := {|
  alert_title := "High CPU Usage Alert";
  alert_message := "CPU usage reached " ++ toFixed1 (cpu_usage (cpu status)) ++ "%";
  alert_type := warning |}.

Definition ram_usage_alert (status : SystemStatus) : AlertCall := {|
  alert_title := "High RAM Usage Alert";
  alert_message := "RAM usage reached " ++ toFixed1 (ram_usage (ram status)) ++ "%";
  alert_type := critical |}.

Definition cpu_temperature_alert (status : SystemStatus) : AlertCall := {|
  alert_title := "High CPU Temperature";
  alert_message :=
    "CPU temperature reached " ++ toFixed1 (cpu_temperature (cpu status)) ++ "°C";
  alert_type := warning |}.

(** [checkAlerts()]: the calls to [showAlert] it makes, in order.  It
    reads [AppState.systemStatus] and nothing else. *)
Definition checkAlerts (st : AppState) : list AlertCall :=
  let status := systemStatus st in
  (if Qgtb (cpu_usage (cpu status)) 85 then [cpu_usage_alert status] else []) ++
  (if Qgtb (ram_usage (ram status)) 90 then [ram_usage_alert status] else []) ++
  (if Qgtb (cpu_temperature (cpu status)) 75 then [cpu_temperature_alert status] else []).

(** [showAlert] returns at once when notifications are off; otherwise
    the alert element it builds is appended to the page. *)
Definition showAlert (st : AppState) (page : list AlertCall) (a : AlertCall)
  : list AlertCall :=
  if negb (notifications (userSettings st)) then page else page ++ [a].

(** A snapshot with the readings of the example: cpu usage 90, cpu
    temperature 50, ram usage 50. *)
Definition example_snapshot : AppState := {|
  systemStatus := {|
    cpu := {| cpu_usage := 90; cpu_temperature := 50; cpu_cores := 8;
              cpu_frequency := 32 # 10 |};
    ram := {| ram_usage := 50; ram_total := 16; ram_used := 8; ram_free := 8;
              ram_cache := 2 |};
    disk := disk (systemStatus initial_AppState);
    network := network (systemStatus initial_AppState);
    lastUpdate := Some 0%Z |};
  userSettings := userSettings initial_AppState;
  profiles := profiles initial_AppState |}.

(* ================================================================== *)
(** * Profile management (main.js, Section 6) *)
(* ================================================================== *)

Definition set_active (b : bool) (p : Profile) : Profile := {|
  profile_id := profile_id p; profile_name := profile_name p;
  profile_icon := profile_icon p; profile_description := profile_description p;
  profile_settings := profile_settings p; active := b |}.

Definition set_selectedProfile (id : string) (u : UserSettings) : UserSettings := {|
  theme := theme u; autoOptimize := autoOptimize u;
  notifications := notifications u; selectedProfile := id;
  aiAssistantEnabled := aiAssistantEnabled u;
  chartTimeRange := chartTimeRange u |}.

(** [activateProfile(profileId)].  The [forEach] that clears every
    [active] flag runs first, for every argument; the guarded block
    then sets the flag of the requested profile and records the id.
    When [profileId] names an inherited member the guard is truthy
    and the assignment lands on that member, not on a profile.  The
    rendering, notification and tracking calls of the guarded block
    leave [AppState] alone.  No path has a [return] with a value. *)
Definition activateProfile (profileId : string) (st : AppState) : retval * AppState :=
  let cleared := set_active false <$> profiles st in
  match js_get cleared profileId with
  | Own p =>
      (RUndefined,
       {| systemStatus := systemStatus st;
          userSettings := set_selectedProfile profileId (userSettings st);
          profiles := <[profileId := set_active true p]> cleared |})
  | Inherited =>
      (RUndefined,
       {| systemStatus := systemStatus st;
          userSettings := set_selectedProfile profileId (userSettings st);
          profiles := cleared |})
  | Absent =>
      (RUndefined,
       {| systemStatus := systemStatus st;
          userSettings := userSettings st;
          profiles := cleared |})
  end.

(** The ids of the profiles whose [active] flag is set. *)
Definition active_ids (st : AppState) : gset string :=
  dom (filter (fun kv => active kv.2 = true) (profiles st)).

(* ================================================================== *)
(** * Chart data (utils.js, Section 2) *)
(* ================================================================== *)

(** The [x] of a data point: a [Date] object or a bare number of
    milliseconds. *)
Inductive xval : Type :=
  | XDate (ms : Z)
  | XNum (ms : Z).

Record DataPoint := { x : xval; y : Q }.

(** [point.x instanceof Date ? point.x.getTime() : point.x]. *)
Definition pointTime (p : DataPoint) : Z :=
  match x p with
  | XDate ms => ms
  | XNum ms => ms
  end.

Section ChartData.

(** [Math.sin], and the successive results of [Math.random()]. *)
Variable Math_sin : Q -> Q.
Variable Math_random : nat -> Q.

Local Open Scope Q_scope.

(** The [switch (type)] of the loop body, before clamping. *)
Definition raw_value (type : string) (baseValue : Q) (i : nat) (randomFactor : Q) : Q :=
  let iq := inject_Z (Z.of_nat i) in
  if String.eqb type "cpu" then
    baseValue * (1 + Math_sin (iq * (1 # 10)) * (3 # 10) + randomFactor)
  else if String.eqb type "ram" then
    baseValue * (1 + Math_sin (iq * (5 # 100)) * (2 # 10) + randomFactor)
  else if String.eqb type "disk" then
    baseValue * (1 + Math_sin (iq * (3 # 100)) * (15 # 100) + randomFactor)
  else if String.eqb type "network" then
    baseValue * (1 + Math_sin (iq * (2 # 10)) * (4 # 10) + randomFactor)
  else
    baseValue * (1 + randomFactor).

(** One iteration of the loop, for loop variable [i] and the random
    number [r] drawn in it. *)
Definition chart_point (now : Z) (min max : Q) (type : string) (i : nat) (r : Q)
  : DataPoint :=
  let baseValue := (min + max) / 2 in
  let timeOffset := (Z.of_nat i * 1000)%Z in
  let timestamp := (now - timeOffset)%Z in
  let randomFactor := r * (1 # 10) - (5 # 100) in
  let value := raw_value type baseValue i randomFactor in
  let value := Qmax min (Qmin max value) in
  {| x := XDate timestamp; y := Number_toFixed1 value |}.

(** [for (let i = count - 1; i >= 0; i--) { ... data.push(...) }]:
    [n] iterations remain (the loop variable is [n - 1]), [draw]
    random numbers were consumed, [data] is the array so far. *)
Fixpoint chart_loop (now : Z) (min max : Q) (type : string)
    (n draw : nat) (data : list DataPoint) : list DataPoint :=
  match n with
  | O => data
  | S i =>
      chart_loop now min max type i (S draw)
        (data ++ [chart_point now min max type i (Math_random draw)])
  end.

(** [generateChartData(count, min, max, type)], called at time [now]. *)
Definition generateChartData (now : Z) (count : nat) (min max : Q) (type : string)
  : list DataPoint :=
  chart_loop now min max type count 0%nat [].

End ChartData.

(** The [switch (range)] of [filterDataByTimeRange]. *)
Definition timeLimit (range : string) : Z :=
  if String.eqb range "1m" then 60 * 1000
  else if String.eqb range "5m" then 5 * 60 * 1000
  else if String.eqb range "1h" then 60 * 60 * 1000
  else if String.eqb range "1d" then 24 * 60 * 60 * 1000
  else 60 * 1000.

(** [filterDataByTimeRange(data, range)], called at time [now]. *)
Definition filterDataByTimeRange (now : Z) (data : list DataPoint) (range : string)
  : list DataPoint :=
  List.filter (fun point => (now - pointTime point <=? timeLimit range)%Z) data.

(* ================================================================== *)
(** * System simulation (utils.js, Section 8) *)
(* ================================================================== *)

Record Operation := {
  op_name : string;
  op_steps : list string;
  op_duration : Z
}.

Definition memory_optimization : Operation :=
  {| op_name := "Memory Optimization";
     op_steps := ["Checking processes"; "Clearing cache";
                  "Reallocating memory"; "Completed"];
     op_duration := 3000 |}.

Definition operations : gmap string Operation :=
  <["memory_optimization" := memory_optimization]>
  (<["security_scan" :=
      {| op_name := "Security Scan";
         op_steps := ["Scanning system files"; "Checking registry";
                      "Analyzing network"; "Generating report"; "Completed"];
         op_duration := 5000 |}]>
  (<["troubleshoot" :=
      {| op_name := "System Troubleshooting";
         op_steps := ["Diagnosing problem"; "Checking logs"; "Finding solution";
                      "Applying settings"; "Completed"];
         op_duration := 4000 |}]>
  (<["disk_cleanup" :=
      {| op_name := "Disk Cleanup";
         op_steps := ["Scanning for temp files"; "Analyzing disk usage";
                      "Removing junk files"; "Optimizing storage"; "Completed"];
         op_duration := 6000 |}]>
  (<["registry_scan" :=
      {| op_name := "Registry Scan";
         op_steps := ["Scanning registry"; "Finding errors"; "Creating backup";
                      "Fixing issues"; "Completed"];
         op_duration := 4500 |}]> ∅)))).

Record LogEntry := {
  log_step : string;
  log_progress : Q;
  log_timestamp : string;
  log_status : string
}.

Record OperationResults := {
  success : bool;
  freedMemory : Z;
  threatsFound : Z;
  issuesResolved : Z;
  filesCleaned : Z;
  registryFixed : Z;
  executionTime : Z;
  log : list LogEntry
}.

Section Simulation.

(** [new Date().toLocaleTimeString('fa-IR')] at the [i]-th step, and
    the successive results of [Math.random()]. *)
Variable timeString : nat -> string.
Variable Math_random : nat -> Q.

Local Open Scope Q_scope.

Definition log_entry (len : nat) (i : nat) (step : string) : LogEntry := {|
  log_step := step;
  log_progress :=
    (inject_Z (Z.of_nat (i + 1)) / inject_Z (Z.of_nat len)) * 100;
  log_timestamp := timeString i;
  log_status := if Nat.eqb i (len - 1)%nat then "completed" else "in_progress"
|}.

(** The step loop: [rest] holds [steps[i]], [steps[i+1]], ... and
    [acc] the entries pushed so far. *)
Fixpoint step_loop (len : nat) (i : nat) (rest : list string) (acc : list LogEntry)
  : list LogEntry :=
  match rest with
  | [] => acc
  | step :: rest' => step_loop len (S i) rest' (acc ++ [log_entry len i step])
  end.

(** [Math.floor(Math.random() * k) + c] with the random number [r]. *)
Definition random_int (r : Q) (k c : Z) : Z := (Qfloor (r * inject_Z k) + c)%Z.

(** [simulateSystemOperation(operationType)].  The lookup
    [operations[operationType] || operations.memory_optimization]
    falls back only when the read is falsy; an inherited member is
    truthy and has no [steps], so [operation.steps.length] throws and
    the promise is rejected. *)
Definition simulateSystemOperation (operationType : string)
  : completion OperationResults :=
  operation ←
    match js_get operations operationType with
    | Own op => Normal op
    | Absent => Normal memory_optimization
    | Inherited => Throw TypeError
    end;
  let len := length (op_steps operation) in
  let log := step_loop len 0%nat (op_steps operation) [] in
  let typeIs t := String.eqb operationType t in
  Normal {|
    success := Qgtb (Math_random 0%nat) (1 # 10);
    freedMemory :=
      if typeIs "memory_optimization" then random_int (Math_random 1%nat) 500 100 else 0%Z;
    threatsFound :=
      if typeIs "security_scan" then random_int (Math_random 1%nat) 3 0 else 0%Z;
    issuesResolved :=
      if typeIs "troubleshoot" then random_int (Math_random 1%nat) 5 1 else 0%Z;
    filesCleaned :=
      if typeIs "disk_cleanup" then random_int (Math_random 1%nat) 1000 100 else 0%Z;
    registryFixed :=
      if typeIs "registry_scan" then random_int (Math_random 1%nat) 20 5 else 0%Z;
    executionTime := op_duration operation;
    log := log
  |}.

End Simulation.

(** The activation contract as the specification words it: an unknown
    id leaves the state as it was and the call returns false; a known
    id leaves exactly the requested profile active and the call
    returns true. *)
Definition activate_contract (profileId : string) (st : AppState) : Prop :=
  let r := (activateProfile profileId st).1 in
  let st' := (activateProfile profileId st).2 in
  (profiles st !! profileId = None -> st' = st /\ r = RBool false) /\
  (is_Some (profiles st !! profileId) ->
     active_ids st' = {[ profileId ]} /\ r = RBool true).

(** The operation the lookup of [simulateSystemOperation] settles on
    when it does not throw. *)
Definition configured (operationType : string) : Operation :=
  default memory_optimization (operations !! operationType).

(* ================================================================== *)
(** * Strings *)
(* ================================================================== *)

(** [c] lies between [lo] and [hi], bounds included. *)
Definition char_between (lo hi c : ascii) : bool :=
  (N_of_ascii lo <=? N_of_ascii c)%N && (N_of_ascii c <=? N_of_ascii hi)%N.

(** [toLowerCase] on one byte: the letters A-Z.  The other case
    mappings of Unicode are not modelled; every keyword and query of
    the properties below is ASCII or Persian script, which has no
    case. *)
Definition lower_char (c : ascii) : ascii :=
  if char_between "A" "Z" c then ascii_of_N (N_of_ascii c + 32) else c.

Fixpoint toLowerCase (s : string) : string :=
  match s with
  | EmptyString => EmptyString
  | String c s' => String (lower_char c) (toLowerCase s')
  end.

(** [s.includes(needle)]. *)
Fixpoint includes (s needle : string) : bool :=
  String.prefix needle s ||
  match s with
  | EmptyString => false
  | String _ s' => includes s' needle
  end.

(* ================================================================== *)
(** * Keyword classifiers *)
(* ================================================================== *)

(** The intent selection of [AILocalEngine.processQuery]: the tag
    under which it then looks up the response template. *)
Definition detectIntent (query : string) : string :=
  let lowerQuery := toLowerCase query in
  if includes lowerQuery "بهینه" || includes lowerQuery "سرعت"
     || includes lowerQuery "کند" then
    "system_optimization"
  else if includes lowerQuery "فایل" || includes lowerQuery "پاک"
          || includes lowerQuery "حذف" then
    "file_management"
  else if includes lowerQuery "شبکه" || includes lowerQuery "اینترنت"
          || includes lowerQuery "اتصال" then
    "network"
  else
    "general".

(** The keyword table of [categorizeCommand], in the order
    [Object.entries] lists it. *)
Definition categories : list (string * list string) :=
  [ ("system", ["cpu"; "ram"; "memory"; "processing"; "process"; "memory"; "system"]);
    ("network", ["network"; "internet"; "ping"; "port"; "speed"; "download"; "upload"]);
    ("security", ["security"; "virus"; "antivirus"; "scan"; "malware"; "firewall"]);
    ("gaming", ["game"; "gaming"; "graphics"; "fps"; "performance"]);
    ("optimization", ["optimize"; "fast"; "slow"; "speed"; "boost"; "performance"]);
    ("disk", ["disk"; "storage"; "drive"; "hdd"; "ssd"; "space"]);
    ("automation", ["script"; "automation"; "batch"; "schedule"; "task"]) ].

(** The [for ... of] loop of [categorizeCommand]: the first category
    one of whose keywords occurs wins. *)
Fixpoint first_category (entries : list (string * list string)) (lowerCommand : string)
  : string :=
  match entries with
  | [] => "general"
  | (category, keywords) :: rest =>
      if existsb (fun keyword => includes lowerCommand keyword) keywords
      then category
      else first_category rest lowerCommand
  end.

Definition categorizeCommand (command : string) : string :=
  let lowerCommand := toLowerCase command in
  first_category categories lowerCommand.

(** The classification examples as the specification gives them. *)
Definition classify_examples (classify : string -> string) : Prop :=
  classify "my system is slow and I need to optimize" = "system_optimization" /\
  classify "hello" = "general".

(* ================================================================== *)
(** * JSON *)
(* ================================================================== *)

(** JavaScript values that reach the storage functions.  [VObj] lists
    the own properties in enumeration order.  [VCyclic] stands for an
    object that refers back to itself, which [JSON.stringify] refuses.
    Numbers are integers here; numerals with a fraction or an exponent
    are outside the modelled fragment. *)
Unset Elimination Schemes.
Inductive jsval : Type :=
  | VUndefined
  | VNull
  | VBool (b : bool)
  | VNum (n : Z)
  | VStr (s : string)
  | VArr (items : list jsval)
  | VObj (fields : list (string * jsval))
  | VCyclic.
Set Elimination Schemes.

Definition dquote : ascii := "034".
Definition backslash : ascii := "092".

(** ** UTF-8 *)

Definition byte_string (bytes : list N) : string :=
  string_of_list_ascii (map ascii_of_N bytes).

(** The bytes encoding code point [cp] (generalised to lone
    surrogates, which take three bytes like their neighbours). *)
Definition utf8_bytes (cp : N) : list N :=
  if (cp <? 128)%N then [cp]
  else if (cp <? 2048)%N then [192 + cp / 64; 128 + cp mod 64]%N
  else if (cp <? 65536)%N then
    [224 + cp / 4096; 128 + (cp / 64) mod 64; 128 + cp mod 64]%N
  else
    [240 + cp / 262144; 128 + (cp / 4096) mod 64;
     128 + (cp / 64) mod 64; 128 + cp mod 64]%N.

Definition utf8_encode (cp : N) : string := byte_string (utf8_bytes cp).

Definition is_high_surrogate (cu : N) : bool := (55296 <=? cu)%N && (cu <? 56320)%N.
Definition is_low_surrogate (cu : N) : bool := (56320 <=? cu)%N && (cu <? 57344)%N.

(** [s.length]: the number of UTF-16 code units of the string whose
    UTF-8 bytes are [s].  A continuation byte adds nothing, the lead
    byte of a four-byte sequence adds two. *)
Fixpoint js_length (s : string) : N :=
  match s with
  | EmptyString => 0%N
  | String c s' =>
      let b := N_of_ascii c in
      ((if (b <? 128) then 1
        else if (b <? 192) then 0
        else if (b <? 240) then 1
        else 2) + js_length s')%N
  end.

(** ** Quoting strings *)

Definition hex_digit_lower (n : N) : ascii :=
  if (n <? 10)%N then ascii_of_N (48 + n) else ascii_of_N (87 + n).

(** Value of a hexadecimal digit, either case. *)
Definition hex_value (c : ascii) : option N :=
  let b := N_of_ascii c in
  if char_between "0" "9" c then Some (b - 48)%N
  else if char_between "a" "f" c then Some (b - 87)%N
  else if char_between "A" "F" c then Some (b - 55)%N
  else None.

(** How [JSON.stringify] writes one byte of a string. *)
Definition quote_char (c : ascii) : string :=
  let b := N_of_ascii c in
  if Ascii.eqb c dquote then String backslash (String dquote EmptyString)
  else if Ascii.eqb c backslash then String backslash (String backslash EmptyString)
  else if (b =? 8)%N then String backslash "b"
  else if (b =? 12)%N then String backslash "f"
  else if (b =? 10)%N then String backslash "n"
  else if (b =? 13)%N then String backslash "r"
  else if (b =? 9)%N then String backslash "t"
  else if (b <? 32)%N then
    String backslash
      (String "u" (String "0" (String "0"
         (String (hex_digit_lower (b / 16))
            (String (hex_digit_lower (b mod 16)) EmptyString)))))
  else String c EmptyString.

Fixpoint quote_chars (s : string) : string :=
  match s with
  | EmptyString => EmptyString
  | String c s' => quote_char c ++ quote_chars s'
  end.

(** [QuoteJSONString]. *)
Definition JSON_quote (s : string) : string :=
  String dquote (quote_chars s ++ String dquote EmptyString).

(** ** Reading strings *)

Inductive scan_state : Type :=
  | InChars
  | InEscape
  | InHex (remaining : nat) (acc : N).

(** The character an escape letter stands for. *)
Definition simple_escape (c : ascii) : option ascii :=
  if Ascii.eqb c dquote then Some dquote
  else if Ascii.eqb c backslash then Some backslash
  else if Ascii.eqb c "/" then Some "/"%char
  else if Ascii.eqb c "b" then Some "008"%char
  else if Ascii.eqb c "f" then Some "012"%char
  else if Ascii.eqb c "n" then Some "010"%char
  else if Ascii.eqb c "r" then Some "013"%char
  else if Ascii.eqb c "t" then Some "009"%char
  else None.

(** Bytes for a high surrogate that turned out to be unpaired. *)
Definition flush (pending : option N) (out : string) : string :=
  match pending with
  | Some hi => utf8_encode hi ++ out
  | None => out
  end.

(** A [\uXXXX] escape gave the code unit [cu]; [pending] is a high
    surrogate read just before.  Returns the bytes to emit and the
    surrogate now pending. *)
Definition emit_unit (pending : option N) (cu : N) : string * option N :=
  match pending with
  | Some hi =>
      if is_low_surrogate cu then
        (utf8_encode (65536 + (hi - 55296) * 1024 + (cu - 56320)), None)
      else if is_high_surrogate cu then (utf8_encode hi, Some cu)
      else (utf8_encode hi ++ utf8_encode cu, None)
  | None =>
      if is_high_surrogate cu then (EmptyString, Some cu)
      else (utf8_encode cu, None)
  end.

Definition prepend (out : string) (r : option (string * string))
  : option (string * string) :=
  match r with
  | Some (str, rest) => Some (out ++ str, rest)
  | None => None
  end.

(** Reads the characters of a JSON string up to the closing quote;
    yields the string denoted and the text after the quote. *)
Fixpoint scan_string (s : string) (st : scan_state) (pending : option N)
  : option (string * string) :=
  match s with
  | EmptyString => None
  | String c r =>
      match st with
      | InChars =>
          if Ascii.eqb c dquote then Some (flush pending EmptyString, r)
          else if Ascii.eqb c backslash then scan_string r InEscape pending
          else if (N_of_ascii c <? 32)%N then None
          else prepend (flush pending (String c EmptyString)) (scan_string r InChars None)
      | InEscape =>
          if Ascii.eqb c "u" then scan_string r (InHex 4 0) pending
          else
            match simple_escape c with
            | Some d =>
                prepend (flush pending (String d EmptyString))
                  (scan_string r InChars None)
            | None => None
            end
      | InHex (S k) acc =>
          match hex_value c with
          | None => None
          | Some h =>
              let acc' := (acc * 16 + h)%N in
              match k with
              | O =>
                  let '(out, pending') := emit_unit pending acc' in
                  prepend out (scan_string r InChars pending')
              | S _ => scan_string r (InHex k acc') pending
              end
          end
      | InHex O _ => None
      end
  end.

(** ** Writing values *)

(** [arr.join(",")] on pieces of text. *)
Fixpoint join_comma (parts : list string) : string :=
  match parts with
  | [] => EmptyString
  | [p] => p
  | p :: rest => p ++ "," ++ join_comma rest
  end.

(** The texts of the elements of an array, given how to write one
    value; an element without text ([undefined]) is written null. *)
Definition serialize_elements (serialize : jsval -> completion (option string))
  : list jsval -> completion (list string) :=
  fix elements (l : list jsval) : completion (list string) :=
    match l with
    | [] => Normal []
    | item :: l' =>
        text ← serialize item;
        rest ← elements l';
        Normal (default "null" text :: rest)
    end.

(** The texts of the members of an object; a property whose value
    has no text is left out. *)
Definition serialize_members (serialize : jsval -> completion (option string))
  : list (string * jsval) -> completion (list string) :=
  fix members (l : list (string * jsval)) : completion (list string) :=
    match l with
    | [] => Normal []
    | kv :: l' =>
        text ← serialize (snd kv);
        rest ← members l';
        Normal match text with
               | Some t => (JSON_quote (fst kv) ++ ":" ++ t) :: rest
               | None => rest
               end
    end.

(** [SerializeJSONProperty]: the text of a value, [None] for a value
    that has none ([undefined]), a throw for a cyclic structure. *)
Fixpoint serialize (v : jsval) : completion (option string) :=
  match v with
  | VUndefined => Normal None
  | VNull => Normal (Some "null")
  | VBool true => Normal (Some "true")
  | VBool false => Normal (Some "false")
  | VNum n => Normal (Some (Z_to_string n))
  | VStr s => Normal (Some (JSON_quote s))
  | VArr items =>
      parts ← serialize_elements serialize items;
      Normal (Some ("[" ++ join_comma parts ++ "]"))
  | VObj fields =>
      parts ← serialize_members serialize fields;
      Normal (Some ("{" ++ join_comma parts ++ "}"))
  | VCyclic => Throw TypeError
  end.

(** [JSON.stringify(v)]. *)
Definition JSON_stringify (v : jsval) : completion (option string) := serialize v.

(** ** Reading values *)

Definition is_whitespace (c : ascii) : bool :=
  Ascii.eqb c " " || Ascii.eqb c "009" || Ascii.eqb c "010" || Ascii.eqb c "013".

Fixpoint skip_whitespace (s : string) : string :=
  match s with
  | String c s' => if is_whitespace c then skip_whitespace s' else s
  | EmptyString => EmptyString
  end.

Definition is_digit (c : ascii) : bool := char_between "0" "9" c.

(** The longest prefix of digits, and what follows it. *)
Fixpoint span_digits (s : string) : string * string :=
  match s with
  | String c s' =>
      if is_digit c then
        let '(ds, rest) := span_digits s' in (String c ds, rest)
      else (EmptyString, s)
  | EmptyString => (EmptyString, EmptyString)
  end.

(** An unsigned JSON integer: digits without a superfluous leading
    zero, not followed by a fraction or an exponent. *)
Definition parse_digits (s : string) : option (Z * string) :=
  let '(ds, rest) := span_digits s in
  let leading_zero :=
    match ds with
    | String "0" (String _ _) => true
    | _ => false
    end in
  let continues :=
    match rest with
    | String c _ => Ascii.eqb c "." || Ascii.eqb c "e" || Ascii.eqb c "E"
    | EmptyString => false
    end in
  match ds with
  | EmptyString => None
  | _ =>
      if leading_zero || continues then None
      else
        match NilZero.uint_of_string ds with
        | Some d => Some (Z.of_uint d, rest)
        | None => None
        end
  end.

Definition parse_number (s : string) : option (Z * string) :=
  match s with
  | String "-" s' =>
      match parse_digits s' with
      | Some (n, rest) => Some ((- n)%Z, rest)
      | None => None
      end
  | _ => parse_digits s
  end.

(** [s] without the prefix [word], if it starts with it. *)
Fixpoint strip_prefix (word s : string) : option string :=
  match word, s with
  | EmptyString, _ => Some s
  | String a word', String b s' =>
      if Ascii.eqb a b then strip_prefix word' s' else None
  | String _ _, EmptyString => None
  end.

(** Defines property [key]: a key met again keeps its first place and
    takes the later value. *)
Definition define_property (key : string) (value : jsval)
    (later : list (string * jsval)) : list (string * jsval) :=
  match List.find (fun kv => String.eqb (fst kv) key) later with
  | Some (_, value') =>
      (key, value') :: List.filter (fun kv => negb (String.eqb (fst kv) key)) later
  | None => (key, value) :: later
  end.

(** Recursive descent over the JSON grammar.  [fuel] bounds the
    number of nested calls; the length of the text is always enough. *)
Fixpoint parse_value (fuel : nat) (s : string) : option (jsval * string) :=
  match fuel with
  | O => None
  | S fuel' =>
      match skip_whitespace s with
      | EmptyString => None
      | String c r =>
          if Ascii.eqb c "n" then
            match strip_prefix "ull" r with
            | Some r' => Some (VNull, r') | None => None end
          else if Ascii.eqb c "t" then
            match strip_prefix "rue" r with
            | Some r' => Some (VBool true, r') | None => None end
          else if Ascii.eqb c "f" then
            match strip_prefix "alse" r with
            | Some r' => Some (VBool false, r') | None => None end
          else if Ascii.eqb c dquote then
            match scan_string r InChars None with
            | Some (str, r') => Some (VStr str, r') | None => None end
          else if Ascii.eqb c "[" then
            match skip_whitespace r with
            | String "]" r' => Some (VArr [], r')
            | _ =>
                match parse_elements fuel' r with
                | Some (items, r') => Some (VArr items, r') | None => None end
            end
          else if Ascii.eqb c "{" then
            match skip_whitespace r with
            | String "}" r' => Some (VObj [], r')
            | _ =>
                match parse_members fuel' r with
                | Some (fields, r') => Some (VObj fields, r') | None => None end
            end
          else
            match parse_number (String c r) with
            | Some (n, r') => Some (VNum n, r') | None => None end
      end
  end

with parse_elements (fuel : nat) (s : string) : option (list jsval * string) :=
  match fuel with
  | O => None
  | S fuel' =>
      match parse_value fuel' s with
      | Some (item, r) =>
          match skip_whitespace r with
          | String "," r' =>
              match parse_elements fuel' r' with
              | Some (items, r'') => Some (item :: items, r'')
              | None => None
              end
          | String "]" r' => Some ([item], r')
          | _ => None
          end
      | None => None
      end
  end

with parse_members (fuel : nat) (s : string)
  : option (list (string * jsval) * string) :=
  match fuel with
  | O => None
  | S fuel' =>
      match skip_whitespace s with
      | String c r =>
          if Ascii.eqb c dquote then
            match scan_string r InChars None with
            | Some (key, r1) =>
                match skip_whitespace r1 with
                | String ":" r2 =>
                    match parse_value fuel' r2 with
                    | Some (value, r3) =>
                        match skip_whitespace r3 with
                        | String "," r4 =>
                            match parse_members fuel' r4 with
                            | Some (fields, r5) =>
                                Some (define_property key value fields, r5)
                            | None => None
                            end
                        | String "}" r4 => Some ([(key, value)], r4)
                        | _ => None
                        end
                    | None => None
                    end
                | _ => None
                end
            | None => None
            end
          else None
      | EmptyString => None
      end
  end.

(** [JSON.parse(text)]: one value, with nothing but white space
    after it; a [SyntaxError] otherwise. *)
Definition JSON_parse (text : string) : completion jsval :=
  match parse_value (S (String.length text)) text with
  | Some (v, rest) =>
      match skip_whitespace rest with
      | EmptyString => Normal v
      | String _ _ => Throw SyntaxError
      end
  | None => Throw SyntaxError
  end.

(* ================================================================== *)
(** * Text-safe encodings: [encodeURIComponent], [btoa] and back *)
(* ================================================================== *)

(** ** Percent-encoding *)

Definition hex_digit_upper (n : N) : ascii :=
  if (n <? 10)%N then ascii_of_N (48 + n) else ascii_of_N (55 + n).

(** The characters [encodeURIComponent] leaves as they are. *)
Definition uri_unreserved (c : ascii) : bool :=
  char_between "A" "Z" c || char_between "a" "z" c || char_between "0" "9" c ||
  existsb (Ascii.eqb c) ["-"; "_"; "."; "!"; "~"; "*"; "'"; "("; ")"]%char.

Definition percent_byte (c : ascii) : string :=
  let b := N_of_ascii c in
  String "%" (String (hex_digit_upper (b / 16))
                (String (hex_digit_upper (b mod 16)) EmptyString)).

(** [encodeURIComponent(s)]: every byte of the UTF-8 form that is not
    unreserved becomes [%XX].  (JavaScript throws a [URIError] on an
    unpaired surrogate, which well-formed UTF-8 cannot hold.) *)
Fixpoint encodeURIComponent (s : string) : string :=
  match s with
  | EmptyString => EmptyString
  | String c s' =>
      (if uri_unreserved c then String c EmptyString else percent_byte c)
      ++ encodeURIComponent s'
  end.

(** Number of bytes the sequence led by byte [b] must have; 0 when
    [b] cannot lead one. *)
Definition sequence_length (b : N) : nat :=
  if (b <? 128)%N then 1
  else if (b <? 192)%N then 0
  else if (b <? 224)%N then 2
  else if (b <? 240)%N then 3
  else if (b <? 248)%N then 4
  else 0.

Definition is_continuation (b : N) : bool := (128 <=? b)%N && (b <? 192)%N.

(** A complete multi-byte sequence that encodes a Unicode scalar
    value: shortest form, no surrogate, at most U+10FFFF. *)
Definition valid_sequence (bytes : list N) : bool :=
  match bytes with
  | [b0; b1] => (194 <=? b0)%N && (b0 <? 224)%N && is_continuation b1
  | [b0; b1; b2] =>
      (224 <=? b0)%N && (b0 <? 240)%N && is_continuation b1 && is_continuation b2 &&
      negb ((b0 =? 224)%N && (b1 <? 160)%N) &&
      negb ((b0 =? 237)%N && (160 <=? b1)%N)
  | [b0; b1; b2; b3] =>
      (240 <=? b0)%N && (b0 <? 245)%N &&
      is_continuation b1 && is_continuation b2 && is_continuation b3 &&
      negb ((b0 =? 240)%N && (b1 <? 144)%N) &&
      negb ((b0 =? 244)%N && (144 <=? b1)%N)
  | _ => false
  end.

Inductive uri_phase : Type :=
  | UPlain
  | UHex1
  | UHex2 (high : N).

(** [decodeURIComponent(s)].  [collected] holds the bytes of a
    multi-byte sequence read so far through escapes and [remaining]
    counts those still due; outside such a sequence both are empty. *)
Fixpoint uri_decode (s : string) (phase : uri_phase) (collected : list N)
    (remaining : nat) : completion string :=
  match s with
  | EmptyString =>
      match phase, remaining with
      | UPlain, O => Normal EmptyString
      | _, _ => Throw URIError
      end
  | String c r =>
      match phase with
      | UPlain =>
          if Ascii.eqb c "%" then uri_decode r UHex1 collected remaining
          else
            match remaining with
            | O => rest ← uri_decode r UPlain [] O; Normal (String c rest)
            | S _ => Throw URIError
            end
      | UHex1 =>
          match hex_value c with
          | Some h => uri_decode r (UHex2 h) collected remaining
          | None => Throw URIError
          end
      | UHex2 high =>
          match hex_value c with
          | None => Throw URIError
          | Some low =>
              let b := (high * 16 + low)%N in
              match remaining with
              | O =>
                  match sequence_length b with
                  | 1 => rest ← uri_decode r UPlain [] O;
                         Normal (String (ascii_of_N b) rest)
                  | S (S n) => uri_decode r UPlain [b] (S n)
                  | O => Throw URIError
                  end
              | S n =>
                  if is_continuation b then
                    match n with
                    | O =>
                        if valid_sequence (collected ++ [b]) then
                          rest ← uri_decode r UPlain [] O;
                          Normal (byte_string (collected ++ [b]) ++ rest)
                        else Throw URIError
                    | S _ => uri_decode r UPlain (collected ++ [b]) n
                    end
                  else Throw URIError
              end
          end
      end
  end.

Definition decodeURIComponent (s : string) : completion string :=
  uri_decode s UPlain [] O.

(** ** Base64 *)

Definition base64_char (n : N) : ascii :=
  if (n <? 26)%N then ascii_of_N (65 + n)
  else if (n <? 52)%N then ascii_of_N (71 + n)
  else if (n <? 62)%N then ascii_of_N (n - 4)
  else if (n =? 62)%N then "+"%char
  else "/"%char.

Definition base64_value (c : ascii) : option N :=
  let b := N_of_ascii c in
  if char_between "A" "Z" c then Some (b - 65)%N
  else if char_between "a" "z" c then Some (b - 71)%N
  else if char_between "0" "9" c then Some (b + 4)%N
  else if Ascii.eqb c "+" then Some 62%N
  else if Ascii.eqb c "/" then Some 63%N
  else None.

(** Three bytes at a time become four characters; the last group is
    padded with [=]. *)
Fixpoint base64_encode (bytes : list N) : string :=
  match bytes with
  | [] => EmptyString
  | [b0] =>
      String (base64_char (b0 / 4))
        (String (base64_char ((b0 mod 4) * 16)) "==")
  | [b0; b1] =>
      String (base64_char (b0 / 4))
        (String (base64_char ((b0 mod 4) * 16 + b1 / 16))
           (String (base64_char ((b1 mod 16) * 4)) "="))
  | b0 :: b1 :: b2 :: rest =>
      String (base64_char (b0 / 4))
        (String (base64_char ((b0 mod 4) * 16 + b1 / 16))
           (String (base64_char ((b1 mod 16) * 4 + b2 / 64))
              (String (base64_char (b2 mod 64)) (base64_encode rest))))
  end.

(** The characters U+0000..U+00FF of a string given by its UTF-8
    bytes, one byte each; [None] when a character lies above U+00FF
    or the bytes are ill-formed. *)
Fixpoint latin1_bytes (s : string) : option (list N) :=
  match s with
  | EmptyString => Some []
  | String c s' =>
      let b := N_of_ascii c in
      if (b <? 128)%N then
        match latin1_bytes s' with
        | Some bs => Some (b :: bs)
        | None => None
        end
      else
        match s' with
        | String c1 s'' =>
            let b1 := N_of_ascii c1 in
            if ((b =? 194)%N || (b =? 195)%N) && is_continuation b1 then
              match latin1_bytes s'' with
              | Some bs => Some (((b - 192) * 64 + (b1 - 128))%N :: bs)
              | None => None
              end
            else None
        | EmptyString => None
        end
  end.

(** The string whose characters are the given bytes, read as
    U+0000..U+00FF. *)
Fixpoint latin1_string (bytes : list N) : string :=
  match bytes with
  | [] => EmptyString
  | b :: rest => utf8_encode b ++ latin1_string rest
  end.

(** [btoa(s)]. *)
Definition btoa (s : string) : completion string :=
  match latin1_bytes s with
  | Some bytes => Normal (base64_encode bytes)
  | None => Throw InvalidCharacterError
  end.

(** The bytes two, three or four six-bit values stand for; the spare
    bits of a short group are dropped. *)
Definition sextets_bytes (vs : list N) : list N :=
  match vs with
  | [v0; v1] => [(v0 * 4 + v1 / 16)%N]
  | [v0; v1; v2] => [(v0 * 4 + v1 / 16)%N; ((v1 mod 16) * 16 + v2 / 4)%N]
  | [v0; v1; v2; v3] =>
      [(v0 * 4 + v1 / 16)%N; ((v1 mod 16) * 16 + v2 / 4)%N; ((v2 mod 4) * 64 + v3)%N]
  | _ => []
  end.

(** The six-bit values of the given characters; [None] when one of
    them is outside the alphabet. *)
Fixpoint base64_values (cs : list ascii) : option (list N) :=
  match cs with
  | [] => Some []
  | c :: cs' =>
      match base64_value c, base64_values cs' with
      | Some v, Some vs => Some (v :: vs)
      | _, _ => None
      end
  end.

Definition decode_group (cs : list ascii) : option (list N) :=
  match base64_values cs with
  | Some vs => Some (sextets_bytes vs)
  | None => None
  end.

(** Forgiving Base64 decoding of a text without white space, four
    characters at a time.  The last group may be padded to four
    characters with one or two [=], or be two or three characters
    short; a single left-over character is an error, and so is [=]
    anywhere else. *)
Fixpoint base64_decode (s : string) : option (list N) :=
  match s with
  | EmptyString => Some []
  | String _ EmptyString => None
  | String a (String b EmptyString) => decode_group [a; b]
  | String a (String b (String c EmptyString)) => decode_group [a; b; c]
  | String a (String b (String c (String d rest))) =>
      match rest with
      | EmptyString =>
          if Ascii.eqb d "=" then
            if Ascii.eqb c "=" then decode_group [a; b] else decode_group [a; b; c]
          else decode_group [a; b; c; d]
      | String _ _ =>
          match decode_group [a; b; c; d], base64_decode rest with
          | Some bytes, Some more => Some (bytes ++ more)%list
          | _, _ => None
          end
      end
  end.

Fixpoint remove_whitespace (s : string) : string :=
  match s with
  | EmptyString => EmptyString
  | String c s' =>
      if is_whitespace c || Ascii.eqb c "012" then remove_whitespace s'
      else String c (remove_whitespace s')
  end.

(** [atob(s)]: the forgiving Base64 decoding of the HTML standard;
    the bytes are the characters of the result. *)
Definition atob (s : string) : completion string :=
  match base64_decode (remove_whitespace s) with
  | Some bytes => Normal (latin1_string bytes)
  | None => Throw InvalidCharacterError
  end.

(** [/^[A-Za-z0-9+/=]+$/.test(s)]. *)
Definition base64_shape (s : string) : bool :=
  negb (String.eqb s EmptyString) &&
  forallb (fun c => char_between "A" "Z" c || char_between "a" "z" c ||
                    char_between "0" "9" c || Ascii.eqb c "+" ||
                    Ascii.eqb c "/" || Ascii.eqb c "=")
          (list_ascii_of_string s).

(* ================================================================== *)
(** * Coercions *)
(* ================================================================== *)

(** [if (v)]: truthiness. *)
Definition truthy (v : jsval) : bool :=
  match v with
  | VUndefined | VNull => false
  | VBool b => b
  | VNum n => negb (n =? 0)%Z
  | VStr s => negb (String.eqb s EmptyString)
  | VArr _ | VObj _ | VCyclic => true
  end.

(** [typeof v === 'object']. *)
Definition typeof_object (v : jsval) : bool :=
  match v with
  | VNull | VArr _ | VObj _ | VCyclic => true
  | _ => false
  end.

(** [String(v)] for a value found inside parsed JSON. *)
Fixpoint to_string (v : jsval) : string :=
  match v with
  | VUndefined => "undefined"
  | VNull => "null"
  | VBool true => "true"
  | VBool false => "false"
  | VNum n => Z_to_string n
  | VStr s => s
  | VArr items =>
      join_comma
        ((fix elements (l : list jsval) : list string :=
            match l with
            | [] => []
            | item :: l' =>
                match item with
                | VUndefined | VNull => EmptyString
                | _ => to_string item
                end :: elements l'
            end) items)
  | VObj _ | VCyclic => "[object Object]"
  end.

Fixpoint trim_left (s : string) : string :=
  match s with
  | String c s' =>
      if is_whitespace c || Ascii.eqb c "011" || Ascii.eqb c "012" then trim_left s'
      else s
  | EmptyString => EmptyString
  end.

(** [Number(s)] for a string: white space is trimmed, the empty
    string is 0, a decimal integer with an optional sign is its
    value, and [None] stands for [NaN].  Numerals with a fraction, an
    exponent or a radix prefix are outside the modelled fragment and
    read as [NaN] too. *)
Definition string_to_number (s : string) : option Z :=
  let body := trim_left s in
  let '(negative, digits) :=
    match body with
    | String "-" r => (true, r)
    | String "+" r => (false, r)
    | _ => (false, body)
    end in
  let '(ds, rest) := span_digits digits in
  match body, ds, trim_left rest with
  | EmptyString, _, _ => Some 0%Z
  | _, String _ _, EmptyString =>
      match NilZero.uint_of_string ds with
      | Some d => Some (if negative then (- Z.of_uint d)%Z else Z.of_uint d)
      | None => None
      end
  | _, _, _ => None
  end.

(** [Number(v)]; [None] is [NaN]. *)
Definition to_number (v : jsval) : option Z :=
  match v with
  | VUndefined => None
  | VNull => Some 0%Z
  | VBool true => Some 1%Z
  | VBool false => Some 0%Z
  | VNum n => Some n
  | VStr s => string_to_number s
  | VArr _ => string_to_number (to_string v)
  | VObj _ | VCyclic => None
  end.

(** [a - b > c] on numbers that may be [NaN]: false as soon as one
    of them is. *)
Definition difference_exceeds (a : Z) (b c : option Z) : bool :=
  match b, c with
  | Some b, Some c => (c <? a - b)%Z
  | _, _ => false
  end.

(** The property read [v.key], for a key that no prototype defines
    ([timestamp], [value], [ttl]): a [TypeError] on [null] and
    [undefined], the own property of an object, [undefined]
    otherwise. *)
Definition get_property (v : jsval) (key : string) : completion jsval :=
  match v with
  | VUndefined | VNull => Throw TypeError
  | VObj fields =>
      match List.find (fun kv => String.eqb (fst kv) key) fields with
      | Some (_, value) => Normal value
      | None => Normal VUndefined
      end
  | _ => Normal VUndefined
  end.

(* ================================================================== *)
(** * LocalStorage management (utils.js, Section 3) *)
(* ================================================================== *)

(** The key-value store behind [localStorage]: strings under string
    keys.  It is unbounded; the quota of a browser is not modelled. *)
Abbreviation Storage := (gmap string string).

(** [localStorage.getItem(key)] followed by the test [if (!stored)]:
    [None] when the key is missing or holds the empty string. *)
Definition getItem (store : Storage) (key : string) : option string :=
  match store !! key with
  | Some text => if String.eqb text EmptyString then None else Some text
  | None => None
  end.

(** [EXPIRY_TIME]: 30 days in milliseconds. *)
Definition EXPIRY_TIME : Z := 30 * 24 * 60 * 60 * 1000.

(** The envelope [{ value, timestamp, version: '1.0' }]. *)
Definition storageData (dataToSave : jsval) (now : Z) : jsval :=
  VObj [("value", dataToSave); ("timestamp", VNum now); ("version", VStr "1.0")].

(** The text [localStorage.setItem] stores for an argument that may
    be [undefined]. *)
Definition item_text (text : option string) : string := default "undefined" text.

(** The first step of [saveToStorage]: what goes into the envelope.
    An object whose JSON text is longer than 5000 is replaced by the
    Base64 form of its percent-encoded text when compression is asked
    for. *)
Definition dataToSave (data useCompression : jsval) : completion jsval :=
  if truthy useCompression && typeof_object data then
    jsonStr ← JSON_stringify data;
    match jsonStr with
    | Some jsonStr =>
        if (5000 <? js_length jsonStr)%N then
          encoded ← btoa (encodeURIComponent jsonStr);
          Normal (VStr encoded)
        else Normal data
    | None => Throw TypeError
    end
  else Normal data.

(** [saveToStorage(key, data, useCompression)], called at time [now].
    The third argument is tested for truthiness. *)
Definition saveToStorage (now : Z) (store : Storage) (key : string) (data : jsval)
    (useCompression : jsval) : completion (bool * Storage) :=
  try_catch
    (toSave ← dataToSave data useCompression;
     text ← JSON_stringify (storageData toSave now);
     Normal (true, <[key := item_text text]> store))
    (fun _ => Normal (false, store)).

(** The test that takes a stored string for a compressed payload. *)
Definition looks_compressed (data : jsval) : option string :=
  match data with
  | VStr s =>
      if (100 <? js_length s)%N && base64_shape s then Some s else None
  | _ => None
  end.

(** The step 'detect and extract compressed data' of
    [loadFromStorage]; when decoding fails the data is kept as it
    is. *)
Definition extract (data : jsval) : completion jsval :=
  match looks_compressed data with
  | Some s =>
      try_catch
        (binary ← atob s;
         jsonStr ← decodeURIComponent binary;
         JSON_parse jsonStr)
        (fun _ => Normal data)
  | None => Normal data
  end.

(** [loadFromStorage(key)], called at time [now]: the loaded value
    ([null] when there is none) and the store, from which an expired
    item has been removed. *)
Definition loadFromStorage (now : Z) (store : Storage) (key : string)
  : completion (jsval * Storage) :=
  try_catch
    (match getItem store key with
     | None => Normal (VNull, store)
     | Some stored =>
         parsed ← JSON_parse stored;
         timestamp ← get_property parsed "timestamp";
         if difference_exceeds now (to_number timestamp) (Some EXPIRY_TIME) then
           Normal (VNull, delete key store)
         else
           data ← get_property parsed "value";
           data' ← extract data;
           Normal (data', store)
     end)
    (fun _ => Normal (VNull, store)).

(** ** The storage utilities of the [Utils] class *)

(** The default [ttl = null] of the parameter list. *)
Definition default_ttl (ttl : jsval) : jsval :=
  match ttl with
  | VUndefined => VNull
  | _ => ttl
  end.

(** The item [{ value, timestamp, ttl }]. *)
Definition storageItem (value : jsval) (now : Z) (ttl : jsval) : jsval :=
  VObj [("value", value); ("timestamp", VNum now); ("ttl", ttl)].

(** [Utils.setLocalStorage(key, value, ttl)]; an omitted [ttl] is
    [null].  There is no [try] around the body. *)
Definition setLocalStorage (now : Z) (store : Storage) (key : string) (value : jsval)
    (ttl : jsval) : completion (retval * Storage) :=
  let ttl := default_ttl ttl in
  text ← JSON_stringify (storageItem value now ttl);
  Normal (RUndefined, <[key := item_text text]> store).

(** [Utils.getLocalStorage(key)]. *)
Definition getLocalStorage (now : Z) (store : Storage) (key : string)
  : completion (jsval * Storage) :=
  match getItem store key with
  | None => Normal (VNull, store)
  | Some itemStr =>
      try_catch
        (item ← JSON_parse itemStr;
         ttl ← get_property item "ttl";
         expired ←
           (if truthy ttl then
              timestamp ← get_property item "timestamp";
              Normal (difference_exceeds now (to_number timestamp) (to_number ttl))
            else Normal false);
         if (expired : bool) then Normal (VNull, delete key store)
         else
           value ← get_property item "value";
           Normal (value, store))
        (fun _ => Normal (VNull, store))
  end.

(* ================================================================== *)
(** * Chat history manager (utils.js, Section 3) *)
(* ================================================================== *)

Definition CHAT_HISTORY : string := "arka_chat_history".

(** The entry [addEntry] builds; [id] is the value of
    [Date.now().toString(36) + Math.random().toString(36).substr(2)]. *)
Definition newEntry (now : Z) (id userInput aiResponse category : string) : jsval :=
  VObj [("id", VStr id); ("userInput", VStr userInput);
        ("aiResponse", VStr aiResponse); ("category", VStr category);
        ("timestamp", VNum now); ("tags", VArr [])].

(** [history.unshift(entry); if (history.length > 100) history.pop()]. *)
Definition unshift_capped (entry : jsval) (history : list jsval) : list jsval :=
  let history := entry :: history in
  if (100 <? length history)%nat then removelast history else history.

(** [chatHistoryManager.addEntry(userInput, aiResponse, category)],
    called at time [now]: the entry returned and the store.  A stored
    value that is truthy but no array has no [unshift], and the call
    throws. *)
Definition addEntry (now : Z) (id : string) (store : Storage)
    (userInput aiResponse category : string) : completion (jsval * Storage) :=
  loaded ← loadFromStorage now store CHAT_HISTORY;
  let '(stored, store1) := loaded in
  let history := if truthy stored then stored else VArr [] in
  match history with
  | VArr entries =>
      let entry := newEntry now id userInput aiResponse category in
      let history := unshift_capped entry entries in
      saved ← saveToStorage now store1 CHAT_HISTORY (VArr history) VUndefined;
      Normal (entry, snd saved)
  | _ => Throw TypeError
  end.

(* ================================================================== *)
(** * JSON values and their text *)
(* ================================================================== *)

(** A value that JSON represents as it is: no [undefined], no cycle,
    and no property name twice in one object. *)
Fixpoint is_json (v : jsval) : bool :=
  match v with
  | VUndefined | VCyclic => false
  | VNull | VBool _ | VNum _ | VStr _ => true
  | VArr items => forallb is_json items
  | VObj fields =>
      bool_decide (NoDup (map fst fields)) &&
      forallb (fun kv => is_json (snd kv)) fields
  end.

(** The text [JSON.stringify] writes for a JSON value. *)
Fixpoint json_text (v : jsval) : string :=
  match v with
  | VUndefined | VCyclic => EmptyString
  | VNull => "null"
  | VBool true => "true"
  | VBool false => "false"
  | VNum n => Z_to_string n
  | VStr s => JSON_quote s
  | VArr items => "[" ++ join_comma (map json_text items) ++ "]"
  | VObj fields =>
      "{" ++ join_comma
               (map (fun kv => JSON_quote (fst kv) ++ ":" ++ json_text (snd kv)) fields)
          ++ "}"
  end.

(** Fuel that is enough to read a value back. *)
Fixpoint weight (v : jsval) : nat :=
  match v with
  | VArr items => S (list_sum (map (fun item => S (weight item)) items))
  | VObj fields => S (list_sum (map (fun kv => S (weight (snd kv))) fields))
  | _ => 1
  end.

(** What may follow a value inside a JSON text. *)
Definition delimited (rest : string) : Prop :=
  match rest with
  | EmptyString => True
  | String c _ => c = ","%char \/ c = "]"%char \/ c = "}"%char
  end.

(** The text of a number does not run into what follows it. *)
Definition ends_number (rest : string) : Prop :=
  match rest with
  | EmptyString => True
  | String c _ =>
      is_digit c = false /\ c <> "."%char /\ c <> "e"%char /\ c <> "E"%char
  end.

(** The first character of the text of a value starts a value. *)
Definition starts_value (c : ascii) : Prop :=
  is_whitespace c = false /\ c <> "]"%char /\ c <> "}"%char.

(* ================================================================== *)
(** * Contracts of the specification, as it words them *)
(* ================================================================== *)

(** Storing with a third argument 0 and reading the key after any
    positive time gives nothing back. *)
Definition ttl_zero_contract {R : Type}
    (set : Z -> Storage -> string -> jsval -> jsval -> completion (R * Storage))
    (get : Z -> Storage -> string -> completion (jsval * Storage)) : Prop :=
  forall now store key value elapsed r store1,
    (0 < elapsed)%Z ->
    set now store key value (VNum 0) = Normal (r, store1) ->
    exists store2, get (now + elapsed)%Z store1 key = Normal (VNull, store2).

(** The Base64 form of the percent-encoded text of a value. *)
Definition compressed (data : jsval) : jsval :=
  VStr (base64_encode
          (map N_of_ascii (list_ascii_of_string (encodeURIComponent (json_text data))))).

(** Whether [saveToStorage] compresses a JSON value. *)
Definition compresses (data useCompression : jsval) : bool :=
  truthy useCompression && typeof_object data && (5000 <? js_length (json_text data))%N.

(** Every byte below 128. *)
Definition is_ascii_text (s : string) : bool :=
  forallb (fun c => (N_of_ascii c <? 128)%N) (list_ascii_of_string s).

(** Well-formed UTF-8: a string of complete, valid sequences. *)
Fixpoint utf8_valid (s : string) : bool :=
  match s with
  | EmptyString => true
  | String c0 r0 =>
      let b0 := N_of_ascii c0 in
      match sequence_length b0 with
      | 1 => utf8_valid r0
      | 2 =>
          match r0 with
          | String c1 r1 => valid_sequence [b0; N_of_ascii c1] && utf8_valid r1
          | _ => false
          end
      | 3 =>
          match r0 with
          | String c1 (String c2 r2) =>
              valid_sequence [b0; N_of_ascii c1; N_of_ascii c2] && utf8_valid r2
          | _ => false
          end
      | 4 =>
          match r0 with
          | String c1 (String c2 (String c3 r3)) =>
              valid_sequence [b0; N_of_ascii c1; N_of_ascii c2; N_of_ascii c3]
              && utf8_valid r3
          | _ => false
          end
      | _ => false
      end
  end.

(** ** Sequences of [addEntry] calls *)

(** One call: the clock, the id drawn, and the three arguments. *)
Record Call := {
  call_now : Z;
  call_id : string;
  call_userInput : string;
  call_aiResponse : string;
  call_category : string
}.

Definition call_entry (c : Call) : jsval :=
  newEntry (call_now c) (call_id c) (call_userInput c) (call_aiResponse c)
    (call_category c).

Definition call_addEntry (c : Call) (store : Storage) : completion (jsval * Storage) :=
  addEntry (call_now c) (call_id c) store (call_userInput c) (call_aiResponse c)
    (call_category c).

(** The calls one after the other, each on the store the one before
    left. *)
Fixpoint addEntries (calls : list Call) (store : Storage) : completion Storage :=
  match calls with
  | [] => Normal store
  | c :: calls' =>
      r ← call_addEntry c store;
      addEntries calls' (snd r)
  end.

(** [loadFromStorage(CHAT_HISTORY) || []] at time [now]: the log as
    the manager reads it. *)
Definition chat_history (now : Z) (store : Storage) : list jsval :=
  match loadFromStorage now store CHAT_HISTORY with
  | Normal (VArr entries, _) => entries
  | _ => []
  end.

(** The store holds no chat history, or one that [saveToStorage]
    wrote, of at most 100 JSON entries. *)
Definition history_ok (store : Storage) : Prop :=
  store !! CHAT_HISTORY = None \/
  exists t entries,
    store !! CHAT_HISTORY = Some (json_text (storageData (VArr entries) t)) /\
    (length entries <= 100)%nat /\
    forallb is_json entries = true.

(** A character that Base64 text is made of: in the class
    [[A-Za-z0-9+/=]], hence no white space and below 128. *)
Definition base64_text_char (c : ascii) : bool :=
  (char_between "A" "Z" c || char_between "a" "z" c || char_between "0" "9" c ||
   Ascii.eqb c "+" || Ascii.eqb c "/" || Ascii.eqb c "=") &&
  negb (is_whitespace c || Ascii.eqb c "012") &&
  (N_of_ascii c <? 128)%N.

(** The object of the round-trip example, [{a: 1, b: [1, 2, 3]}], and
    one whose JSON text is longer than 5000. *)
Definition small_example : jsval :=
  VObj [("a", VNum 1); ("b", VArr [VNum 1; VNum 2; VNum 3])].

Definition large_example : jsval :=
  VObj [("a", VNum 1); ("b", VArr (repeat (VNum 7) 2600))].

(* ================================================================== *)
(** * System monitoring (main.js, Section 3) *)
(* ================================================================== *)

(** [Math.floor(q)], as a number. *)
Definition Math_floor (q : Q) : Q := inject_Z (Qfloor q).

Section Monitoring.

(** The successive results of [Math.random()] during one call. *)
Variable Math_random : nat -> Q.

Local Open Scope Q_scope.

(** [updateSystemStatus()], called at time [now].  The object literal
    draws fourteen random numbers, in the order of its properties.
    The readings are computed exactly here; the program rounds them,
    by which a reading can move onto the end of its range and not
    beyond. *)
Definition updateSystemStatus (now : Z) (st : AppState) : AppState := {|
  systemStatus := {|
    cpu := {| cpu_usage := Qmin 100 (Qmax 10 (Math_random 0%nat * 80 + 10));
              cpu_temperature := 40 + Math_random 1%nat * 20;
              cpu_cores := 8;
              cpu_frequency := (25 # 10) + Math_random 2%nat * (17 # 10) |};
    ram := {| ram_usage := Qmin 100 (Qmax 20 (Math_random 3%nat * 60 + 20));
              ram_total := 16;
              ram_used := Math_floor (Math_random 4%nat * 10 + 6);
              ram_free := 16 - Math_floor (Math_random 5%nat * 10 + 6);
              ram_cache := 1 + Math_random 6%nat * 3 |};
    disk := {| disk_usage := Qmin 100 (Qmax 15 (Math_random 7%nat * 50 + 15));
               disk_total := 512;
               disk_used := 128 + Math_random 8%nat * 100;
               disk_free := 384 - Math_random 9%nat * 100 |};
    network := {| net_up := Math_floor (Math_random 10%nat * 50);
                  net_down := Math_floor (Math_random 11%nat * 100);
                  net_connections := Qfloor (Math_random 12%nat * 20);
                  net_ping := 20 + Math_random 13%nat * 50 |};
    lastUpdate := Some now |};
  userSettings := userSettings st;
  profiles := profiles st |}.

(** The data of one chart: [chart.data.labels] and
    [chart.data.datasets[0].data], either of which may be missing. *)
Record ChartData := {
  chart_labels : option (list string);
  chart_values : option (list Q)
}.

(** The body of the [forEach] of [updateCharts] past the guard
    [if (!chart) return]: both arrays are created when missing, the
    point is pushed, and the oldest point is shifted out when more
    than 60 labels are held. *)
Definition push_point (label : string) (newValue : Q) (chart : ChartData) : ChartData :=
  let labels := (default [] (chart_labels chart) ++ [label])%list in
  let values := (default [] (chart_values chart) ++ [newValue])%list in
  if (60 <? length labels)%nat then
    {| chart_labels := Some (tail labels); chart_values := Some (tail values) |}
  else
    {| chart_labels := Some labels; chart_values := Some values |}.

(** [AppState.systemStatus[chartKey]?.usage || (Math.random() * 60 + 20)]:
    the reading of the status entry, [None] for an entry without
    [usage]; a random number is drawn only when the reading is
    missing or zero.  [draw] counts the random numbers consumed. *)
Definition new_value (usage : option Q) (draw : nat) : Q * nat :=
  match usage with
  | Some u => if Qeq_bool u 0 then (Math_random draw * 60 + 20, S draw) else (u, draw)
  | None => (Math_random draw * 60 + 20, S draw)
  end.

Definition update_chart (usage : option Q) (label : string)
    (chart : option ChartData) (draw : nat) : option ChartData * nat :=
  match chart with
  | None => (None, draw)
  | Some c =>
      let '(newValue, draw') := new_value usage draw in
      (Some (push_point label newValue c), draw')
  end.

(** [AppState.charts]: a chart or [null] under each of the four keys. *)
Record Charts := {
  charts_cpu : option ChartData;
  charts_ram : option ChartData;
  charts_disk : option ChartData;
  charts_network : option ChartData
}.

(** [updateCharts()]; [label] is the time string of [now].  The keys
    are visited in the order cpu, ram, disk, network; the network
    entry of the status has no [usage]. *)
Definition updateCharts (status : SystemStatus) (label : string) (charts : Charts)
  : Charts :=
  let '(c, d) := update_chart (Some (cpu_usage (cpu status))) label (charts_cpu charts) 0 in
  let '(r, d) := update_chart (Some (ram_usage (ram status))) label (charts_ram charts) d in
  let '(k, d) := update_chart (Some (disk_usage (disk status))) label (charts_disk charts) d in
  let '(n, _) := update_chart None label (charts_network charts) d in
  {| charts_cpu := c; charts_ram := r; charts_disk := k; charts_network := n |}.

End Monitoring.

(** ** Health check (main.js, Section 9) *)

(** The score computed in [runSystemHealthCheck]. *)
Definition healthScore (status : SystemStatus) : Z :=
  let healthScore := 100%Z in
  let healthScore :=
    if Qgtb (cpu_usage (cpu status)) 80 then (healthScore - 20)%Z else healthScore in
  let healthScore :=
    if Qgtb (ram_usage (ram status)) 85 then (healthScore - 20)%Z else healthScore in
  let healthScore :=
    if Qgtb (disk_usage (disk status)) 90 then (healthScore - 15)%Z else healthScore in
  let healthScore :=
    if Qgtb (cpu_temperature (cpu status)) 70 then (healthScore - 10)%Z else healthScore in
  healthScore.

(** The class name chosen for a score. *)
Definition healthClass (healthScore : Z) : string :=
  if (80 <? healthScore)%Z then "excellent"
  else if (60 <? healthScore)%Z then "good"
  else if (40 <? healthScore)%Z then "fair"
  else "poor".

(** What [runSystemHealthCheck] writes into the health element: its
    text and its class name. *)
Definition runSystemHealthCheck (st : AppState) : string * string :=
  let status := systemStatus st in
  let healthScore := healthScore status in
  ("Health Score: " ++ Z_to_string healthScore ++ "/100",
   "health-status " ++ healthClass healthScore).

(** ** What a monitoring tick does to one chart *)

Definition labels_of (chart : ChartData) : list string := default [] (chart_labels chart).

Definition values_of (chart : ChartData) : list Q := default [] (chart_values chart).

(** The last [n] elements of a list. *)
Definition last_n {A} (n : nat) (l : list A) : list A := drop (length l - n) l.

(** As many values as labels, and at most 60 of them. *)
Definition chart_ok (chart : option ChartData) : Prop :=
  match chart with
  | None => True
  | Some c =>
      length (labels_of c) = length (values_of c) /\ (length (labels_of c) <= 60)%nat
  end.

(** [after] is [before] with one point added under [label] and cut to
    the last 60 points; the value added is the reading [usage] when
    there is one and it is not zero. *)
Definition chart_advanced (label : string) (usage : option Q)
    (before after : option ChartData) : Prop :=
  match before, after with
  | None, None => True
  | Some c, Some c' =>
      labels_of c' = last_n 60 (labels_of c ++ [label]) /\
      exists v, values_of c' = last_n 60 (values_of c ++ [v]) /\
                forall u, usage = Some u -> ~ (u == 0)%Q -> v = u
  | _, _ => False
  end.

(* ================================================================== *)
(** * Logs kept in the storage *)
(* ================================================================== *)

(** [list.push(entry); if (list.length > cap) list.shift()]. *)
Definition push_capped (cap : nat) (entry : jsval) (items : list jsval) : list jsval :=
  let items := (items ++ [entry])%list in
  if (cap <? length items)%nat then tail items else items.

(** [Array.prototype.filter] with a callback that may throw. *)
Fixpoint filter_entries (keep : jsval -> completion bool) (entries : list jsval)
  : completion (list jsval) :=
  match entries with
  | [] => Normal []
  | entry :: rest =>
      b ← keep entry;
      kept ← filter_entries keep rest;
      Normal (if (b : bool) then entry :: kept else kept)
  end.

(** [v === s] for a string [s]. *)
Definition strict_equals_string (v : jsval) (s : string) : bool :=
  match v with
  | VStr t => String.eqb t s
  | _ => false
  end.

(** ** The rest of the chat history manager (utils.js, Section 3) *)

(** [chatHistoryManager.getByCategory(category)], called at time
    [now].  A stored value that is truthy but no array has no
    [filter], and reading [category] off a [null] entry throws. *)
Definition getByCategory (now : Z) (store : Storage) (category : string)
  : completion (list jsval * Storage) :=
  loaded ← loadFromStorage now store CHAT_HISTORY;
  let '(stored, store1) := loaded in
  let history := if truthy stored then stored else VArr [] in
  match history with
  | VArr entries =>
      kept ← filter_entries
                (fun entry =>
                   c ← get_property entry "category";
                   Normal (strict_equals_string c category))
                entries;
      Normal (kept, store1)
  | _ => Throw TypeError
  end.

(** [chatHistoryManager.clearHistory()]. *)
Definition clearHistory (store : Storage) : retval * Storage :=
  (RUndefined, delete CHAT_HISTORY store).

(** Whether an entry of the log is filed under [category]. *)
Definition has_category (category : string) (entry : jsval) : bool :=
  match get_property entry "category" with
  | Normal c => strict_equals_string c category
  | Throw _ => false
  end.

(** ** Analytics (utils.js, Section 5) *)

Definition ANALYTICS : string := "arka_analytics".

(** The record [{ event, data, time }]. *)
Definition analyticsEvent (eventName : string) (eventData : jsval) (now : Z) : jsval :=
  VObj [("event", VStr eventName); ("data", eventData); ("time", VNum now)].

(** [trackEvent(eventName, eventData)], called at time [now]; an
    omitted [eventData] is [{}].  The console output aside, the event
    is pushed on the stored list, which is cut to its last 500
    records and saved.  There is no [try]: a stored value that is
    truthy but no array has no [push], and the call throws. *)
Definition trackEvent (now : Z) (store : Storage) (eventName : string)
    (eventData : jsval) : completion (retval * Storage) :=
  let eventData := match eventData with VUndefined => VObj [] | _ => eventData end in
  loaded ← loadFromStorage now store ANALYTICS;
  let '(stored, store1) := loaded in
  let analytics := if truthy stored then stored else VArr [] in
  match analytics with
  | VArr events =>
      let events := push_capped 500 (analyticsEvent eventName eventData now) events in
      saved ← saveToStorage now store1 ANALYTICS (VArr events) VUndefined;
      Normal (RUndefined, snd saved)
  | _ => Throw TypeError
  end.

(** [loadFromStorage(key) || []] at time [now], for a key that holds
    a list. *)
Definition stored_list (now : Z) (store : Storage) (key : string) : list jsval :=
  match loadFromStorage now store key with
  | Normal (VArr entries, _) => entries
  | _ => []
  end.

(** The store holds nothing under [key], or a list that
    [saveToStorage] wrote, of at most [cap] JSON values. *)
Definition list_ok (cap : nat) (store : Storage) (key : string) : Prop :=
  store !! key = None \/
  exists t entries,
    store !! key = Some (json_text (storageData (VArr entries) t)) /\
    (length entries <= cap)%nat /\
    forallb is_json entries = true.

(** ** Logging of the [Utils] class *)







(* ================================================================== *)
(** * Code units and 32-bit integers *)
(* ================================================================== *)

(** The low six bits of the [k]-th byte of [s], 0 when there is none. *)
Definition continuation (s : string) (k : nat) : N :=
  match String.get k s with
  | Some c => (N_of_ascii c mod 64)%N
  | None => 0%N
  end.

(** The UTF-16 code units of the string whose UTF-8 bytes are [s]:
    what [charCodeAt] reads and what a regular expression without the
    [u] flag steps over.  A lead byte yields the unit, or the two
    surrogates, of its sequence; a continuation byte yields nothing
    more. *)
Fixpoint code_units (s : string) : list N :=
  match s with
  | EmptyString => []
  | String c s' =>
      let b := N_of_ascii c in
      if (b <? 128)%N then b :: code_units s'
      else if (b <? 192)%N then code_units s'
      else if (b <? 224)%N then
        (b mod 32 * 64 + continuation s' 0)%N :: code_units s'
      else if (b <? 240)%N then
        (b mod 16 * 4096 + continuation s' 0 * 64 + continuation s' 1)%N
        :: code_units s'
      else
        let cp := (b mod 8 * 262144 + continuation s' 0 * 4096
                   + continuation s' 1 * 64 + continuation s' 2)%N in
        (55296 + (cp - 65536) / 1024)%N :: (56320 + (cp - 65536) mod 1024)%N
        :: code_units s'
  end.

(** [ToInt32]: an integer wrapped into the signed 32-bit range, from
    -2^31 to 2^31 - 1, modulo 2^32. *)
Definition ToInt32 (z : Z) : Z := ((z + 2147483648) mod 4294967296 - 2147483648)%Z.

(** [a << k], [a & b] and [a | b] on integers. *)
Definition shift_left (a k : Z) : Z := ToInt32 (Z.shiftl (ToInt32 a) (k mod 32)).

Definition bit_and (a b : Z) : Z := Z.land (ToInt32 a) (ToInt32 b).

Definition bit_or (a b : Z) : Z := Z.lor (ToInt32 a) (ToInt32 b).

(** The integer part of a number, as the bit operators take it. *)
Definition truncate (q : Q) : Z := if Qltb q 0 then Qceiling q else Qfloor q.

(** The digits of [n] in base 16, most significant first, put in
    front of [acc]; [fuel] bounds the number of digits after the
    first. *)
Fixpoint hex_digits (fuel : nat) (n : N) (acc : string) : string :=
  let acc := String (hex_digit_lower (n mod 16)) acc in
  match fuel with
  | O => acc
  | S fuel' => if (n <? 16)%N then acc else hex_digits fuel' (n / 16) acc
  end.

(** [z.toString(16)] for an integer. *)
Definition toString16 (z : Z) : string :=
  let n := Z.abs_N z in
  (if (z <? 0)%Z then "-" else "") ++ hex_digits (N.to_nat (N.log2 n)) n EmptyString.

(* ================================================================== *)
(** * Identifiers and hashes (utils.js, Section 4; [Utils]) *)
(* ================================================================== *)

(** One round of the loop of [hashString]:
    [hash = ((hash << 5) - hash) + char; hash = hash & hash]. *)
Definition hash_step (hash : Z) (char : N) : Z :=
  let hash := (shift_left hash 5 - hash + Z.of_N char)%Z in
  bit_and hash hash.

(** [hashString(str)]. *)
Definition hashString (str : string) : string :=
  Z_to_string (fold_left hash_step (code_units str) 0%Z).

(** The polynomial the loop evaluates: each round multiplies by 31
    and adds the code unit. *)
Definition polynomial_hash (units : list N) : Z :=
  fold_left (fun h c => (31 * h + Z.of_N c)%Z) units 0%Z.

Section UUID.

(** The successive results of [Math.random()]. *)
Variable Math_random : nat -> Q.

(** The callback of the [replace]: the digit put in the place of the
    letter [c], from the random number [random]. *)
Definition uuid_digit (c : ascii) (random : Q) : string :=
  let r := bit_or (truncate (random * 16)) 0 in
  let v := if Ascii.eqb c "x" then r else bit_or (bit_and r 3) 8 in
  toString16 v.

(** [template.replace(/[xy]/g, callback)]: the callback is called on
    every [x] and [y], from left to right; [draw] counts the random
    numbers consumed. *)
Fixpoint replace_xy (template : string) (draw : nat) : string :=
  match template with
  | EmptyString => EmptyString
  | String c rest =>
      if Ascii.eqb c "x" || Ascii.eqb c "y" then
        uuid_digit c (Math_random draw) ++ replace_xy rest (S draw)
      else String c (replace_xy rest draw)
  end.

(** [generateUUID()]. *)
Definition generateUUID : string :=
  replace_xy "xxxxxxxx-xxxx-4xxx-yxxx-xxxxxxxxxxxx" 0.

End UUID.

(** The layout of a version-4 UUID: 36 characters, hyphens at
    positions 8, 13, 18 and 23, the digit 4 at position 14, one of 8,
    9, a, b at position 19, and lower-case hexadecimal digits
    elsewhere. *)
Definition is_hex_lower (c : ascii) : bool :=
  char_between "0" "9" c || char_between "a" "f" c.

Definition uuid_char_ok (i : nat) (c : ascii) : bool :=
  if (i =? 8)%nat || (i =? 13)%nat || (i =? 18)%nat || (i =? 23)%nat then
    Ascii.eqb c "-"
  else if (i =? 14)%nat then Ascii.eqb c "4"
  else if (i =? 19)%nat then
    Ascii.eqb c "8" || Ascii.eqb c "9" || Ascii.eqb c "a" || Ascii.eqb c "b"
  else is_hex_lower c.

Definition is_uuid_v4 (s : string) : bool :=
  (String.length s =? 36)%nat &&
  forallb (fun ic => uuid_char_ok (fst ic) (snd ic))
    (imap (fun i c => (i, c)) (list_ascii_of_string s)).

(** What the replacement puts in the place of a template character. *)
Definition replaces (t c : ascii) : Prop :=
  if Ascii.eqb t "x" then is_hex_lower c = true
  else if Ascii.eqb t "y" then
    (Ascii.eqb c "8" || Ascii.eqb c "9" || Ascii.eqb c "a" || Ascii.eqb c "b") = true
  else c = t.

(* ================================================================== *)
(** * Array and math utilities of the [Utils] class *)
(* ================================================================== *)

(** [a[i]]: [undefined] beyond the end. *)
Definition array_get (a : list jsval) (i : nat) : jsval := default VUndefined (a !! i).

(** [a[i] = v]: beyond the end the array grows, the gap reading as
    [undefined]. *)
Definition array_set (a : list jsval) (i : nat) (v : jsval) : list jsval :=
  if (i <? length a)%nat then <[i := v]> a
  else (a ++ replicate (i - length a) VUndefined ++ [v])%list.

(** [[a[i], a[j]] = [a[j], a[i]]]: both reads come first. *)
Definition swap (a : list jsval) (i j : nat) : list jsval :=
  let aj := array_get a j in
  let ai := array_get a i in
  array_set (array_set a i aj) j ai.

Section Shuffle.

(** The successive results of [Math.random()], each in [0, 1). *)
Variable Math_random : nat -> Q.

(** The loop [for (let i = length - 1; i > 0; i--)] of [shuffleArray]
    with the loop variable at [i]; [draw] counts the random numbers
    consumed. *)
Fixpoint shuffle_loop (i draw : nat) (newArray : list jsval) : list jsval :=
  match i with
  | O => newArray
  | S i' =>
      let j := Z.to_nat (Qfloor (Math_random draw * inject_Z (Z.of_nat i + 1))) in
      shuffle_loop i' (S draw) (swap newArray i j)
  end.

(** [Utils.shuffleArray(array)]: the copy [[...array]] is shuffled,
    the argument is left as it is. *)
Definition shuffleArray (array : list jsval) : list jsval :=
  shuffle_loop (length array - 1) 0 array.

End Shuffle.

(** [Utils.clamp(value, min, max)]. *)
Definition clamp (value min max : Q) : Q := Qmin (Qmax value min) max.

(** [Utils.randomInt(min, max)] on integers, with the random number
    [random].  The program computes in floating point: the model
    stands for it on safe integers, those up to 2^53 - 1 in absolute
    value. *)
Definition randomInt (random : Q) (min max : Z) : Z :=
  (Qfloor (random * inject_Z (max - min + 1)) + min)%Z.

(* ================================================================== *)
(** * Relative time (utils.js, Section 9; [Utils]) *)
(* ================================================================== *)

Section RelativeTime.

(** [formatPersianDate] and [Utils.formatDate]: the text the
    internationalisation library gives for a date. *)
Variable formatPersianDate : Z -> string.
Variable formatDate : Z -> string.

(** [getRelativeTime(date)], called at time [now]; [date] is the
    time value of the [Date] object. *)
Definition getRelativeTime (now date : Z) : string :=
  let diff := (now - date)%Z in
  let minutes := (diff / 60000)%Z in
  let hours := (diff / 3600000)%Z in
  let days := (diff / 86400000)%Z in
  if (minutes <? 1)%Z then "همین الان"
  else if (minutes <? 60)%Z then Z_to_string minutes ++ " دقیقه پیش"
  else if (hours <? 24)%Z then Z_to_string hours ++ " ساعت پیش"
  else if (days <? 7)%Z then Z_to_string days ++ " روز پیش"
  else formatPersianDate date.

(** [Utils.formatTimeAgo(date)], called at time [now]; [date] is the
    time value of [new Date(date)]. *)
Definition formatTimeAgo (now date : Z) : string :=
  let diff := (now - date)%Z in
  let seconds := (diff / 1000)%Z in
  if (seconds <? 60)%Z then "چند ثانیه پیش"
  else if (seconds <? 3600)%Z then Z_to_string (seconds / 60) ++ " دقیقه پیش"
  else if (seconds <? 86400)%Z then Z_to_string (seconds / 3600) ++ " ساعت پیش"
  else if (seconds <? 2592000)%Z then Z_to_string (seconds / 86400) ++ " روز پیش"
  else formatDate date.

End RelativeTime.

(** The wording of a relative time: [count] and a unit, or one of the
    two fixed phrases, or a formatted date. *)
Inductive time_phrase : Type :=
  | JustNow
  | FewSeconds
  | MinutesAgo (count : Z)
  | HoursAgo (count : Z)
  | DaysAgo (count : Z)
  | OnDate (date : Z).

Definition phrase_text (format : Z -> string) (p : time_phrase) : string :=
  match p with
  | JustNow => "همین الان"
  | FewSeconds => "چند ثانیه پیش"
  | MinutesAgo count => Z_to_string count ++ " دقیقه پیش"
  | HoursAgo count => Z_to_string count ++ " ساعت پیش"
  | DaysAgo count => Z_to_string count ++ " روز پیش"
  | OnDate date => format date
  end.

(* ================================================================== *)
(** * The local AI engine: answers ([AILocalEngine]) *)
(* ================================================================== *)

(** [s] between double quotes. *)
Definition quoted (s : string) : string := String dquote (s ++ String dquote EmptyString).

(** The four response templates of the constructor. *)
Definition system_optimization_template : string :=
  "# 🔧 بهینه‌سازی سیستم

**درخواست شما:** "
  ++ quoted "{query}"
  ++ "

**راه‌حل‌های پیشنهادی:**

## 1. پاک‌سازی فایل‌های موقت
```cmd
cleanmgr /sagerun:1
```
*این دستور Disk Cleanup ویندوز را اجرا می‌کند.*

## 2. بهینه‌سازی Startup
```powershell
Get-CimInstance Win32_StartupCommand | Select-Object Name, Command, Location
```
*برای مشاهده برنامه‌های Startup*

## 3. آزادسازی حافظه
```cmd
%windir%\system32\rundll32.exe advapi32.dll,ProcessIdleTasks
```
*اجرای تسک‌های پس‌زمینه*

**نکات امنیتی:**
- قبل از اجرای دستورات، از داده‌های مهم بکاپ بگیرید
- دستورات را در محیط تست امتحان کنید
".

Definition file_management_template : string :=
  "# 📁 مدیریت فایل‌ها

**درخواست شما:** "
  ++ quoted "{query}"
  ++ "

**راه‌حل‌های پیشنهادی:**

## 1. مشاهده فایل‌های حجیم
```powershell
Get-ChildItem -Path C:\ -Recurse -File | Sort-Object Length -Descending | Select-Object -First 10 FullName, Length
```

## 2. پاک‌سازی فایل‌های موقت
```cmd
del /q /s %temp%\*.*
```

**هشدار امنیتی:** ⚠️ دستور حذف فایل دائمی است. قبل از اجرا مطمئن شوید.
".

Definition network_template : string :=
  "# 🌐 مدیریت شبکه

**درخواست شما:** "
  ++ quoted "{query}"
  ++ "

**راه‌حل‌های پیشنهادی:**

## 1. تست اتصال
```cmd
ping 8.8.8.8 -t
```
*برای خروج Ctrl+C را بزنید*

## 2. نمایش تنظیمات شبکه
```cmd
ipconfig /all
```
".

Definition general_template : string :=
  "# 🤖 آرکا - دستیار هوشمند

**سلام!** من آرکا هستم، دستیار هوشمند مدیریت سیستم ویندوز.

درخواست شما: "
  ++ quoted "{query}"
  ++ "

برای کمک به شما، لطفاً یکی از موارد زیر را انجام دهید:

## 🎯 گزینه‌های موجود:

1. **درخواست را دقیق‌تر کنید**
   - مثلاً: "
  ++ quoted "چگونه فایل‌های موقت را پاک کنم؟"
  ++ "
   - یا: "
  ++ quoted "سرعت اینترنت را چطور تست کنم؟"
  ++ "

2. **از دستورات از پیش تعریف شده استفاده کنید**
   - به بخش "
  ++ quoted "دستورات"
  ++ " مراجعه کنید
   - محیط CMD، PowerShell یا Run را انتخاب کنید

3. **سیستم خود را بررسی کنید**
   - از بخش "
  ++ quoted "مانیتور"
  ++ " وضعیت سیستم را ببینید
   - مشکلات احتمالی را شناسایی کنید
".

Definition templates : gmap string string :=
  <["system_optimization" := system_optimization_template]>
  (<["file_management" := file_management_template]>
  (<["network" := network_template]>
  (<["general" := general_template]> ∅))).

(** [GetSubstitution] for a pattern that is a string, so that there
    are no captures: in the replacement text [$$] stands for a dollar
    sign, [$&] for the matched text, [$`] for what precedes it and
    [$'] for what follows it; any other character, a dollar sign
    before a digit or [<] included, stands for itself. *)
Fixpoint GetSubstitution (matched before after replacement : string) : string :=
  match replacement with
  | EmptyString => EmptyString
  | String "$" (String "$" r) => String "$" (GetSubstitution matched before after r)
  | String "$" (String "&" r) => matched ++ GetSubstitution matched before after r
  | String "$" (String "`" r) => before ++ GetSubstitution matched before after r
  | String "$" (String "'" r) => after ++ GetSubstitution matched before after r
  | String c r => String c (GetSubstitution matched before after r)
  end.

(** What precedes and what follows the first occurrence of [pattern]
    in [s]. *)
Fixpoint split_at (pattern s : string) : option (string * string) :=
  match strip_prefix pattern s with
  | Some rest => Some (EmptyString, rest)
  | None =>
      match s with
      | EmptyString => None
      | String c s' =>
          match split_at pattern s' with
          | Some (before, after) => Some (String c before, after)
          | None => None
          end
      end
  end.

(** [s.replace(pattern, replacement)] for strings: the first
    occurrence of [pattern] is replaced. *)
Definition String_replace (s pattern replacement : string) : string :=
  match split_at pattern s with
  | Some (before, after) =>
      before ++ GetSubstitution pattern before after replacement ++ after
  | None => s
  end.

(** [AILocalEngine.processQuery(query)].  A template missing or empty
    gives way to the general one; a member inherited from
    [Object.prototype] is a function and has no [replace]. *)
Definition processQuery (query : string) : completion string :=
  let intent := detectIntent query in
  template ←
    match js_get templates intent with
    | Own template =>
        Normal (if String.eqb template EmptyString then general_template else template)
    | Absent => Normal general_template
    | Inherited => Throw TypeError
    end;
  Normal (String_replace template "{query}" query).

(* ================================================================== *)
(** * System profiler ([SystemProfiler]) *)
(* ================================================================== *)

(** [this.permissions]. *)
Record Permissions := {
  perm_basicInfo : bool;
  perm_performance : bool;
  perm_display : bool;
  perm_network : bool;
  perm_location : bool
}.

(** [this.data]: the reports collected so far, [basic] and
    [performance]. *)
Record ProfilerData := {
  data_basic : option jsval;
  data_performance : option jsval
}.

Record SystemProfiler := {
  profiler_permissions : Permissions;
  profiler_data : ProfilerData
}.

(** The state the constructor sets up. *)
Definition new_SystemProfiler : SystemProfiler := {|
  profiler_permissions := {|
    perm_basicInfo := false; perm_performance := false; perm_display := false;
    perm_network := false; perm_location := false |};
  profiler_data := {| data_basic := None; data_performance := None |} |}.

(** The [switch (level)] of [requestPermission]. *)
Definition grant (level : string) (p : Permissions) : Permissions :=
  let set basicInfo performance := {|
    perm_basicInfo := basicInfo; perm_performance := performance;
    perm_display := perm_display p; perm_network := perm_network p;
    perm_location := perm_location p |} in
  if String.eqb level "basic" then set true false
  else if String.eqb level "full" then set true true
  else if String.eqb level "none" then set false false
  else p.

(** The permissions as the object [JSON.stringify] is given. *)
Definition permissions_object (p : Permissions) : jsval :=
  VObj [("basicInfo", VBool (perm_basicInfo p));
        ("performance", VBool (perm_performance p));
        ("display", VBool (perm_display p));
        ("network", VBool (perm_network p));
        ("location", VBool (perm_location p))].

Definition SYSTEM_PERMISSIONS : string := "system-permissions".

(** [requestPermission] is an [async] method: a call runs up to its
    first [await], and goes on from one [await] to the next at later
    moments, between which other calls can begin or go on.  The
    places at which a call can be waiting: in [requestPermission] for
    [collectBasicInfo]; inside [collectPerformanceInfo] for
    [getCPUInfo], [getMemoryInfo] and [getNetworkInfo], whose results
    exist from the moment each was called; and in [requestPermission]
    for [collectPerformanceInfo]. *)
Inductive waiting : Type :=
  | AwaitBasic
  | AwaitCPU (cpu : jsval)
  | AwaitMemory (cpu memory : jsval)
  | AwaitNetwork (cpu memory network : jsval)
  | AwaitPerformance.

(** The profiler, the store and the calls that have not ended. *)
Record Profiling := {
  profiling_profiler : SystemProfiler;
  profiling_store : Storage;
  profiling_calls : list waiting
}.

Definition new_Profiling (store : Storage) : Profiling := {|
  profiling_profiler := new_SystemProfiler;
  profiling_store := store;
  profiling_calls := [] |}.

(** The end of [requestPermission]: the permissions as they are at
    this moment are written to the store (and the promise of the call
    is resolved with [true]). *)
Definition store_permissions (profiler : SystemProfiler) (store : Storage)
    (calls : list waiting) : completion Profiling :=
  text ← JSON_stringify (permissions_object (profiler_permissions profiler));
  Normal {| profiling_profiler := profiler;
            profiling_store := <[SYSTEM_PERMISSIONS := item_text text]> store;
            profiling_calls := calls |}.

(** The call [requestPermission(level)] up to its first [await].
    [basic] is the report [collectBasicInfo] builds from the browser
    and [cpu] what [getCPUInfo] returns at this moment.  The
    [switch] sets the permissions; under the basic permission the
    basic report is stored and the call waits; without it the
    performance permission is tested at once. *)
Definition requestPermission (level : string) (basic cpu : jsval) (w : Profiling)
  : completion Profiling :=
  let profiler := profiling_profiler w in
  let permissions := grant level (profiler_permissions profiler) in
  if perm_basicInfo permissions then
    Normal {| profiling_profiler :=
                {| profiler_permissions := permissions;
                   profiler_data :=
                     {| data_basic := Some basic;
                        data_performance := data_performance (profiler_data profiler) |} |};
              profiling_store := profiling_store w;
              profiling_calls := (profiling_calls w ++ [AwaitBasic])%list |}
  else if perm_performance permissions then
    Normal {| profiling_profiler :=
                {| profiler_permissions := permissions;
                   profiler_data := profiler_data profiler |};
              profiling_store := profiling_store w;
              profiling_calls := (profiling_calls w ++ [AwaitCPU cpu])%list |}
  else
    store_permissions
      {| profiler_permissions := permissions; profiler_data := profiler_data profiler |}
      (profiling_store w) (profiling_calls w).

(** The waiting call number [i] goes on to its next [await] or to
    its end; [result] is what the browser function called on the way
    returns ([getCPUInfo], [getMemoryInfo] or [getNetworkInfo]).
    After [collectBasicInfo] the performance permission is read as it
    is now; the performance report is stored when its three parts
    have arrived.  An [i] that names no waiting call changes
    nothing. *)
Definition resume (i : nat) (result : jsval) (w : Profiling) : completion Profiling :=
  let profiler := profiling_profiler w in
  let wait (s : waiting) := Normal {|
    profiling_profiler := profiler;
    profiling_store := profiling_store w;
    profiling_calls := <[i := s]> (profiling_calls w) |} in
  match profiling_calls w !! i with
  | None => Normal w
  | Some AwaitBasic =>
      if perm_performance (profiler_permissions profiler) then wait (AwaitCPU result)
      else store_permissions profiler (profiling_store w) (delete i (profiling_calls w))
  | Some (AwaitCPU cpu) => wait (AwaitMemory cpu result)
  | Some (AwaitMemory cpu memory) => wait (AwaitNetwork cpu memory result)
  | Some (AwaitNetwork cpu memory network) =>
      Normal {| profiling_profiler :=
                  {| profiler_permissions := profiler_permissions profiler;
                     profiler_data :=
                       {| data_basic := data_basic (profiler_data profiler);
                          data_performance :=
                            Some (VObj [("cpu", cpu); ("memory", memory);
                                        ("network", network)]) |} |};
                profiling_store := profiling_store w;
                profiling_calls := <[i := AwaitPerformance]> (profiling_calls w) |}
  | Some AwaitPerformance =>
      store_permissions profiler (profiling_store w) (delete i (profiling_calls w))
  end.

(** What happens to a profiler: a call begins, or a waiting call goes
    on. *)
Inductive profiler_event : Type :=
  | Asked (level : string) (basic cpu : jsval)
  | Resumed (i : nat) (result : jsval).

Definition profiler_step (e : profiler_event) (w : Profiling) : completion Profiling :=
  match e with
  | Asked level basic cpu => requestPermission level basic cpu w
  | Resumed i result => resume i result w
  end.

(** The events in the order in which they happen. *)
Fixpoint profiling (events : list profiler_event) (w : Profiling) : completion Profiling :=
  match events with
  | [] => Normal w
  | e :: events' => w' ← profiler_step e w; profiling events' w'
  end.

(** Some call so far asked for the level [full]; for [basic] or
    [full]; some call was made. *)
Definition full_asked (events : list profiler_event) : Prop :=
  exists basic cpu, In (Asked "full" basic cpu) events.

Definition basic_asked (events : list profiler_event) : Prop :=
  exists level basic cpu,
    In (Asked level basic cpu) events /\ (level = "basic" \/ level = "full").

Definition called (events : list profiler_event) : Prop :=
  exists level basic cpu, In (Asked level basic cpu) events.

(** A call that waits inside or after [collectPerformanceInfo]. *)
Definition past_basic (s : waiting) : bool :=
  match s with AwaitBasic => false | _ => true end.

(* ================================================================== *)
(** * Deep copies (utils.js, Section 1; [Utils]) *)
(* ================================================================== *)

(** The values of the model are [undefined], [null], booleans,
    numbers, strings, arrays and plain objects: a [Date], which the
    source copies by its time value, has no counterpart here. *)

(** How a call of [deepClone] ends: with a copy that is a value of
    the model; with a copy that is none, because the prototype of one
    of its objects has been replaced; with the [TypeError] of calling
    [obj.hasOwnProperty] on an object whose own property of that name
    hides the method; or with the [RangeError] of a recursion that
    never ends. *)
Inductive clone_result : Type :=
  | Cloned (v : jsval)
  | Reshaped
  | NotAFunction
  | StackOverflow.

(** Whether the object has an own property [key]. *)
Definition has_own (fields : list (string * jsval)) (key : string) : bool :=
  existsb (fun kv => String.eqb (fst kv) key) fields.

(** [clonedObj[key] = value] on an object literal under construction.
    The name [__proto__] reaches the setter of [Object.prototype]: no
    own property is made; an object, an array or [null] becomes the
    prototype of [clonedObj], which is then no plain object any more
    ([None]), and any other value is ignored.  Any other name is set
    in place or added at the end. *)
Definition assign (clonedObj : list (string * jsval)) (key : string) (value : jsval)
  : option (list (string * jsval)) :=
  if String.eqb key "__proto__" then
    match value with
    | VObj _ | VArr _ | VNull => None
    | _ => Some clonedObj
    end
  else if has_own clonedObj key then
    Some (map (fun kv => if String.eqb (fst kv) key then (key, value) else kv) clonedObj)
  else Some (clonedObj ++ [(key, value)])%list.

(** [obj.map(item => deepClone(item))]; [None] stands for a copy that
    holds an item with a replaced prototype. *)
Definition clone_items (deepClone : jsval -> clone_result)
  : list jsval -> clone_result :=
  fix items (l : list jsval) : clone_result :=
    match l with
    | [] => Cloned (VArr [])
    | item :: l' =>
        match deepClone item with
        | Cloned c =>
            match items l' with
            | Cloned (VArr cs) => Cloned (VArr (c :: cs))
            | r => r
            end
        | Reshaped =>
            match items l' with
            | Cloned _ => Reshaped
            | r => r
            end
        | r => r
        end
    end.

(** The [for ... in] loop over the own properties [l] still to visit,
    with the copy [clonedObj] made so far, [None] once its prototype
    has been replaced or one of its members is such a copy. *)
Definition clone_members (deepClone : jsval -> clone_result)
  : list (string * jsval) -> option (list (string * jsval)) -> clone_result :=
  fix members (l : list (string * jsval)) (clonedObj : option (list (string * jsval)))
    : clone_result :=
    match l with
    | [] =>
        match clonedObj with
        | Some fields => Cloned (VObj fields)
        | None => Reshaped
        end
    | kv :: l' =>
        match deepClone (snd kv) with
        | Cloned c =>
            members l'
              (match clonedObj with
               | Some fields => assign fields (fst kv) c
               | None => None
               end)
        | Reshaped => members l' None
        | r => r
        end
    end.

(** [deepClone(obj)].  The test [obj.hasOwnProperty(key)] of the
    first round throws when the object has an own property named
    [hasOwnProperty]; it is true for every key otherwise. *)
Fixpoint deepClone (obj : jsval) : clone_result :=
  match obj with
  | VUndefined | VNull | VBool _ | VNum _ | VStr _ => Cloned obj
  | VArr items => clone_items deepClone items
  | VObj fields =>
      match fields with
      | [] => Cloned (VObj [])
      | _ :: _ =>
          if has_own fields "hasOwnProperty" then NotAFunction
          else clone_members deepClone fields (Some [])
      end
  | VCyclic => StackOverflow
  end.

(** Data that [deepClone] copies as it is: values without a cycle,
    none of whose objects has a property named [hasOwnProperty] or
    [__proto__], or a property name twice. *)
Fixpoint cloneable (v : jsval) : bool :=
  match v with
  | VCyclic => false
  | VUndefined | VNull | VBool _ | VNum _ | VStr _ => true
  | VArr items => forallb cloneable items
  | VObj fields =>
      bool_decide (NoDup (map fst fields)) &&
      negb (has_own fields "hasOwnProperty") &&
      negb (has_own fields "__proto__") &&
      forallb (fun kv => cloneable (snd kv)) fields
  end.

(** The properties the copy keeps: all but [__proto__]. *)
Definition keeps_name (kv : string * jsval) : bool :=
  negb (String.eqb (fst kv) "__proto__").

(* ================================================================== *)
(** * Regular expressions *)
(* ================================================================== *)

(** The functions of this part search and rewrite strings with
    regular expressions, which step over UTF-16 code units: here a
    string is the list of its code units ([code_units] gives it for a
    string held as UTF-8 bytes).  All patterns of the program are
    without the [u] flag and made of ASCII characters. *)

(** What stands for one character in a pattern, alone or inside a
    class: a literal code unit, a range [lo-hi], [\d], [\w], [\s]. *)
Inductive atom : Type :=
  | Lit (c : N)
  | Range (lo hi : N)
  | Digit
  | Word
  | Whitespace.

(** Patterns: the empty pattern; a class of atoms, negated ([[^...]])
    or not, a single atom being a class of one; sequence; alternative
    ([|]); the greedy star; the assertions [^], [$], [\b] and [(?!r)];
    and the capturing group number [n]. *)
Inductive regex : Type :=
  | Empty
  | Char (negated : bool) (items : list atom)
  | Seq (r1 r2 : regex)
  | Alt (r1 r2 : regex)
  | Star (r : regex)
  | Bol
  | Eol
  | WordBoundary
  | NotAhead (r : regex)
  | Group (n : nat) (r : regex).

(** [r+], [r?] and [r{2}]. *)
Definition Plus (r : regex) : regex := Seq r (Star r).
Definition Opt (r : regex) : regex := Alt r Empty.
Definition Twice (r : regex) : regex := Seq r r.

(** A run of literal characters. *)
Fixpoint literal (units : list N) : regex :=
  match units with
  | [] => Empty
  | [c] => Char false [Lit c]
  | c :: rest => Seq (Char false [Lit c]) (literal rest)
  end.

Definition text (s : string) : regex := literal (code_units s).

(** The alternative of several patterns, the first tried first. *)
Fixpoint alternatives (rs : list regex) : regex :=
  match rs with
  | [] => Empty
  | [r] => r
  | r :: rest => Alt r (alternatives rest)
  end.

Definition between (lo hi u : N) : bool := (lo <=? u)%N && (u <=? hi)%N.

(** The word characters of [\w] and [\b], and the white space and
    line terminators of [\s]. *)
Definition is_word_char (u : N) : bool :=
  between 97 122 u || between 65 90 u || between 48 57 u || (u =? 95)%N.

Definition is_space_char (u : N) : bool :=
  between 9 13 u || (u =? 32)%N || (u =? 160)%N || (u =? 5760)%N ||
  between 8192 8202 u || (u =? 8232)%N || (u =? 8233)%N || (u =? 8239)%N ||
  (u =? 8287)%N || (u =? 12288)%N || (u =? 65279)%N.

(** [Canonicalize]: under the [i] flag a letter a-z is compared as
    its capital.  (A character outside ASCII is never mapped onto an
    ASCII one, and can therefore not meet an atom of an ASCII
    pattern in any other way than by being equal to it.) *)
Definition canonicalize (ignoreCase : bool) (u : N) : N :=
  if ignoreCase && between 97 122 u then (u - 32)%N else u.

Definition atom_matches (ignoreCase : bool) (a : atom) (u : N) : bool :=
  match a with
  | Lit c => (canonicalize ignoreCase c =? canonicalize ignoreCase u)%N
  | Range lo hi =>
      let cu := canonicalize ignoreCase u in
      between lo hi u ||
      (ignoreCase && (between lo hi cu || (between 65 90 cu && between lo hi (cu + 32)%N)))
  | Digit => between 48 57 u
  | Word => is_word_char u
  | Whitespace => is_space_char u
  end.

Definition class_matches (ignoreCase negated : bool) (items : list atom) (u : N) : bool :=
  xorb negated (existsb (fun a => atom_matches ignoreCase a u) items).

(** The spans of the groups matched so far, latest first, and a state
    of the matcher: the position reached and the captures. *)
Definition captures : Type := list (nat * (nat * nat)).

Definition mstate : Type := nat * captures.

Section Matcher.

(** The flag [i] and the string searched. *)
Variable ignoreCase : bool.
Variable input : list N.

(** [IsWordChar] at position [e - 1], given as [e]. *)
Definition word_before (e : nat) : bool :=
  match e with
  | O => false
  | S e' => match input !! e' with Some u => is_word_char u | None => false end
  end.

Definition word_at (e : nat) : bool :=
  match input !! e with Some u => is_word_char u | None => false end.

(** The greedy star on the states reached by one more round [step]:
    every way of going on after one more round, then stopping here.
    A round that does not advance is given up.  [fuel] bounds the
    number of rounds; each advances, so the length of the input is
    enough. *)
Fixpoint star (step : mstate -> list mstate) (fuel : nat) (x : mstate) : list mstate :=
  match fuel with
  | O => [x]
  | S fuel' =>
      (flat_map (fun y => if (fst x <? fst y)%nat then star step fuel' y else [])
         (step x)
       ++ [x])%list
  end.

(** The states in which a match of [r] begun in state [x] can end, in
    the order in which backtracking tries them. *)
Fixpoint run (r : regex) (x : mstate) : list mstate :=
  match r with
  | Empty => [x]
  | Char negated items =>
      match input !! fst x with
      | Some u =>
          if class_matches ignoreCase negated items u then [(S (fst x), snd x)] else []
      | None => []
      end
  | Seq r1 r2 => flat_map (run r2) (run r1 x)
  | Alt r1 r2 => (run r1 x ++ run r2 x)%list
  | Star r' => star (run r') (length input) x
  | Bol => if (fst x =? 0)%nat then [x] else []
  | Eol => if (fst x =? length input)%nat then [x] else []
  | WordBoundary => if xorb (word_before (fst x)) (word_at (fst x)) then [x] else []
  | NotAhead r' => match run r' x with [] => [x] | _ :: _ => [] end
  | Group n r' => map (fun y => (fst y, (n, (fst x, fst y)) :: snd y)) (run r' x)
  end.

(** The first match that begins at position [i] or, failing that,
    at one of the [fuel] positions after it: where it begins and the
    state in which it ends. *)
Fixpoint search (r : regex) (fuel i : nat) : option (nat * mstate) :=
  match run r (i, []) with
  | y :: _ => Some (i, y)
  | [] =>
      match fuel with
      | O => None
      | S fuel' => search r fuel' (S i)
      end
  end.

(** [RegExpBuiltinExec] from [lastIndex]: no match when [lastIndex]
    lies beyond the end; the positions up to the end, the end
    included, are tried in turn. *)
Definition exec (r : regex) (lastIndex : nat) : option (nat * mstate) :=
  if (length input <? lastIndex)%nat then None
  else search r (length input - lastIndex) lastIndex.

(** [regex.test(input)] for a pattern without the [g] flag. *)
Definition test (r : regex) : bool :=
  match exec r 0 with Some _ => true | None => false end.

(** [regex.test(input)] for a pattern with the [g] flag, whose
    [lastIndex] is read before and written after: the end of the
    match, or 0 when there is none. *)
Definition test_global (r : regex) (lastIndex : nat) : bool * nat :=
  match exec r lastIndex with
  | Some (_, y) => (true, fst y)
  | None => (false, 0%nat)
  end.

(** [input.replace(regex, replacement)] for a pattern with the [g]
    flag and a replacement text without a dollar sign.  The search
    goes on from the end of each match, one further on after an empty
    match; [next] is the position up to which the input is copied. *)
Fixpoint replace_from (r : regex) (replacement : list N) (fuel lastIndex next : nat)
  : list N :=
  match exec r lastIndex with
  | None => drop next input
  | Some (position, y) =>
      let e := fst y in
      let copied :=
        if (next <=? position)%nat then
          (take (position - next) (drop next input) ++ replacement)%list
        else [] in
      let next' := if (next <=? position)%nat then e else next in
      match fuel with
      | O => (copied ++ drop next' input)%list
      | S fuel' =>
          (copied ++
           replace_from r replacement fuel'
             (if (e =? position)%nat then S e else e) next')%list
      end
  end.

End Matcher.

(** The text of capture [n] in a state reached on [input]. *)
Definition capture (input : list N) (y : mstate) (n : nat) : option (list N) :=
  match List.find (fun c => (fst c =? n)%nat) (snd y) with
  | Some (_, (from, to)) => Some (take (to - from) (drop from input))
  | None => None
  end.

(** [input.replace(regex, replacement)], pattern with the [g] flag. *)
Definition replace_all (ignoreCase : bool) (r : regex) (replacement input : list N)
  : list N :=
  replace_from ignoreCase input r replacement (length input) 0 0.

(** The code units [units], compared as the matcher compares them,
    stand at the front of [rest]. *)
Fixpoint matches_at (ignoreCase : bool) (units rest : list N) : bool :=
  match units, rest with
  | [], _ => true
  | c :: units', u :: rest' =>
      (canonicalize ignoreCase c =? canonicalize ignoreCase u)%N
      && matches_at ignoreCase units' rest'
  | _ :: _, [] => false
  end.

(* ================================================================== *)
(** * Validation and sanitization (utils.js, Section 4; [Utils]) *)
(* ================================================================== *)

(** The class [[^\s@]]. *)
Definition no_space_no_at : regex := Char true [Whitespace; Lit 64].

(** [/^[^\s@]+@[^\s@]+\.[^\s@]+$/]. *)
Definition email_pattern : regex :=
  Seq Bol
    (Seq (Plus no_space_no_at)
       (Seq (text "@")
          (Seq (Plus no_space_no_at)
             (Seq (text ".")
                (Seq (Plus no_space_no_at) Eol))))).

(** [validateEmail(email)]. *)
Definition validateEmail (email : list N) : bool := test false email email_pattern.

(** A code unit that the class [[^\s@]] accepts. *)
Definition plain_unit (u : N) : bool := negb (is_space_char u || (u =? 64)%N).

(** [\s+]. *)
Definition spaces : regex := Plus (Char false [Whitespace]).

(** The [dangerousPatterns] of [validateSystemCommand], each with its
    [i] flag:
    [/rm\s+-rf/], [/format\s+[a-z]:/i], [/del\s+\/s/i],
    [/shutdown\s+-\w*s/i], [/mkfs\./], [/dd\s+if=/],
    [/wget\s+http/i], [/curl\s+http/i]. *)
Definition dangerousPatterns : list (bool * regex) :=
  [ (false, Seq (text "rm") (Seq spaces (text "-rf")));
    (true, Seq (text "format") (Seq spaces (Seq (Char false [Range 97 122]) (text ":"))));
    (true, Seq (text "del") (Seq spaces (text "/s")));
    (true, Seq (text "shutdown")
             (Seq spaces (Seq (text "-") (Seq (Star (Char false [Word])) (text "s")))));
    (false, text "mkfs.");
    (false, Seq (text "dd") (Seq spaces (text "if=")));
    (true, Seq (text "wget") (Seq spaces (text "http")));
    (true, Seq (text "curl") (Seq spaces (text "http"))) ].

(** [validateSystemCommand(command)]. *)
Definition validateSystemCommand (command : list N) : bool :=
  negb (existsb (fun p => test (fst p) command (snd p)) dangerousPatterns).

(** The script pattern: [<script\b], then any run of characters other
    than [<], then any number of times a [<] that does not begin
    [<\/script>] followed by a run of characters other than [<], then
    [<\/script>]. *)
Definition script_pattern : regex :=
  Seq (text "<script")
    (Seq WordBoundary
       (Seq (Star (Char true [Lit 60]))
          (Seq (Star (Seq (NotAhead (text "</script>"))
                        (Seq (text "<") (Star (Char true [Lit 60])))))
             (text "</script>")))).

(** What [innerHTML] gives for an element whose [textContent] was
    set to [input]: the text with [&], [<], [>] and the no-break space
    written as entities. *)
Definition escape_unit (u : N) : list N :=
  if (u =? 38)%N then code_units "&amp;"
  else if (u =? 60)%N then code_units "&lt;"
  else if (u =? 62)%N then code_units "&gt;"
  else if (u =? 160)%N then code_units "&nbsp;"
  else [u].

Definition escape_text (input : list N) : list N := flat_map escape_unit input.

(** [sanitizeInput(input)] of utils.js, for a string. *)
Definition sanitizeInput (input : list N) : list N :=
  let sanitized := escape_text input in
  let sanitized := replace_all false (text "&") (code_units "&amp;") sanitized in
  let sanitized := replace_all false (text "<") (code_units "&lt;") sanitized in
  let sanitized := replace_all false (text ">") (code_units "&gt;") sanitized in
  let sanitized := replace_all false (Char false [Lit 34]) (code_units "&quot;") sanitized in
  let sanitized := replace_all false (text "'") (code_units "&#x27;") sanitized in
  replace_all true script_pattern [] sanitized.

(** What [sanitizeInput] makes of one code unit: the ampersand of
    the entities [innerHTML] wrote is escaped a second time. *)
Definition sanitized_unit (u : N) : list N :=
  if (u =? 38)%N then code_units "&amp;amp;"
  else if (u =? 60)%N then code_units "&amp;lt;"
  else if (u =? 62)%N then code_units "&amp;gt;"
  else if (u =? 160)%N then code_units "&amp;nbsp;"
  else if (u =? 34)%N then code_units "&quot;"
  else if (u =? 39)%N then code_units "&#x27;"
  else [u].

(** The replacement of every [c] by [replacement]. *)
Definition replaced (c : N) (replacement : string) (l : list N) : list N :=
  flat_map (fun v => if class_matches false false [Lit c] v
                     then code_units replacement else [v]) l.

(** A code unit other than [<], [>] and the two quotes. *)
Definition markup_free (u : N) : bool :=
  negb ((u =? 60)%N || (u =? 62)%N || (u =? 34)%N || (u =? 39)%N).

(* ================================================================== *)
(** * Device detection ([Utils]) *)
(* ================================================================== *)

Record Device := {
  device_type : string;
  isMobile : bool;
  isTablet : bool;
  isDesktop : bool;
  isWindows : bool;
  isMac : bool;
  isLinux : bool;
  isAndroid : bool;
  isIOS : bool
}.

(** The [device] literal [detectDevice] starts from. *)
Definition desktop_device : Device := {|
  device_type := "desktop"; isMobile := false; isTablet := false; isDesktop := true;
  isWindows := false; isMac := false; isLinux := false; isAndroid := false;
  isIOS := false |}.

(** [Utils.detectDevice()] on the user agent [ua]: the tests
    [/Android/i], [/iPhone|iPad|iPod/i], [/iPad/i], [/Windows/i],
    [/Mac/i], [/Linux/i], in this order. *)
Definition detectDevice (ua : list N) : Device :=
  if test true ua (text "Android") then
    {| device_type := "mobile"; isMobile := true; isTablet := false; isDesktop := false;
       isWindows := false; isMac := false; isLinux := false; isAndroid := true;
       isIOS := false |}
  else if test true ua (alternatives [text "iPhone"; text "iPad"; text "iPod"]) then
    {| device_type := "mobile"; isMobile := true; isTablet := false; isDesktop := false;
       isWindows := false; isMac := false; isLinux := false; isAndroid := false;
       isIOS := true |}
  else if test true ua (text "iPad") then
    {| device_type := "tablet"; isMobile := false; isTablet := true; isDesktop := false;
       isWindows := false; isMac := false; isLinux := false; isAndroid := false;
       isIOS := true |}
  else if test true ua (text "Windows") then
    {| device_type := "desktop"; isMobile := false; isTablet := false; isDesktop := true;
       isWindows := true; isMac := false; isLinux := false; isAndroid := false;
       isIOS := false |}
  else if test true ua (text "Mac") then
    {| device_type := "desktop"; isMobile := false; isTablet := false; isDesktop := true;
       isWindows := false; isMac := true; isLinux := false; isAndroid := false;
       isIOS := false |}
  else if test true ua (text "Linux") then
    {| device_type := "desktop"; isMobile := false; isTablet := false; isDesktop := true;
       isWindows := false; isMac := false; isLinux := true; isAndroid := false;
       isIOS := false |}
  else desktop_device.

(** The pattern [r] matches somewhere in [input]. *)
Definition occurs (ignoreCase : bool) (r : regex) (input : list N) : Prop :=
  exists i y, (i <= length input)%nat /\ In y (run ignoreCase input r (i, [])).

(* ================================================================== *)
(** * Security manager ([SecurityManager]) *)
(* ================================================================== *)

(** [this.xssPatterns], all with the flags [gi]: the script pattern,
    [/javascript:/], [/on\w+\s*=/], [/<iframe/], [/<object/],
    [/<embed/], [/eval\(/], [/document\.cookie/]. *)
Definition xssPatterns : list regex :=
  [ script_pattern;
    text "javascript:";
    Seq (text "on")
      (Seq (Plus (Char false [Word])) (Seq (Star (Char false [Whitespace])) (text "=")));
    text "<iframe";
    text "<object";
    text "<embed";
    text "eval(";
    text "document.cookie" ].

(** The [lastIndex] of every pattern when the manager is made. *)
Definition initial_lastIndexes : list nat := map (fun _ => 0%nat) xssPatterns.

(** [patterns.some(pattern => pattern.test(input))] on patterns with
    the [g] flag, whose [lastIndex] values are [lastIndexes]: the
    patterns are tested in order until one matches; each test starts
    at the [lastIndex] of its pattern and writes it. *)
Fixpoint some_test (input : list N) (patterns : list regex) (lastIndexes : list nat)
  : bool * list nat :=
  match patterns, lastIndexes with
  | r :: patterns', lastIndex :: lastIndexes' =>
      let '(found, lastIndex') := test_global true input r lastIndex in
      if found then (true, lastIndex' :: lastIndexes')
      else
        let '(b, rest) := some_test input patterns' lastIndexes' in
        (b, lastIndex' :: rest)
  | _, _ => (false, lastIndexes)
  end.

(** [SecurityManager.containsXSS(input)]. *)
Definition containsXSS (input : list N) (lastIndexes : list nat) : bool * list nat :=
  some_test input xssPatterns lastIndexes.

(** [s.trim()]. *)
Definition trim (s : list N) : list N :=
  let strip := fix strip (l : list N) : list N :=
    match l with
    | u :: l' => if is_space_char u then strip l' else l
    | [] => []
    end in
  rev (strip (rev (strip s))).

(** [SecurityManager.sanitizeInput(input)] for a string: every
    pattern in turn is replaced by nothing, and the result is
    trimmed.  A [replace] with a global pattern begins at
    [lastIndex] 0 and leaves it at 0; on the empty string, which is
    falsy, no pattern is touched. *)
Definition SecurityManager_sanitizeInput (input : list N) (lastIndexes : list nat)
  : list N * list nat :=
  match input with
  | [] => (input, lastIndexes)
  | _ :: _ =>
      (trim (fold_left (fun sanitized pattern => replace_all true pattern [] sanitized)
               xssPatterns input),
       map (fun _ => 0%nat) lastIndexes)
  end.

(** The text of the warning [handlePasteEvent] shows. *)
Definition paste_warning : string := "داده‌های کپی شده حاوی محتوای ناامن هستند.".

(** [SecurityManager.handlePasteEvent(event)] for an event that
    carries clipboard data with the text [text]: whether the default
    action is prevented, and the [lastIndex] values afterwards.  The
    warning shown for a blocked paste passes its message through
    [sanitizeInput]. *)
Definition handlePasteEvent (text : list N) (lastIndexes : list nat) : bool * list nat :=
  let '(found, lastIndexes) := containsXSS text lastIndexes in
  if found then
    (true, snd (SecurityManager_sanitizeInput (code_units paste_warning) lastIndexes))
  else (false, lastIndexes).

(** The paste events one after the other: which were blocked. *)
Fixpoint handlePasteEvents (texts : list (list N)) (lastIndexes : list nat)
  : list bool * list nat :=
  match texts with
  | [] => ([], lastIndexes)
  | text :: texts' =>
      let '(blocked, lastIndexes) := handlePasteEvent text lastIndexes in
      let '(rest, lastIndexes) := handlePasteEvents texts' lastIndexes in
      (blocked :: rest, lastIndexes)
  end.

(* ================================================================== *)
(** * Colours ([Utils]) *)
(* ================================================================== *)

(** [s.slice(1)] on a string of ASCII characters. *)
Definition slice1 (s : string) : string :=
  match s with
  | String _ rest => rest
  | EmptyString => EmptyString
  end.

(** [Utils.rgbToHex(r, g, b)] on integers. *)
Definition rgbToHex (r g b : Z) : string :=
  "#" ++ slice1 (toString16 (shift_left 1 24 + shift_left r 16 + shift_left g 8 + b)).

(** A hexadecimal digit [[a-f\d]], a class under the [i] flag. *)
Definition hex_class : regex := Char false [Range 97 102; Digit].

(** [/^#?([a-f\d]{2})([a-f\d]{2})([a-f\d]{2})$/i]. *)
Definition hex_pattern : regex :=
  Seq Bol
    (Seq (Opt (text "#"))
       (Seq (Group 1 (Twice hex_class))
          (Seq (Group 2 (Twice hex_class))
             (Seq (Group 3 (Twice hex_class)) Eol)))).

(** The value of a hexadecimal digit. *)
Definition hex_unit_value (u : N) : option Z :=
  if between 48 57 u then Some (Z.of_N u - 48)%Z
  else if between 97 102 u then Some (Z.of_N u - 87)%Z
  else if between 65 70 u then Some (Z.of_N u - 55)%Z
  else None.

(** The value of the longest run of hexadecimal digits at the start
    of [units], after the digits [acc] read so far. *)
Fixpoint hex_run (units : list N) (acc : option Z) : option Z :=
  match units with
  | u :: rest =>
      match hex_unit_value u with
      | Some d => hex_run rest (Some (default 0%Z acc * 16 + d)%Z)
      | None => acc
      end
  | [] => acc
  end.

(** [parseInt(s, 16)]: white space is skipped, then a sign, then a
    prefix [0x]; [None] stands for [NaN]. *)
Definition parseInt16 (s : list N) : option Z :=
  let strip := fix strip (l : list N) : list N :=
    match l with
    | u :: l' => if is_space_char u then strip l' else l
    | [] => []
    end in
  let body := strip s in
  let '(negative, body) :=
    match body with
    | 45%N :: rest => (true, rest)
    | 43%N :: rest => (false, rest)
    | _ => (false, body)
    end in
  let body :=
    match body with
    | 48%N :: 120%N :: rest => rest
    | 48%N :: 88%N :: rest => rest
    | _ => body
    end in
  match hex_run body None with
  | Some n => Some (if negative then (- n)%Z else n)
  | None => None
  end.

(** The object [{ r, g, b }]. *)
Record Rgb := { rgb_r : option Z; rgb_g : option Z; rgb_b : option Z }.

(** [Utils.hexToRgb(hex)]; [None] is [null]. *)
Definition hexToRgb (hex : list N) : option Rgb :=
  match exec true hex hex_pattern 0 with
  | Some (_, result) =>
      Some {| rgb_r := parseInt16 (default [] (capture hex result 1));
              rgb_g := parseInt16 (default [] (capture hex result 2));
              rgb_b := parseInt16 (default [] (capture hex result 3)) |}
  | None => None
  end.

(** The code unit of a hexadecimal digit written in lower case. *)
Definition hex_unit (d : N) : N := N_of_ascii (hex_digit_lower d).

(** The [k] lowest digits of [n] in base 16, put in front of [acc]. *)
Fixpoint hex_fixed (k : nat) (n : N) (acc : string) : string :=
  match k with
  | O => acc
  | S k' => hex_fixed k' (n / 16) (String (hex_digit_lower (n mod 16)) acc)
  end.

(** [s.padStart(targetLength, c)] for a padding string of one
    character. *)
Definition padStart (targetLength : nat) (c : ascii) (s : string) : string :=
  string_of_list_ascii (repeat c (targetLength - String.length s)) ++ s.

(** [Utils.generateRandomColor()], where [random] is the result of
    [Math.random()]. *)
Definition generateRandomColor (random : Q) : string :=
  "#" ++ padStart 6 "0" (toString16 (Qfloor (random * 16777215))).

(* ================================================================== *)
(** * Properties *)
(* ================================================================== *)

(** ** Numbers *)

Lemma Qgtb_true (a b : Q) : Qgtb a b = true <-> (b < a)%Q.
Proof.
  unfold Qgtb. rewrite negb_true_iff, <- not_true_iff_false, Qle_bool_iff.
  split; [apply Qnot_le_lt | apply Qlt_not_le].
Qed.

Lemma Qgtb_false (a b : Q) : Qgtb a b = false <-> (a <= b)%Q.
Proof.
  unfold Qgtb. rewrite negb_false_iff. apply Qle_bool_iff.
Qed.

(** ** Alert system *)

Lemma alerts_distinct (s : SystemStatus) :
  cpu_usage_alert s <> ram_usage_alert s /\
  cpu_usage_alert s <> cpu_temperature_alert s /\
  ram_usage_alert s <> cpu_temperature_alert s.
Proof.
  repeat split; intros H; apply (f_equal alert_title) in H; discriminate H.
Qed.

Lemma checkAlerts_elem (st : AppState) (a : AlertCall) :
  a ∈ checkAlerts st <->
  (a = cpu_usage_alert (systemStatus st)
     /\ (85 < cpu_usage (cpu (systemStatus st)))%Q) \/
  (a = ram_usage_alert (systemStatus st)
     /\ (90 < ram_usage (ram (systemStatus st)))%Q) \/
  (a = cpu_temperature_alert (systemStatus st)
     /\ (75 < cpu_temperature (cpu (systemStatus st)))%Q).
Proof.
  unfold checkAlerts. cbv zeta.
  rewrite !elem_of_app, <- !Qgtb_true.
  destruct (Qgtb (cpu_usage _) 85), (Qgtb (ram_usage _) 90),
    (Qgtb (cpu_temperature _) 75);
    rewrite ?list_elem_of_singleton, ?elem_of_nil; intuition congruence.
Qed.

(** C7.  [checkAlerts] depends on the system-status snapshot only, and
    the calls to [showAlert] it makes are: the CPU-usage alert, of type
    warning, exactly when cpu.usage > 85; the RAM-usage alert, of type
    critical, exactly when ram.usage > 90; the CPU-temperature alert,
    of type warning, exactly when cpu.temperature > 75; and no other.
    For a snapshot with cpu usage 90, cpu temperature 50 and ram usage
    50 the calls are the single CPU-usage warning. *)
Theorem checkAlerts_thresholds (st : AppState) :
  let s := systemStatus st in
  (cpu_usage_alert s ∈ checkAlerts st <-> (85 < cpu_usage (cpu s))%Q) /\
  (ram_usage_alert s ∈ checkAlerts st <-> (90 < ram_usage (ram s))%Q) /\
  (cpu_temperature_alert s ∈ checkAlerts st <-> (75 < cpu_temperature (cpu s))%Q) /\
  (forall a, a ∈ checkAlerts st ->
     a = cpu_usage_alert s \/ a = ram_usage_alert s \/ a = cpu_temperature_alert s) /\
  alert_type (cpu_usage_alert s) = warning /\
  alert_type (ram_usage_alert s) = critical /\
  alert_type (cpu_temperature_alert s) = warning /\
  (forall st', systemStatus st' = s -> checkAlerts st' = checkAlerts st) /\
  (cpu_usage (cpu s) = 90%Q -> cpu_temperature (cpu s) = 50%Q ->
   ram_usage (ram s) = 50%Q ->
   checkAlerts st =
     [ {| alert_title := "High CPU Usage Alert";
          alert_message := "CPU usage reached 90.0%";
          alert_type := warning |} ]).
Proof.
  intros s. subst s.
  destruct (alerts_distinct (systemStatus st)) as (Hcr & Hct & Hrt).
  repeat split.
  - rewrite checkAlerts_elem. intuition congruence.
  - intros H. apply checkAlerts_elem. auto.
  - rewrite checkAlerts_elem. intuition congruence.
  - intros H. apply checkAlerts_elem. auto.
  - rewrite checkAlerts_elem. intuition congruence.
  - intros H. apply checkAlerts_elem. auto.
  - intros a. rewrite checkAlerts_elem. tauto.
  - intros st' Hst. unfold checkAlerts. now rewrite Hst.
  - intros Hu Ht Hr. unfold checkAlerts, cpu_usage_alert. cbv zeta.
    rewrite Hu, Ht, Hr. reflexivity.
Qed.

Lemma checkAlerts_thresholds_witness :
  checkAlerts example_snapshot =
    [ {| alert_title := "High CPU Usage Alert";
         alert_message := "CPU usage reached 90.0%";
         alert_type := warning |} ].
Proof.
  apply (checkAlerts_thresholds example_snapshot); reflexivity.
Defined.

(** ** Profile management *)

Lemma elem_of_active_ids (st : AppState) (k : string) :
  k ∈ active_ids st <-> exists p, profiles st !! k = Some p /\ active p = true.
Proof.
  unfold active_ids. rewrite elem_of_dom. unfold is_Some.
  setoid_rewrite map_lookup_filter_Some. reflexivity.
Qed.

Lemma activateProfile_returns_undefined (profileId : string) (st : AppState) :
  (activateProfile profileId st).1 = RUndefined.
Proof.
  unfold activateProfile. now destruct (js_get _ profileId).
Qed.

(** What the registry holds after a call: every flag cleared, then the
    flag of the requested profile set when it is an own key. *)
Lemma activateProfile_lookup (profileId : string) (st : AppState) (k : string) :
  profiles (activateProfile profileId st).2 !! k =
  (fun p => set_active (bool_decide (k = profileId)) p) <$> profiles st !! k.
Proof.
  unfold activateProfile, js_get. rewrite lookup_fmap.
  destruct (profiles st !! profileId) as [p|] eqn:Hp; simpl.
  - rewrite lookup_insert. case_decide as Hk.
    + subst k. rewrite Hp. simpl.
      rewrite bool_decide_eq_true_2 by reflexivity. reflexivity.
    + rewrite lookup_fmap. destruct (profiles st !! k); simpl; [|reflexivity].
      rewrite bool_decide_eq_false_2 by congruence. reflexivity.
  - destruct (bool_decide (profileId ∈ object_prototype_names)); simpl;
      rewrite lookup_fmap; destruct (profiles st !! k) eqn:Hk; simpl;
      try reflexivity;
      rewrite bool_decide_eq_false_2 by congruence; reflexivity.
Qed.

(** An id that is no own key of the registry leaves no profile active. *)
Lemma activateProfile_unknown_clears (profileId : string) (st : AppState) :
  profiles st !! profileId = None ->
  active_ids (activateProfile profileId st).2 = ∅.
Proof.
  intros Hnone. apply set_eq. intros k.
  rewrite elem_of_active_ids, activateProfile_lookup. split; [|set_solver].
  intros (p & Hp & Hact).
  destruct (profiles st !! k) as [q|] eqn:Hq; simpl in Hp; [|discriminate].
  injection Hp as <-. simpl in Hact.
  apply bool_decide_eq_true_1 in Hact. congruence.
Qed.

(** C1, counterexample.  On the initial state, [activateProfile] with
    the unknown id "turbo" does not meet the contract: the call has no
    return value, and the default profile is no longer active. *)
Lemma activate_contract_fails_on_unknown_id :
  ~ activate_contract "turbo" initial_AppState.
Proof.
  intros [Hunknown _].
  destruct (Hunknown eq_refl) as [_ Hret].
  rewrite activateProfile_returns_undefined in Hret. discriminate Hret.
Qed.

(** C1, amended.  [activateProfile] returns no value for every
    argument.  When [profileId] is a key of the registry, afterwards
    the requested profile is active, it is the only active one, and
    [userSettings.selectedProfile] holds its id. *)
Theorem activateProfile_known_id (profileId : string) (st : AppState) :
  is_Some (profiles st !! profileId) ->
  let st' := (activateProfile profileId st).2 in
  active_ids st' = {[ profileId ]} /\
  (forall k p, profiles st' !! k = Some p -> (active p = true <-> k = profileId)) /\
  selectedProfile (userSettings st') = profileId /\
  (forall id, (activateProfile id st).1 = RUndefined).
Proof.
  intros [q Hq] st'. subst st'. repeat split.
  - apply set_eq. intros k.
    rewrite elem_of_active_ids, activateProfile_lookup, elem_of_singleton.
    split.
    + intros (p & Hp & Hact).
      destruct (profiles st !! k); simpl in Hp; [|discriminate].
      injection Hp as <-. simpl in Hact. now apply bool_decide_eq_true_1 in Hact.
    + intros ->. rewrite Hq. simpl. eexists. split; [reflexivity|].
      simpl. now apply bool_decide_eq_true_2.
  - intros Hact. rewrite activateProfile_lookup in H.
    destruct (profiles st !! k); simpl in H; [|discriminate].
    injection H as <-. simpl in Hact. now apply bool_decide_eq_true_1 in Hact.
  - intros ->. rewrite activateProfile_lookup, Hq in H. simpl in H.
    injection H as <-. simpl. now apply bool_decide_eq_true_2.
  - unfold activateProfile, js_get. rewrite lookup_fmap, Hq. reflexivity.
  - intros. apply activateProfile_returns_undefined.
Qed.

Lemma activateProfile_known_id_witness :
  active_ids (activateProfile "gaming" initial_AppState).2 = {[ "gaming" ]}.
Proof.
  apply (activateProfile_known_id "gaming" initial_AppState).
  exists gaming_profile. reflexivity.
Defined.

(** ** Range filter *)

Lemma timeLimit_default (range : string) :
  range ∉ ["1m"; "5m"; "1h"; "1d"] -> timeLimit range = timeLimit "1m".
Proof.
  intros Hnot. unfold timeLimit.
  repeat match goal with
  | |- context [String.eqb range ?t] =>
      destruct (String.eqb_spec range t) as [->|_];
      [ exfalso; apply Hnot; set_solver | ]
  end.
  reflexivity.
Qed.

Lemma filterDataByTimeRange_elem (now : Z) (data : list DataPoint) (range : string)
    (p : DataPoint) :
  p ∈ filterDataByTimeRange now data range <->
  p ∈ data /\ (now - pointTime p <= timeLimit range)%Z.
Proof.
  unfold filterDataByTimeRange.
  rewrite !list_elem_of_In, filter_In, Z.leb_le. reflexivity.
Qed.

Lemma filterDataByTimeRange_sublist (now : Z) (data : list DataPoint) (range : string) :
  filterDataByTimeRange now data range `sublist_of` data.
Proof.
  unfold filterDataByTimeRange.
  induction data as [|p data IH]; simpl; [constructor|].
  destruct (now - pointTime p <=? timeLimit range)%Z;
    [now apply sublist_skip | now apply sublist_cons].
Qed.

Lemma filterDataByTimeRange_largest (now : Z) (range : string)
    (l data : list DataPoint) :
  l `sublist_of` data ->
  Forall (fun p => (now - pointTime p <= timeLimit range)%Z) l ->
  l `sublist_of` filterDataByTimeRange now data range.
Proof.
  unfold filterDataByTimeRange.
  induction 1 as [|p l data Hsub IH|p l data Hsub IH]; intros Hall; simpl.
  - constructor.
  - apply Forall_cons in Hall as [Hp Hall].
    apply Z.leb_le in Hp. rewrite Hp. apply sublist_skip. auto.
  - destruct (now - pointTime p <=? timeLimit range)%Z;
      [apply sublist_cons|]; auto.
Qed.

(** C10.  [filterDataByTimeRange] returns a sub-sequence of its input:
    order kept, nothing added or changed.  It holds exactly the points
    whose time is at most the window length before [now], and is the
    largest sub-sequence of such points.  The window is 60 s, 300 s,
    3600 s and 86400 s for '1m', '5m', '1h' and '1d', and any other
    tag is treated as '1m'. *)
Theorem filterDataByTimeRange_window (now : Z) (data : list DataPoint) (range : string) :
  let kept := filterDataByTimeRange now data range in
  let in_window p := (now - pointTime p <= timeLimit range)%Z in
  kept `sublist_of` data /\
  (forall p, p ∈ kept <-> p ∈ data /\ in_window p) /\
  (forall l, l `sublist_of` data -> Forall in_window l -> l `sublist_of` kept) /\
  timeLimit "1m" = (60 * 1000)%Z /\
  timeLimit "5m" = (300 * 1000)%Z /\
  timeLimit "1h" = (3600 * 1000)%Z /\
  timeLimit "1d" = (86400 * 1000)%Z /\
  (range ∉ ["1m"; "5m"; "1h"; "1d"] ->
   kept = filterDataByTimeRange now data "1m").
Proof.
  intros kept in_window. subst kept in_window.
  split; [apply filterDataByTimeRange_sublist|].
  split; [apply filterDataByTimeRange_elem|].
  split; [intros l; apply filterDataByTimeRange_largest|].
  repeat (split; [reflexivity|]).
  intros Hnot. unfold filterDataByTimeRange.
  now rewrite (timeLimit_default range Hnot).
Qed.

Lemma filterDataByTimeRange_window_witness :
  filterDataByTimeRange 100000
    [ {| x := XDate 30000; y := 1 |}; {| x := XNum 70000; y := 2 |} ] "2w" =
  filterDataByTimeRange 100000
    [ {| x := XDate 30000; y := 1 |}; {| x := XNum 70000; y := 2 |} ] "1m".
Proof.
  apply (filterDataByTimeRange_window 100000
           [ {| x := XDate 30000; y := 1 |}; {| x := XNum 70000; y := 2 |} ] "2w").
  intros H. repeat (apply elem_of_cons in H as [H|H]; [discriminate H|]).
  now apply elem_of_nil in H.
Defined.

(** ** System simulation *)

Section SimulationProperties.

Variable timeString : nat -> string.
Variable Math_random : nat -> Q.

Lemma step_loop_imap (len i : nat) (rest : list string) (acc : list LogEntry) :
  step_loop timeString len i rest acc =
  (acc ++ imap (fun k step => log_entry timeString len (i + k) step) rest)%list.
Proof.
  revert i acc. induction rest as [|step rest IH]; intros i acc; simpl.
  - now rewrite app_nil_r.
  - rewrite IH, <- app_assoc. simpl. rewrite Nat.add_0_r.
    do 2 f_equal. apply imap_ext. intros k s _. simpl.
    now rewrite Nat.add_succ_r.
Qed.

Lemma configured_steps (operationType : string) :
  (4 <= length (op_steps (configured operationType)) <= 5)%nat.
Proof.
  unfold configured, operations.
  repeat (rewrite lookup_insert; case_decide; [simpl; lia|]).
  rewrite lookup_empty. simpl. lia.
Qed.

(** For every operation type that is not the name of an inherited
    member the promise resolves; the log has one entry per
    configured step (those of memory optimization for an unknown
    type); entry [i] carries step [i], progress
    [(i + 1) / stepCount * 100] and status 'in_progress', except
    the last one, whose status is 'completed' and whose progress
    is 100. *)
Lemma simulateSystemOperation_log (operationType : string) :
  operationType ∉ object_prototype_names ->
  exists r,
    simulateSystemOperation timeString Math_random operationType = Normal r /\
    let stepCount := length (op_steps (configured operationType)) in
    length (log r) = stepCount /\
    (forall i e, log r !! i = Some e ->
       op_steps (configured operationType) !! i = Some (log_step e) /\
       log_progress e =
         (inject_Z (Z.of_nat (i + 1)) / inject_Z (Z.of_nat stepCount) * 100)%Q /\
       log_status e =
         if Nat.eqb i (stepCount - 1) then "completed" else "in_progress") /\
    (exists e, last (log r) = Some e /\
               log_status e = "completed" /\ (log_progress e == 100)%Q).
Proof.
  intros Hown.
  pose proof (configured_steps operationType) as Hlen.
  assert (Hrun : exists r,
    simulateSystemOperation timeString Math_random operationType = Normal r /\
    log r = imap (fun k step =>
              log_entry timeString (length (op_steps (configured operationType))) k step)
              (op_steps (configured operationType))).
  { unfold simulateSystemOperation, js_get, configured.
    destruct (operations !! operationType) as [op|] eqn:Hop.
    2: rewrite bool_decide_eq_false_2 by assumption.
    all: eexists; split; [reflexivity|];
      cbv beta iota zeta delta [log]; now rewrite step_loop_imap. }
  destruct Hrun as (r & Hr & Hlog). exists r. split; [exact Hr|].
  cbv zeta. set (steps := op_steps (configured operationType)) in *.
  rewrite Hlog. split; [now rewrite length_imap|]. split.
  - intros i e He. rewrite list_lookup_imap in He.
    destruct (steps !! i) as [s|] eqn:Hs; simpl in He; [|discriminate].
    injection He as <-. simpl. auto.
  - rewrite last_lookup, length_imap, list_lookup_imap.
    destruct (steps !! pred (length steps)) as [s|] eqn:Hs; simpl.
    + eexists. split; [reflexivity|]. simpl. split.
      * replace (pred (length steps)) with (length steps - 1)%nat by lia.
        now rewrite Nat.eqb_refl.
      * replace (pred (length steps) + 1)%nat with (length steps) by lia.
        field. intros H0. unfold Qeq in H0. simpl in H0. lia.
    + apply lookup_ge_None in Hs. lia.
Qed.

Lemma simulateSystemOperation_inherited (operationType : string) :
  operationType ∈ object_prototype_names ->
  simulateSystemOperation timeString Math_random operationType = Throw TypeError.
Proof.
  intros Hin. unfold simulateSystemOperation, js_get.
  assert (Hnone : operations !! operationType = None).
  { repeat (apply elem_of_cons in Hin as [->|Hin]; [reflexivity|]).
    now apply elem_of_nil in Hin. }
  rewrite Hnone, bool_decide_eq_true_2 by assumption. reflexivity.
Qed.

End SimulationProperties.

(** C6, failing input.  For the operation type "constructor" the
    lookup in the operations table yields an inherited member instead
    of falling back to memory optimization, reading the length of its
    missing step list throws, and the promise is rejected: there is no
    execution log. *)
Theorem simulateSystemOperation_constructor_rejects
    (timeString : nat -> string) (Math_random : nat -> Q) :
  simulateSystemOperation timeString Math_random "constructor" = Throw TypeError.
Proof. reflexivity. Qed.

(** ** Numbers: rounding to one decimal *)

Lemma Qltb_true (a b : Q) : Qltb a b = true <-> (a < b)%Q.
Proof. unfold Qltb. apply (Qgtb_true b a). Qed.

Lemma Qltb_Qeq (v w c : Q) : (v == w)%Q -> Qltb v c = Qltb w c.
Proof.
  intros Heq. apply eq_true_iff_eq. rewrite !Qltb_true. now rewrite Heq.
Qed.

Lemma tenths_Qeq (v w : Q) : (v == w)%Q -> tenths v = tenths w.
Proof.
  intros Heq. unfold tenths. apply Qfloor_comp. now rewrite Heq.
Qed.

Lemma Number_toFixed1_Qeq (v w : Q) :
  (v == w)%Q -> Number_toFixed1 v = Number_toFixed1 w.
Proof.
  intros Heq. unfold Number_toFixed1.
  now rewrite (Qltb_Qeq v w 0 Heq), (tenths_Qeq v w Heq).
Qed.

Lemma Qfloor_half_up_ge (c : Z) (w : Q) :
  (inject_Z c <= w)%Q -> (c <= Qfloor (w + (1 # 2)))%Z.
Proof.
  intros Hle. rewrite <- (Qfloor_Z c). apply Qfloor_resp_le.
  rewrite <- (Qplus_0_r (inject_Z c)). apply Qplus_le_compat; [exact Hle|easy].
Qed.

Lemma Qfloor_half_up_le (c : Z) (w : Q) :
  (w <= inject_Z c)%Q -> (Qfloor (w + (1 # 2)) <= c)%Z.
Proof.
  intros Hle.
  assert (Hc : Qfloor (inject_Z c + (1 # 2)) = c).
  { unfold Qfloor, inject_Z, Qplus. simpl.
    symmetry. apply Z.div_unique with (r := 1%Z); lia. }
  etransitivity; [|apply Z.eq_le_incl, Hc]. apply Qfloor_resp_le.
  apply Qplus_le_compat; [exact Hle|apply Qle_refl].
Qed.

(** Rounding to one decimal keeps a value between bounds that have
    one decimal themselves. *)
Lemma Number_toFixed1_between (a b : Z) (v : Q) :
  (a # 10 <= v)%Q -> (v <= b # 10)%Q ->
  (a # 10 <= Number_toFixed1 v)%Q /\ (Number_toFixed1 v <= b # 10)%Q.
Proof.
  intros Ha Hb. unfold Number_toFixed1, tenths.
  assert (Ha' : (inject_Z a <= v * 10)%Q).
  { unfold Qle in *. simpl in *. lia. }
  assert (Hb' : (v * 10 <= inject_Z b)%Q).
  { unfold Qle in *. simpl in *. lia. }
  destruct (Qltb v 0) eqn:Hneg.
  - apply Qltb_true in Hneg.
    rewrite (Qabs_neg v) by now apply Qlt_le_weak.
    assert (H1 : (inject_Z (- b) <= - v * 10)%Q).
    { unfold Qle in *. simpl in *. lia. }
    assert (H2 : (- v * 10 <= inject_Z (- a))%Q).
    { unfold Qle in *. simpl in *. lia. }
    apply Qfloor_half_up_ge in H1. apply Qfloor_half_up_le in H2.
    set (t := Qfloor (- v * 10 + (1 # 2))) in *.
    unfold Qle. cbn [Qnum Qden]. lia.
  - assert (Hpos : (0 <= v)%Q).
    { apply Qnot_lt_le. intros Hlt. apply Qltb_true in Hlt. congruence. }
    rewrite (Qabs_pos v) by exact Hpos.
    apply Qfloor_half_up_ge in Ha'. apply Qfloor_half_up_le in Hb'.
    set (t := Qfloor (v * 10 + (1 # 2))) in *.
    unfold Qle. cbn [Qnum Qden]. lia.
Qed.

(** ** Chart data *)

Section ChartProperties.

Variable Math_sin : Q -> Q.
Variable Math_random : nat -> Q.

Lemma chart_loop_map (now : Z) (min max : Q) (type : string)
    (n draw : nat) (data : list DataPoint) :
  chart_loop Math_sin Math_random now min max type n draw data =
  (data ++
   map (fun k => chart_point Math_sin now min max type (n - 1 - k)
                   (Math_random (draw + k)))
       (seq 0 n))%list.
Proof.
  revert draw data. induction n as [|i IH]; intros draw data.
  - simpl. now rewrite app_nil_r.
  - cbn [chart_loop]. rewrite IH, <- app_assoc.
    f_equal. cbn [seq map app]. f_equal.
    + f_equal; [lia | f_equal; lia].
    + rewrite <- seq_shift, map_map. apply map_ext. intros k.
      f_equal; [lia | f_equal; lia].
Qed.

Lemma generateChartData_length (now : Z) (count : nat) (min max : Q) (type : string) :
  length (generateChartData Math_sin Math_random now count min max type) = count.
Proof.
  unfold generateChartData. rewrite chart_loop_map. simpl.
  now rewrite length_map, length_seq.
Qed.

Lemma generateChartData_lookup (now : Z) (count : nat) (min max : Q) (type : string)
    (k : nat) (p : DataPoint) :
  generateChartData Math_sin Math_random now count min max type !! k = Some p ->
  (k < count)%nat /\
  p = chart_point Math_sin now min max type (count - 1 - k) (Math_random k).
Proof.
  unfold generateChartData. rewrite chart_loop_map. simpl.
  rewrite list_lookup_fmap. intros Hk.
  destruct (seq 0 count !! k) as [j|] eqn:Hj; simpl in Hk; [|discriminate].
  apply lookup_seq in Hj as [-> Hlt]. injection Hk as <-. auto.
Qed.

(** The series has [count] points; point [k] is dated
    [(count - 1 - k)] seconds before [now], so dates ascend in
    steps of exactly 1000 ms and the newest point comes last. *)
Lemma generateChartData_timestamps (now : Z) (count : nat) (min max : Q)
    (type : string) :
  let data := generateChartData Math_sin Math_random now count min max type in
  length data = count /\
  (forall k p, data !! k = Some p ->
     pointTime p = (now - Z.of_nat (count - 1 - k) * 1000)%Z) /\
  (forall k p q, data !! k = Some p -> data !! S k = Some q ->
     pointTime q = (pointTime p + 1000)%Z) /\
  (forall p, last data = Some p -> pointTime p = now).
Proof.
  intros data. subst data.
  assert (Htime : forall k p,
    generateChartData Math_sin Math_random now count min max type !! k = Some p ->
    (k < count)%nat /\ pointTime p = (now - Z.of_nat (count - 1 - k) * 1000)%Z).
  { intros k p Hk. apply generateChartData_lookup in Hk as [Hlt ->]. auto. }
  split; [apply generateChartData_length|]. split; [|split].
  - intros k p Hk. now apply Htime in Hk.
  - intros k p q Hp Hq. apply Htime in Hp as [_ ->]. apply Htime in Hq as [Hlt ->].
    lia.
  - intros p. rewrite last_lookup, generateChartData_length. intros Hp.
    apply Htime in Hp as [Hlt ->]. lia.
Qed.

(** Before rounding every value is clamped into [[min, max]]. *)
Lemma chart_point_clamped (now : Z) (min max : Q) (type : string) (i : nat) (r : Q) :
  (min <= max)%Q ->
  exists value, (min <= value)%Q /\ (value <= max)%Q /\
    y (chart_point Math_sin now min max type i r) = Number_toFixed1 value.
Proof.
  intros Hle. unfold chart_point. cbv zeta. eexists. split; [|split; [|reflexivity]].
  - apply Q.le_max_l.
  - apply Q.max_lub; [exact Hle | apply Q.le_min_l].
Qed.

(** When [min <= max] both have one decimal, every value of the
    series lies in [[min, max]]. *)
Lemma generateChartData_in_range (now : Z) (count : nat) (a b : Z) (type : string)
    (p : DataPoint) :
  (a <= b)%Z ->
  p ∈ generateChartData Math_sin Math_random now count (a # 10) (b # 10) type ->
  (a # 10 <= y p)%Q /\ (y p <= b # 10)%Q.
Proof.
  intros Hab Hp. apply list_elem_of_lookup in Hp as [k Hk].
  apply generateChartData_lookup in Hk as [_ ->].
  destruct (chart_point_clamped now (a # 10) (b # 10) type (count - 1 - k)
              (Math_random k)) as (v & Hlo & Hhi & ->).
  { unfold Qle. simpl. lia. }
  now apply Number_toFixed1_between.
Qed.

(** With [min = max = 0.25] the clamped value is 0.25, and rounding
    it to one decimal gives 0.3. *)
Lemma generateChartData_quarter (now : Z) (type : string) :
  generateChartData Math_sin Math_random now 1 (1 # 4) (1 # 4) type =
  [ {| x := XDate now; y := 3 # 10 |} ].
Proof.
  unfold generateChartData. cbn [chart_loop app]. unfold chart_point. cbv zeta.
  f_equal. f_equal.
  - f_equal. lia.
  - match goal with |- Number_toFixed1 (Qmax _ (Qmin _ ?v)) = _ =>
      rewrite (Number_toFixed1_Qeq (Qmax (1 # 4) (Qmin (1 # 4) v)) (1 # 4))
    end; [reflexivity|].
    apply Q.max_l, Q.le_min_l.
Qed.

End ChartProperties.

(** C5, failing input.  [generateChartData(1, 0.25, 0.25, type)]
    returns one point whose value is 0.3 for every kind and every
    random draw: the value is clamped to 0.25, then rounded to one
    decimal, which puts it above [max]. *)
Theorem generateChartData_value_above_max
    (Math_sin : Q -> Q) (Math_random : nat -> Q) (now : Z) (type : string) :
  exists p,
    generateChartData Math_sin Math_random now 1 (1 # 4) (1 # 4) type = [p] /\
    (y p == 3 # 10)%Q /\ ~ (y p <= 1 # 4)%Q.
Proof.
  eexists. split; [apply generateChartData_quarter|]. simpl.
  split; [reflexivity|]. unfold Qle. simpl. lia.
Qed.

(** ** Keyword classifiers *)

(** C2, counterexample.  Neither classifier returns the optimization
    tag for "my system is slow and I need to optimize": the intent
    selection of [processQuery] returns 'general' and
    [categorizeCommand] returns 'system'. *)
Lemma classify_examples_fail :
  ~ classify_examples detectIntent /\ ~ classify_examples categorizeCommand.
Proof.
  split; intros [H _]; vm_compute in H; discriminate H.
Qed.

(** C2, amended.  The intent selection returns 'general' for "my
    system is slow and I need to optimize", whose words are not among
    its (Persian) keywords, and [categorizeCommand] returns 'system'
    for it, since the 'system' keywords are tried before the
    'optimization' ones.  Both return 'general' for "hello".  A query
    in which one of the optimization keywords occurs gets the tag
    'system_optimization' whatever file or network keywords it holds
    besides. *)
Theorem detectIntent_priority :
  detectIntent "my system is slow and I need to optimize" = "general" /\
  categorizeCommand "my system is slow and I need to optimize" = "system" /\
  detectIntent "hello" = "general" /\
  categorizeCommand "hello" = "general" /\
  (forall query,
     includes (toLowerCase query) "بهینه" = true \/
     includes (toLowerCase query) "سرعت" = true \/
     includes (toLowerCase query) "کند" = true ->
     detectIntent query = "system_optimization").
Proof.
  repeat (split; [vm_compute; reflexivity|]).
  intros query H. unfold detectIntent. cbv zeta.
  destruct H as [-> | [-> | ->]]; now rewrite ?orb_true_r.
Qed.

Lemma detectIntent_priority_witness :
  detectIntent "فایل های شبکه کند است" = "system_optimization".
Proof.
  apply detectIntent_priority. right. right. vm_compute. reflexivity.
Defined.

#[local] Arguments String.append : simpl nomatch.

(** ** JSON: reading back what was written *)

Lemma jsval_ind (P : jsval -> Prop) :
  P VUndefined -> P VNull -> (forall b, P (VBool b)) -> (forall n, P (VNum n)) ->
  (forall s, P (VStr s)) ->
  (forall items, Forall P items -> P (VArr items)) ->
  (forall fields, Forall (fun kv => P (snd kv)) fields -> P (VObj fields)) ->
  P VCyclic ->
  forall v, P v.
Proof.
  intros Hu Hn Hb Hz Hs Ha Ho Hc.
  fix IH 1. intros [| |b|n|s|items|fields|].
  - exact Hu.
  - exact Hn.
  - apply Hb.
  - apply Hz.
  - apply Hs.
  - apply Ha. induction items as [|item items IHitems]; constructor.
    + apply IH.
    + exact IHitems.
  - apply Ho. induction fields as [|[k value] fields IHfields]; constructor.
    + apply IH.
    + exact IHfields.
  - exact Hc.
Qed.

Lemma string_app_assoc (a b c : string) : (a ++ b) ++ c = a ++ (b ++ c).
Proof. induction a as [|x a IH]; simpl; [reflexivity | now rewrite IH]. Qed.

Lemma string_app_nil_r (a : string) : a ++ EmptyString = a.
Proof. induction a as [|x a IH]; simpl; [reflexivity | now rewrite IH]. Qed.

Lemma string_length_app (a b : string) :
  String.length (a ++ b) = (String.length a + String.length b)%nat.
Proof. induction a as [|x a IH]; simpl; [reflexivity | now rewrite IH]. Qed.

(** Reading the escape written for one byte gives the byte back. *)
Lemma scan_quote_char (c : ascii) (s : string) :
  scan_string (quote_char c ++ s) InChars None =
  prepend (String c EmptyString) (scan_string s InChars None).
Proof.
  destruct c as [[] [] [] [] [] [] [] []]; reflexivity.
Qed.

Lemma scan_quote_chars (s rest : string) :
  scan_string (quote_chars s ++ String dquote rest) InChars None = Some (s, rest).
Proof.
  induction s as [|c s IH]; [reflexivity|].
  cbn [quote_chars]. rewrite string_app_assoc, scan_quote_char, IH. reflexivity.
Qed.

(** *** Numbers *)

Lemma delimited_ends_number (rest : string) : delimited rest -> ends_number rest.
Proof.
  destruct rest as [|c rest]; [easy|].
  intros [-> | [-> | ->]]; repeat split; discriminate.
Qed.

Lemma span_digits_uint (d : Decimal.uint) (rest : string) :
  ends_number rest ->
  span_digits (NilEmpty.string_of_uint d ++ rest) = (NilEmpty.string_of_uint d, rest).
Proof.
  intros Hrest. induction d; cbn [NilEmpty.string_of_uint];
    try (change (String ?c ?s ++ rest) with (String c (s ++ rest));
         cbn [span_digits]; rewrite IHd; reflexivity).
  destruct rest as [|c rest]; [reflexivity|].
  destruct Hrest as (Hc & _). simpl. now rewrite Hc.
Qed.

Lemma to_uint_no_leading_zero (p : positive) (d : Decimal.uint) :
  Pos.to_uint p <> Decimal.D0 d.
Proof.
  intros Heq.
  pose proof (DecimalPos.Unsigned.to_of (Pos.to_uint p)) as Hnorm.
  rewrite DecimalPos.Unsigned.of_to in Hnorm. cbn [N.to_uint] in Hnorm.
  rewrite Heq in Hnorm. rewrite unorm_D0 in Hnorm.
  unfold Decimal.unorm in Hnorm.
  destruct (Decimal.nzhead d) eqn:Hd; try discriminate Hnorm.
  - injection Hnorm as ->. now apply (DecimalPos.Unsigned.to_uint_nonzero p).
  - injection Hnorm as Hnorm. subst d. now apply (nzhead_nonzero (Decimal.D0 u) u).
Qed.

Lemma string_of_uint_first (d : Decimal.uint) :
  d <> Decimal.Nil ->
  exists c r, NilEmpty.string_of_uint d = String c r /\
              (c = "0"%char -> exists d', d = Decimal.D0 d').
Proof.
  destruct d; intros Hd; try congruence; cbn [NilEmpty.string_of_uint];
    eexists _, _; (split; [reflexivity|]); intros Hc;
    try discriminate Hc; eauto.
Qed.

Lemma parse_digits_uint (d : Decimal.uint) (rest : string) :
  d <> Decimal.Nil ->
  (forall d', d = Decimal.D0 d' -> d' = Decimal.Nil) ->
  ends_number rest ->
  parse_digits (NilEmpty.string_of_uint d ++ rest) = Some (Z.of_uint d, rest).
Proof.
  intros Hnil Hzero Hrest. unfold parse_digits.
  rewrite span_digits_uint by exact Hrest.
  pose proof (NilZero.usu d Hnil) as Husu.
  unfold NilZero.string_of_uint in Husu.
  destruct (string_of_uint_first d Hnil) as (c & r & Hcr & Hc0).
  assert (Hs : match d with
               | Decimal.Nil => "0"
               | _ => NilEmpty.string_of_uint d
               end = String c r).
  { rewrite <- Hcr. destruct d; congruence. }
  rewrite Hs in Husu. rewrite Hcr.
  assert (Hlead : match String c r with
                  | String "0" (String _ _) => true
                  | _ => false
                  end = false).
  { destruct (Ascii.eqb_spec c "0") as [->|Hne].
    - destruct (Hc0 eq_refl) as [d' Hd']. rewrite (Hzero d' Hd') in Hd'.
      subst d. cbn in Hcr. injection Hcr as <-. reflexivity.
    - destruct c as [[] [] [] [] [] [] [] []]; try reflexivity. congruence. }
  rewrite Hlead.
  assert (Hcont :
    match rest with
    | String c _ => Ascii.eqb c "." || Ascii.eqb c "e" || Ascii.eqb c "E"
    | EmptyString => false
    end = false).
  { destruct rest as [|c' rest]; [reflexivity|].
    destruct Hrest as (_ & H1 & H2 & H3).
    apply Ascii.eqb_neq in H1, H2, H3. now rewrite H1, H2, H3. }
  rewrite Hcont. cbn [orb]. now rewrite Husu.
Qed.

Lemma parse_number_unsigned (s : string) :
  (forall r, s <> String "-" r) -> parse_number s = parse_digits s.
Proof.
  intros Hs. destruct s as [|c r]; [reflexivity|].
  destruct c as [[] [] [] [] [] [] [] []]; try reflexivity.
  exfalso. now apply (Hs r).
Qed.

Lemma string_of_uint_unsigned (d : Decimal.uint) (rest r : string) :
  d <> Decimal.Nil -> NilEmpty.string_of_uint d ++ rest <> String "-" r.
Proof.
  intros Hnil. destruct (string_of_uint_first d Hnil) as (c & r' & Hcr & _).
  destruct d; try congruence; cbn; discriminate.
Qed.

Lemma parse_number_text (n : Z) (rest : string) :
  ends_number rest ->
  parse_number (Z_to_string n ++ rest) = Some (n, rest).
Proof.
  intros Hrest. unfold Z_to_string.
  destruct n as [|p|p]; cbn [Z.to_int NilZero.string_of_int].
  - change (NilZero.string_of_uint (Decimal.D0 Decimal.Nil))
      with (NilEmpty.string_of_uint (Decimal.D0 Decimal.Nil)).
    rewrite parse_number_unsigned
      by (intros r; now apply string_of_uint_unsigned).
    rewrite parse_digits_uint; [reflexivity | discriminate | | exact Hrest].
    intros d' Hd'. now injection Hd' as <-.
  - pose proof (DecimalPos.Unsigned.to_uint_nonnil p) as Hnil.
    replace (NilZero.string_of_uint (Pos.to_uint p))
      with (NilEmpty.string_of_uint (Pos.to_uint p))
      by (unfold NilZero.string_of_uint; destruct (Pos.to_uint p); congruence).
    rewrite parse_number_unsigned
      by (intros r; now apply string_of_uint_unsigned).
    rewrite parse_digits_uint; [| exact Hnil | | exact Hrest].
    + unfold Z.of_uint. now rewrite DecimalPos.Unsigned.of_to.
    + intros d' Hd'. now apply to_uint_no_leading_zero in Hd'.
  - pose proof (DecimalPos.Unsigned.to_uint_nonnil p) as Hnil.
    replace (NilZero.string_of_uint (Pos.to_uint p))
      with (NilEmpty.string_of_uint (Pos.to_uint p))
      by (unfold NilZero.string_of_uint; destruct (Pos.to_uint p); congruence).
    cbn [append parse_number].
    rewrite parse_digits_uint; [| exact Hnil | | exact Hrest].
    + unfold Z.of_uint. now rewrite DecimalPos.Unsigned.of_to.
    + intros d' Hd'. now apply to_uint_no_leading_zero in Hd'.
Qed.

Lemma Z_to_string_first (n : Z) :
  exists c r, Z_to_string n = String c r /\ (is_digit c || Ascii.eqb c "-") = true.
Proof.
  unfold Z_to_string. destruct n as [|p|p]; cbn [Z.to_int NilZero.string_of_int].
  - eexists _, _. split; reflexivity.
  - pose proof (DecimalPos.Unsigned.to_uint_nonnil p) as Hnil.
    unfold NilZero.string_of_uint.
    destruct (Pos.to_uint p); try congruence; eexists _, _; split; reflexivity.
  - eexists _, _. split; reflexivity.
Qed.

Lemma parse_value_number (fuel : nat) (c : ascii) (r : string) :
  (is_digit c || Ascii.eqb c "-") = true ->
  parse_value (S fuel) (String c r) =
  match parse_number (String c r) with
  | Some (n, r') => Some (VNum n, r')
  | None => None
  end.
Proof.
  destruct c as [[] [] [] [] [] [] [] []]; intros Hc; try discriminate Hc; reflexivity.
Qed.

(** *** Values *)

Lemma is_json_arr (items : list jsval) :
  is_json (VArr items) = true <-> Forall (fun item => is_json item = true) items.
Proof.
  cbn [is_json]. rewrite forallb_forall, Forall_forall.
  setoid_rewrite list_elem_of_In. reflexivity.
Qed.

Lemma is_json_obj (fields : list (string * jsval)) :
  is_json (VObj fields) = true <->
  NoDup (map fst fields) /\ Forall (fun kv => is_json (snd kv) = true) fields.
Proof.
  cbn [is_json]. rewrite andb_true_iff, bool_decide_eq_true, forallb_forall, Forall_forall.
  setoid_rewrite list_elem_of_In. reflexivity.
Qed.

(** [JSON.stringify] succeeds on a JSON value and writes its text. *)
Lemma serialize_json (v : jsval) :
  is_json v = true -> serialize v = Normal (Some (json_text v)).
Proof.
  induction v as [| |b|n|s|items IH|fields IH|] using jsval_ind; intros Hv;
    try discriminate Hv; try reflexivity.
  - now destruct b.
  - apply is_json_arr in Hv. cbn [serialize json_text].
    assert (Hparts : serialize_elements serialize items = Normal (map json_text items)).
    { induction items as [|item items IHitems]; [reflexivity|].
      apply Forall_cons in IH as [IHitem IH]. apply Forall_cons in Hv as [Hitem Hv].
      cbn [serialize_elements]. rewrite (IHitem Hitem). cbn.
      fold (serialize_elements serialize items).
      rewrite (IHitems IH Hv). reflexivity. }
    rewrite Hparts. reflexivity.
  - apply is_json_obj in Hv as [_ Hv]. cbn [serialize json_text].
    assert (Hparts : serialize_members serialize fields =
      Normal (map (fun kv => JSON_quote (fst kv) ++ ":" ++ json_text (snd kv)) fields)).
    { induction fields as [|[key value] fields IHfields]; [reflexivity|].
      apply Forall_cons in IH as [IHvalue IH]. apply Forall_cons in Hv as [Hvalue Hv].
      cbn [fst snd] in *. cbn [serialize_members]. cbn [fst snd].
      rewrite (IHvalue Hvalue). cbn.
      fold (serialize_members serialize fields).
      rewrite (IHfields IH Hv). reflexivity. }
    rewrite Hparts. reflexivity.
Qed.

Lemma json_text_first (v : jsval) :
  is_json v = true ->
  exists c r, json_text v = String c r /\ starts_value c.
Proof.
  destruct v as [| |[]|n|s|items|fields|]; intros Hv; try discriminate Hv;
    try (eexists _, _; split; [reflexivity | repeat split; discriminate]).
  cbn [json_text].
  destruct (Z_to_string_first n) as (c & r & -> & Hc).
  exists c, r. split; [reflexivity|].
  destruct c as [[] [] [] [] [] [] [] []]; try discriminate Hc;
    repeat split; discriminate.
Qed.

Lemma skip_whitespace_value (c : ascii) (r : string) :
  starts_value c -> skip_whitespace (String c r) = String c r.
Proof. intros (Hc & _). cbn. now rewrite Hc. Qed.

Lemma parse_elements_text (items : list jsval) :
  items <> [] ->
  Forall (fun item => is_json item = true ->
            forall fuel rest, (weight item <= fuel)%nat -> delimited rest ->
            parse_value fuel (json_text item ++ rest) = Some (item, rest)) items ->
  Forall (fun item => is_json item = true) items ->
  forall fuel rest,
    (list_sum (map (fun item => S (weight item)) items) <= fuel)%nat ->
    parse_elements fuel (join_comma (map json_text items) ++ String "]" rest) =
    Some (items, rest).
Proof.
  induction items as [|item items IHitems]; [congruence|].
  intros _ IH Hjson fuel rest Hfuel.
  apply Forall_cons in IH as [IHitem IH]. apply Forall_cons in Hjson as [Hitem Hjson].
  simpl in Hfuel.
  destruct fuel as [|fuel]; [lia|]. cbn [parse_elements].
  destruct items as [|item' items].
  - cbn [map join_comma].
    rewrite (IHitem Hitem) by first [lia | cbn; auto]. reflexivity.
  - change (join_comma (map json_text (item :: item' :: items)))
      with (json_text item ++ "," ++ join_comma (map json_text (item' :: items))).
    rewrite string_app_assoc.
    rewrite (IHitem Hitem) by first [lia | cbn; auto].
    cbn [append skip_whitespace is_whitespace Ascii.eqb Bool.eqb orb].
    rewrite IHitems; [reflexivity | discriminate | exact IH | exact Hjson |].
    simpl in *. lia.
Qed.

Lemma define_property_fresh (key : string) (value : jsval)
    (fields : list (string * jsval)) :
  key ∉ map fst fields -> define_property key value fields = (key, value) :: fields.
Proof.
  intros Hfresh. unfold define_property.
  destruct (List.find _ fields) as [[k v]|] eqn:Hfind; [|reflexivity].
  apply find_some in Hfind as [Hin Hk]. cbn in Hk. apply String.eqb_eq in Hk. subst k.
  exfalso. apply Hfresh. apply list_elem_of_In. apply in_map_iff.
  exists (key, v). auto.
Qed.

Lemma parse_members_text (fields : list (string * jsval)) :
  fields <> [] ->
  Forall (fun kv => is_json (snd kv) = true ->
            forall fuel rest, (weight (snd kv) <= fuel)%nat -> delimited rest ->
            parse_value fuel (json_text (snd kv) ++ rest) = Some (snd kv, rest)) fields ->
  Forall (fun kv => is_json (snd kv) = true) fields ->
  NoDup (map fst fields) ->
  forall fuel rest,
    (list_sum (map (fun kv => S (weight (snd kv))) fields) <= fuel)%nat ->
    parse_members fuel
      (join_comma (map (fun kv => JSON_quote (fst kv) ++ ":" ++ json_text (snd kv)) fields)
       ++ String "}" rest) =
    Some (fields, rest).
Proof.
  induction fields as [|[key value] fields IHfields]; [congruence|].
  intros _ IH Hjson Hdup fuel rest Hfuel.
  apply Forall_cons in IH as [IHvalue IH]. apply Forall_cons in Hjson as [Hvalue Hjson].
  apply NoDup_cons in Hdup as [Hfresh Hdup].
  cbn [fst snd] in *. simpl in Hfuel.
  destruct fuel as [|fuel]; [lia|]. cbn [parse_members].
  destruct fields as [|kv fields].
  - cbn [map join_comma fst snd]. unfold JSON_quote.
    cbn [append skip_whitespace is_whitespace Ascii.eqb Bool.eqb orb dquote].
    rewrite !string_app_assoc. cbn [append].
    fold dquote. rewrite scan_quote_chars.
    cbn [append skip_whitespace is_whitespace Ascii.eqb Bool.eqb orb].
    rewrite (IHvalue Hvalue) by first [lia | cbn; auto]. reflexivity.
  - change (join_comma (map ?f ((key, value) :: kv :: fields)))
      with (f (key, value) ++ "," ++ join_comma (map f (kv :: fields))).
    cbn [fst snd]. unfold JSON_quote at 1.
    cbn [append skip_whitespace is_whitespace Ascii.eqb Bool.eqb orb dquote].
    rewrite !string_app_assoc. cbn [append].
    fold dquote. rewrite scan_quote_chars.
    cbn [append skip_whitespace is_whitespace Ascii.eqb Bool.eqb orb].
    rewrite (IHvalue Hvalue) by first [lia | cbn; auto].
    cbn [append skip_whitespace is_whitespace Ascii.eqb Bool.eqb orb].
    rewrite IHfields; [| discriminate | exact IH | exact Hjson | exact Hdup |].
    + now rewrite define_property_fresh.
    + simpl in *. lia.
Qed.

Lemma parse_value_array (fuel : nat) (c : ascii) (r : string) :
  starts_value c ->
  parse_value (S fuel) (String "[" (String c r)) =
  match parse_elements fuel (String c r) with
  | Some (items, r') => Some (VArr items, r')
  | None => None
  end.
Proof.
  intros (Hws & Hc & _).
  destruct c as [[] [] [] [] [] [] [] []]; try discriminate Hws; try reflexivity.
  congruence.
Qed.

Lemma parse_value_object (fuel : nat) (r : string) :
  parse_value (S fuel) (String "{" (String dquote r)) =
  match parse_members fuel (String dquote r) with
  | Some (fields, r') => Some (VObj fields, r')
  | None => None
  end.
Proof. reflexivity. Qed.

(** Reading the text of a JSON value gives the value back. *)
Lemma parse_json_text (v : jsval) :
  is_json v = true ->
  forall fuel rest, (weight v <= fuel)%nat -> delimited rest ->
  parse_value fuel (json_text v ++ rest) = Some (v, rest).
Proof.
  induction v as [| |b|n|s|items IH|fields IH|] using jsval_ind;
    intros Hv fuel rest Hfuel Hrest; try discriminate Hv;
    (destruct fuel as [|fuel]; [simpl in Hfuel; lia|]).
  - reflexivity.
  - now destruct b.
  - cbn [json_text].
    destruct (Z_to_string_first n) as (c & r & Hcr & Hc).
    pose proof (parse_number_text n rest (delimited_ends_number rest Hrest)) as Hnum.
    rewrite Hcr in *. cbn [append] in *.
    rewrite parse_value_number by exact Hc. now rewrite Hnum.
  - cbn [json_text]. unfold JSON_quote.
    cbn [append parse_value skip_whitespace is_whitespace Ascii.eqb Bool.eqb orb dquote].
    rewrite string_app_assoc. cbn [append]. fold dquote.
    now rewrite scan_quote_chars.
  - apply is_json_arr in Hv. cbn [json_text].
    destruct items as [|item items]; [reflexivity|].
    destruct (json_text_first item) as (c & r & Hcr & Hc).
    { now apply Forall_cons in Hv as [Hitem _]. }
    rewrite !string_app_assoc. cbn [append].
    assert (Hr : exists r', join_comma (map json_text (item :: items)) ++ String "]" rest
                            = String c r').
    { destruct items; cbn [map join_comma]; rewrite Hcr; eexists; reflexivity. }
    destruct Hr as [r' Hr]. rewrite Hr.
    rewrite (parse_value_array fuel c r' Hc). rewrite <- Hr.
    rewrite parse_elements_text; [reflexivity | discriminate | exact IH | exact Hv |].
    simpl in Hfuel. simpl. lia.
  - apply is_json_obj in Hv as [Hdup Hv]. cbn [json_text].
    destruct fields as [|[key value] fields]; [reflexivity|].
    set (J := join_comma _).
    rewrite !string_app_assoc. cbn [append].
    assert (Hr : exists r', J ++ String "}" rest = String dquote r').
    { subst J. destruct fields; cbn [map join_comma fst snd]; unfold JSON_quote;
        cbn [append]; eexists; reflexivity. }
    destruct Hr as [r' Hr]. rewrite Hr.
    rewrite (parse_value_object fuel r'). rewrite <- Hr. subst J.
    rewrite parse_members_text;
      [reflexivity | discriminate | exact IH | exact Hv | exact Hdup |].
    simpl in Hfuel. simpl. lia.
Qed.

Lemma join_comma_length (parts : list string) :
  (list_sum (map (fun p => S (String.length p)) parts)
   <= S (String.length (join_comma parts)))%nat.
Proof.
  induction parts as [|p parts IH]; [simpl; lia|].
  destruct parts as [|q parts]; [simpl; lia|].
  change (join_comma (p :: q :: parts)) with (p ++ "," ++ join_comma (q :: parts)).
  rewrite !string_length_app. simpl in *. lia.
Qed.

Lemma list_sum_le {A} (f g : A -> nat) (l : list A) :
  Forall (fun a => (f a <= g a)%nat) l ->
  (list_sum (map f l) <= list_sum (map g l))%nat.
Proof.
  induction 1 as [|a l Ha _ IH]; simpl; lia.
Qed.

Lemma weight_le_length (v : jsval) :
  is_json v = true -> (weight v <= String.length (json_text v))%nat.
Proof.
  induction v as [| |b|n|s|items IH|fields IH|] using jsval_ind; intros Hv;
    try discriminate Hv.
  - simpl. lia.
  - destruct b; simpl; lia.
  - cbn [weight json_text].
    destruct (Z_to_string_first n) as (c & r & -> & _). simpl. lia.
  - simpl. lia.
  - apply is_json_arr in Hv. cbn [weight json_text].
    rewrite !string_length_app. cbn [String.length].
    pose proof (join_comma_length (map json_text items)) as Hjoin.
    rewrite map_map in Hjoin.
    assert (Hsum : (list_sum (map (fun item => S (weight item)) items)
                    <= list_sum (map (fun x => S (String.length (json_text x))) items))%nat).
    { apply list_sum_le. apply Forall_forall. intros item Hin.
      rewrite Forall_forall in IH, Hv. specialize (IH item Hin (Hv item Hin)). lia. }
    lia.
  - apply is_json_obj in Hv as [_ Hv]. cbn [weight json_text].
    rewrite !string_length_app. cbn [String.length].
    pose proof (join_comma_length
                  (map (fun kv => JSON_quote (fst kv) ++ ":" ++ json_text (snd kv)) fields))
      as Hjoin.
    rewrite map_map in Hjoin.
    assert (Hsum :
      (list_sum (map (fun kv => S (weight (snd kv))) fields)
       <= list_sum (map (fun x => S (String.length
                                  (JSON_quote (fst x) ++ ":" ++ json_text (snd x))))
                      fields))%nat).
    { apply list_sum_le. apply Forall_forall. intros kv Hin.
      rewrite Forall_forall in IH, Hv. specialize (IH kv Hin (Hv kv Hin)).
      rewrite !string_length_app. lia. }
    lia.
Qed.

(** [JSON.parse(JSON.stringify(v))] is [v] for a JSON value. *)
Lemma JSON_parse_stringify (v : jsval) :
  is_json v = true ->
  JSON_stringify v = Normal (Some (json_text v)) /\
  JSON_parse (json_text v) = Normal v.
Proof.
  intros Hv. split; [now apply serialize_json|].
  unfold JSON_parse.
  pose proof (parse_json_text v Hv (S (String.length (json_text v))) EmptyString) as Hparse.
  rewrite string_app_nil_r in Hparse. rewrite Hparse; [reflexivity| |exact I].
  pose proof (weight_le_length v Hv). lia.
Qed.

(** ** LocalStorage management *)

Lemma json_text_nonempty (v : jsval) :
  is_json v = true -> String.eqb (json_text v) EmptyString = false.
Proof.
  intros Hv. destruct (json_text_first v Hv) as (c & r & -> & _). reflexivity.
Qed.

Lemma getItem_insert (store : Storage) (key text : string) :
  String.eqb text EmptyString = false ->
  getItem (<[key := text]> store) key = Some text.
Proof.
  intros Htext. unfold getItem. rewrite lookup_insert_eq. now rewrite Htext.
Qed.

Lemma is_json_storageData (data : jsval) (now : Z) :
  is_json data = true -> is_json (storageData data now) = true.
Proof.
  intros Hdata. unfold storageData. cbn [is_json map fst snd forallb].
  rewrite Hdata. reflexivity.
Qed.

(** *** Writing *)

Lemma bind_Normal {A B} (a : A) (k : A -> completion B) : (Normal a ≫= k) = k a.
Proof. reflexivity. Qed.

Lemma bind_Throw {A B} (e : js_error) (k : A -> completion B) :
  (Throw e ≫= k) = Throw e.
Proof. reflexivity. Qed.

Lemma encodeURIComponent_ascii (s : string) :
  is_ascii_text (encodeURIComponent s) = true.
Proof.
  unfold is_ascii_text. induction s as [|c s IH]; [reflexivity|].
  cbn [encodeURIComponent].
  assert (Hc : forall r, forallb (fun c => (N_of_ascii c <? 128)%N)
                   (list_ascii_of_string r) = true ->
               forallb (fun c => (N_of_ascii c <? 128)%N)
                 (list_ascii_of_string
                    ((if uri_unreserved c then String c EmptyString else percent_byte c)
                     ++ r)) = true).
  { intros r Hr. destruct c as [[] [] [] [] [] [] [] []]; cbn; exact Hr. }
  now apply Hc.
Qed.

Lemma latin1_bytes_ascii (s : string) :
  is_ascii_text s = true ->
  latin1_bytes s = Some (map N_of_ascii (list_ascii_of_string s)).
Proof.
  unfold is_ascii_text. induction s as [|c s IH]; [reflexivity|].
  cbn [list_ascii_of_string forallb map latin1_bytes].
  intros [Hc Hs]%andb_true_iff. rewrite Hc, (IH Hs). reflexivity.
Qed.

Lemma dataToSave_json (data useCompression : jsval) :
  is_json data = true ->
  dataToSave data useCompression =
  Normal (if compresses data useCompression then compressed data else data).
Proof.
  intros Hdata. unfold dataToSave, compresses.
  destruct (truthy useCompression && typeof_object data); [|reflexivity].
  unfold JSON_stringify. rewrite (serialize_json data Hdata). cbn.
  destruct (5000 <? js_length (json_text data))%N; [|reflexivity].
  unfold btoa.
  rewrite (latin1_bytes_ascii _ (encodeURIComponent_ascii (json_text data))).
  reflexivity.
Qed.

Lemma is_json_payload (data useCompression : jsval) :
  is_json data = true ->
  is_json (if compresses data useCompression then compressed data else data) = true.
Proof. intros Hdata. now destruct (compresses data useCompression). Qed.

(** Saving a JSON value succeeds and stores the text of its envelope. *)
Lemma saveToStorage_json (now : Z) (store : Storage) (key : string)
    (data useCompression : jsval) :
  is_json data = true ->
  saveToStorage now store key data useCompression =
  Normal (true,
          <[key := json_text
                     (storageData
                        (if compresses data useCompression then compressed data else data)
                        now)]> store).
Proof.
  intros Hdata. unfold saveToStorage.
  rewrite (dataToSave_json data useCompression Hdata), bind_Normal.
  unfold JSON_stringify.
  rewrite (serialize_json _ (is_json_storageData _ now
                               (is_json_payload data useCompression Hdata))).
  reflexivity.
Qed.

(** A value that [JSON.stringify] refuses is not saved. *)
Lemma saveToStorage_unserializable (now : Z) (store : Storage) (key : string)
    (data useCompression : jsval) (e : js_error) :
  serialize data = Throw e ->
  saveToStorage now store key data useCompression = Normal (false, store).
Proof.
  intros Hdata. unfold saveToStorage, dataToSave, JSON_stringify.
  destruct (truthy useCompression && typeof_object data).
  - rewrite Hdata, !bind_Throw. reflexivity.
  - rewrite bind_Normal. unfold storageData.
    cbn [serialize serialize_members fst snd].
    rewrite Hdata, !bind_Throw. reflexivity.
Qed.

Lemma saveToStorage_total (now : Z) (store : Storage) (key : string)
    (data useCompression : jsval) :
  exists b store',
    saveToStorage now store key data useCompression = Normal (b, store') /\
    (b = false -> store' = store) /\
    (b = true -> exists text, store' = <[key := text]> store).
Proof.
  unfold saveToStorage.
  destruct (dataToSave data useCompression) as [toSave|e].
  - rewrite bind_Normal.
    destruct (JSON_stringify (storageData toSave now)) as [text|e].
    + rewrite bind_Normal. eexists _, _. split; [reflexivity|].
      split; [discriminate|eauto].
    + rewrite bind_Throw. eexists _, _. split; [reflexivity|].
      split; [reflexivity|discriminate].
  - rewrite bind_Throw. eexists _, _. split; [reflexivity|].
    split; [reflexivity|discriminate].
Qed.

(** *** Reading *)

Lemma extract_total (data : jsval) : exists v, extract data = Normal v.
Proof.
  unfold extract. destruct (looks_compressed data) as [s|]; [|eauto].
  destruct (atob s) as [binary|e]; [rewrite bind_Normal|rewrite bind_Throw; eauto].
  destruct (decodeURIComponent binary) as [jsonStr|e];
    [rewrite bind_Normal|rewrite bind_Throw; eauto].
  destruct (JSON_parse jsonStr) as [v|e]; eauto.
Qed.

Lemma loadFromStorage_total (now : Z) (store : Storage) (key : string) :
  exists v store',
    loadFromStorage now store key = Normal (v, store') /\
    (store' = store \/ (v = VNull /\ store' = delete key store)).
Proof.
  unfold loadFromStorage.
  destruct (getItem store key) as [stored|]; [|eauto 6].
  destruct (JSON_parse stored) as [parsed|e];
    [rewrite bind_Normal|rewrite bind_Throw; eauto 6].
  destruct (get_property parsed "timestamp") as [timestamp|e];
    [rewrite bind_Normal|rewrite bind_Throw; eauto 6].
  destruct (difference_exceeds now (to_number timestamp) (Some EXPIRY_TIME));
    [eauto 8|].
  destruct (get_property parsed "value") as [data|e];
    [rewrite bind_Normal|rewrite bind_Throw; eauto 6].
  destruct (extract_total data) as [v ->]. rewrite bind_Normal. eauto 6.
Qed.

Lemma loadFromStorage_unparsable (now : Z) (store : Storage) (key text : string)
    (e : js_error) :
  store !! key = Some text -> JSON_parse text = Throw e ->
  loadFromStorage now store key = Normal (VNull, store).
Proof.
  intros Hkey Hparse. unfold loadFromStorage, getItem. rewrite Hkey.
  destruct (String.eqb text EmptyString); [reflexivity|].
  rewrite Hparse, bind_Throw. reflexivity.
Qed.

Lemma storageData_timestamp (data : jsval) (t : Z) :
  get_property (storageData data t) "timestamp" = Normal (VNum t).
Proof. reflexivity. Qed.

Lemma storageData_value (data : jsval) (t : Z) :
  get_property (storageData data t) "value" = Normal data.
Proof. reflexivity. Qed.

(** Reading an envelope written at time [t]: nothing, and the key is
    removed, once more than 30 days have passed; the extracted value
    before. *)
Lemma loadFromStorage_envelope (now t : Z) (store : Storage) (key : string)
    (data : jsval) :
  is_json data = true ->
  store !! key = Some (json_text (storageData data t)) ->
  loadFromStorage now store key =
  if (EXPIRY_TIME <? now - t)%Z then Normal (VNull, delete key store)
  else v ← extract data; Normal (v, store).
Proof.
  intros Hdata Hkey. unfold loadFromStorage, getItem. rewrite Hkey.
  pose proof (is_json_storageData data t Hdata) as Henv.
  rewrite (json_text_nonempty _ Henv).
  destruct (JSON_parse_stringify _ Henv) as [_ ->].
  rewrite bind_Normal, storageData_timestamp, bind_Normal, storageData_value, bind_Normal.
  cbn [to_number difference_exceeds].
  destruct (EXPIRY_TIME <? now - t)%Z; [reflexivity|].
  destruct (extract_total data) as [v ->]. reflexivity.
Qed.
(** *** The storage utilities of the [Utils] class *)

Lemma is_json_storageItem (value ttl : jsval) (now : Z) :
  is_json value = true -> is_json ttl = true ->
  is_json (storageItem value now ttl) = true.
Proof.
  intros Hvalue Httl. unfold storageItem. cbn [is_json map fst snd forallb].
  rewrite Hvalue, Httl. reflexivity.
Qed.

Lemma setLocalStorage_json (now : Z) (store : Storage) (key : string)
    (value ttl : jsval) :
  is_json value = true -> is_json (default_ttl ttl) = true ->
  setLocalStorage now store key value ttl =
  Normal (RUndefined,
          <[key := json_text (storageItem value now (default_ttl ttl))]> store).
Proof.
  intros Hvalue Httl. unfold setLocalStorage, JSON_stringify. cbv zeta.
  rewrite (serialize_json _ (is_json_storageItem value _ now Hvalue Httl)).
  reflexivity.
Qed.

(** Without a [try], what [JSON.stringify] throws leaves the call. *)
Lemma setLocalStorage_unserializable (now : Z) (store : Storage) (key : string)
    (value ttl : jsval) (e : js_error) :
  serialize value = Throw e ->
  setLocalStorage now store key value ttl = Throw e.
Proof.
  intros Hvalue. unfold setLocalStorage, JSON_stringify, storageItem. cbv zeta.
  cbn [serialize serialize_members fst snd].
  rewrite Hvalue, !bind_Throw. reflexivity.
Qed.

Lemma getLocalStorage_item (now t : Z) (store : Storage) (key : string)
    (value ttl : jsval) :
  is_json value = true -> is_json ttl = true ->
  store !! key = Some (json_text (storageItem value t ttl)) ->
  getLocalStorage now store key =
  if truthy ttl && difference_exceeds now (Some t) (to_number ttl)
  then Normal (VNull, delete key store)
  else Normal (value, store).
Proof.
  intros Hvalue Httl Hkey. unfold getLocalStorage, getItem. rewrite Hkey.
  pose proof (is_json_storageItem value ttl t Hvalue Httl) as Hitem.
  rewrite (json_text_nonempty _ Hitem).
  destruct (JSON_parse_stringify _ Hitem) as [_ ->].
  rewrite bind_Normal.
  change (get_property (storageItem value t ttl) "ttl") with (Normal ttl).
  rewrite bind_Normal.
  change (get_property (storageItem value t ttl) "timestamp") with (Normal (VNum t)).
  change (get_property (storageItem value t ttl) "value") with (Normal value).
  destruct (truthy ttl); [|reflexivity].
  rewrite !bind_Normal. cbn [to_number andb].
  now destruct (difference_exceeds now (Some t) (to_number ttl)).
Qed.

(** C9.  [saveToStorage] always returns a boolean: false, with the
    store untouched, when [JSON.stringify] throws on the data, and
    true for every JSON value.  [loadFromStorage] always returns a
    value, [null] standing for absent; a stored text that
    [JSON.parse] rejects gives [null].  Neither call ever throws. *)
Theorem storage_never_throws (now : Z) (store : Storage) (key : string)
    (data useCompression : jsval) :
  (exists b store',
     saveToStorage now store key data useCompression = Normal (b, store') /\
     (b = false -> store' = store)) /\
  (forall e, serialize data = Throw e ->
     saveToStorage now store key data useCompression = Normal (false, store)) /\
  (is_json data = true ->
     exists store', saveToStorage now store key data useCompression = Normal (true, store')) /\
  (exists v store', loadFromStorage now store key = Normal (v, store')) /\
  (forall text e, store !! key = Some text -> JSON_parse text = Throw e ->
     loadFromStorage now store key = Normal (VNull, store)).
Proof.
  split; [|split; [|split; [|split]]].
  - destruct (saveToStorage_total now store key data useCompression)
      as (b & store' & Hsave & Hfalse & _). eauto.
  - intros e. apply saveToStorage_unserializable.
  - intros Hdata. rewrite (saveToStorage_json now store key data useCompression Hdata).
    eauto.
  - destruct (loadFromStorage_total now store key) as (v & store' & Hload & _). eauto.
  - intros text e. apply loadFromStorage_unparsable.
Qed.

Lemma storage_never_throws_witness :
  saveToStorage 0 ∅ "k" (VObj [("self", VCyclic)]) VUndefined = Normal (false, ∅) /\
  loadFromStorage 0 (<["k" := "{oops"]> ∅) "k" = Normal (VNull, <["k" := "{oops"]> ∅).
Proof.
  split.
  - apply (storage_never_throws 0 ∅ "k" (VObj [("self", VCyclic)]) VUndefined)
      with (e := TypeError).
    reflexivity.
  - apply (storage_never_throws 0 (<["k" := "{oops"]> ∅) "k" VNull VUndefined)
      with (text := "{oops") (e := SyntaxError); reflexivity.
Defined.

(** *** Expiry *)

Lemma extract_plain (data : jsval) :
  looks_compressed data = None -> extract data = Normal data.
Proof. intros Hplain. unfold extract. now rewrite Hplain. Qed.

Lemma exceeds_iff (limit now elapsed : Z) :
  (limit <? now + elapsed - now)%Z = (limit <? elapsed)%Z.
Proof. f_equal. lia. Qed.

(** C3, counterexample.  An item stored at time 1000 with third
    argument 0 is still returned one millisecond later, by
    [loadFromStorage] as well as by [getLocalStorage]. *)
Lemma ttl_zero_contract_fails :
  ~ ttl_zero_contract saveToStorage loadFromStorage /\
  ~ ttl_zero_contract setLocalStorage getLocalStorage.
Proof.
  split; intros Hcontract.
  - destruct (Hcontract 1000%Z ∅ "k" (VNum 7) 1%Z _ _ eq_refl
                (saveToStorage_json 1000 ∅ "k" (VNum 7) (VNum 0) eq_refl))
      as [store2 Hload].
    rewrite (loadFromStorage_envelope _ 1000 _ "k" (VNum 7) eq_refl) in Hload
      by apply lookup_insert_eq.
    discriminate Hload.
  - destruct (Hcontract 1000%Z ∅ "k" (VNum 7) 1%Z _ _ eq_refl
                (setLocalStorage_json 1000 ∅ "k" (VNum 7) (VNum 0) eq_refl eq_refl))
      as [store2 Hload].
    rewrite (getLocalStorage_item _ 1000 _ "k" (VNum 7) (VNum 0) eq_refl eq_refl)
      in Hload by apply lookup_insert_eq.
    discriminate Hload.
Qed.

(** ** Chat history manager *)

Lemma unshift_capped_take (entry : jsval) (entries : list jsval) :
  (length entries <= 100)%nat ->
  unshift_capped entry entries = take 100 (entry :: entries).
Proof.
  intros Hlen. unfold unshift_capped. cbv zeta.
  destruct (100 <? length (entry :: entries))%nat eqn:Hfull.
  - apply Nat.ltb_lt in Hfull. cbn [length] in Hfull.
    rewrite removelast_firstn_len. f_equal. cbn [length]. lia.
  - apply Nat.ltb_ge in Hfull. symmetry. now apply firstn_all2.
Qed.

Lemma unshift_capped_length (entry : jsval) (entries : list jsval) :
  (length entries <= 100)%nat ->
  (length (unshift_capped entry entries) <= 100)%nat.
Proof.
  intros Hlen. rewrite unshift_capped_take by exact Hlen.
  rewrite length_take. lia.
Qed.

Lemma is_json_newEntry (now : Z) (id userInput aiResponse category : string) :
  is_json (newEntry now id userInput aiResponse category) = true.
Proof. reflexivity. Qed.

Lemma forallb_take {A} (f : A -> bool) (n : nat) (l : list A) :
  forallb f l = true -> forallb f (take n l) = true.
Proof.
  revert n. induction l as [|a l IH]; intros [|n] Hall; try reflexivity.
  cbn [forallb take] in *. apply andb_true_iff in Hall as [Ha Hl].
  now rewrite Ha, (IH n Hl).
Qed.

(** The log as read at time [now] from a store in good order. *)
Lemma chat_history_stored (now t : Z) (store : Storage) (entries : list jsval) :
  store !! CHAT_HISTORY = Some (json_text (storageData (VArr entries) t)) ->
  forallb is_json entries = true ->
  chat_history now store = if (EXPIRY_TIME <? now - t)%Z then [] else entries.
Proof.
  intros Hkey Hjson. unfold chat_history.
  rewrite (loadFromStorage_envelope now t store CHAT_HISTORY (VArr entries) Hjson Hkey).
  now destruct (EXPIRY_TIME <? now - t)%Z.
Qed.

Lemma chat_history_none (now : Z) (store : Storage) :
  store !! CHAT_HISTORY = None -> chat_history now store = [].
Proof.
  intros Hkey. unfold chat_history, loadFromStorage, getItem. now rewrite Hkey.
Qed.

Lemma chat_history_bound (now : Z) (store : Storage) :
  history_ok store ->
  (length (chat_history now store) <= 100)%nat /\
  forallb is_json (chat_history now store) = true.
Proof.
  intros [Hnone | (t & entries & Hkey & Hlen & Hjson)].
  - rewrite (chat_history_none now store Hnone). split; [cbn; lia|reflexivity].
  - rewrite (chat_history_stored now t store entries Hkey Hjson).
    destruct (EXPIRY_TIME <? now - t)%Z; [split; [cbn; lia|reflexivity]|auto].
Qed.

Lemma save_history (now : Z) (store : Storage) (entries : list jsval) :
  forallb is_json entries = true ->
  saveToStorage now store CHAT_HISTORY (VArr entries) VUndefined =
  Normal (true, <[CHAT_HISTORY := json_text (storageData (VArr entries) now)]> store).
Proof.
  intros Hjson.
  now rewrite (saveToStorage_json now store CHAT_HISTORY (VArr entries) VUndefined Hjson).
Qed.

(** One call on a store in good order: the entry is returned, and the
    store then holds, stamped [now], the log read before the call
    with the entry put in front and cut to 100. *)
Lemma addEntry_step (now : Z) (id : string) (store : Storage)
    (userInput aiResponse category : string) :
  history_ok store ->
  let entry := newEntry now id userInput aiResponse category in
  addEntry now id store userInput aiResponse category =
  Normal (entry,
          <[CHAT_HISTORY :=
              json_text (storageData
                           (VArr (unshift_capped entry (chat_history now store))) now)]>
            store).
Proof.
  intros Hok entry.
  assert (Hsave : forall entries store1,
    forallb is_json entries = true ->
    <[CHAT_HISTORY := json_text (storageData (VArr (unshift_capped entry entries)) now)]>
      store1 =
    <[CHAT_HISTORY := json_text (storageData (VArr (unshift_capped entry entries)) now)]>
      store ->
    (saved ← saveToStorage now store1 CHAT_HISTORY
               (VArr (unshift_capped entry entries)) VUndefined;
     Normal (entry, snd saved)) =
    Normal (entry,
            <[CHAT_HISTORY :=
                json_text (storageData (VArr (unshift_capped entry entries)) now)]>
              store)).
  { intros entries store1 Hjson Hstore. rewrite save_history.
    - rewrite bind_Normal. cbn [snd]. now rewrite Hstore.
    - unfold unshift_capped. cbv zeta.
      destruct (100 <? length (entry :: entries))%nat.
      + rewrite removelast_firstn_len. apply forallb_take.
        cbn [forallb]. now rewrite Hjson.
      + cbn [forallb]. now rewrite Hjson. }
  unfold addEntry. fold entry.
  destruct Hok as [Hnone | (t & entries & Hkey & Hlen & Hjson)].
  - rewrite (chat_history_none now store Hnone).
    unfold loadFromStorage, getItem. rewrite Hnone.
    unfold try_catch. rewrite bind_Normal. cbn [truthy].
    now apply Hsave.
  - rewrite (chat_history_stored now t store entries Hkey Hjson).
    rewrite (loadFromStorage_envelope now t store CHAT_HISTORY (VArr entries) Hjson Hkey).
    destruct (EXPIRY_TIME <? now - t)%Z.
    + rewrite bind_Normal. cbn [truthy].
      apply Hsave; [reflexivity|]. apply insert_delete_eq.
    + rewrite (extract_plain (VArr entries) eq_refl), !bind_Normal. cbn [truthy].
      now apply Hsave.
Qed.

Lemma addEntry_history_ok (now : Z) (id : string) (store : Storage)
    (userInput aiResponse category : string) :
  history_ok store ->
  exists store',
    addEntry now id store userInput aiResponse category =
      Normal (newEntry now id userInput aiResponse category, store') /\
    history_ok store' /\
    chat_history now store' =
      take 100 (newEntry now id userInput aiResponse category :: chat_history now store).
Proof.
  intros Hok. destruct (chat_history_bound now store Hok) as [Hlen Hjson].
  eexists. split; [now apply addEntry_step|].
  assert (Hjson' : forallb is_json
            (unshift_capped (newEntry now id userInput aiResponse category)
               (chat_history now store)) = true).
  { rewrite unshift_capped_take by exact Hlen. apply forallb_take.
    cbn [forallb]. now rewrite Hjson. }
  split.
  - right. eexists now, _. split; [apply lookup_insert_eq|]. split; [|exact Hjson'].
    now apply unshift_capped_length.
  - rewrite (chat_history_stored now now _ _ (lookup_insert_eq _ _ _) Hjson').
    rewrite Z.sub_diag. cbn [Z.ltb]. change (EXPIRY_TIME <? 0)%Z with false.
    now apply unshift_capped_take.
Qed.

Lemma addEntries_history_ok (calls : list Call) (store : Storage) :
  history_ok store ->
  exists store', addEntries calls store = Normal store' /\ history_ok store'.
Proof.
  revert store. induction calls as [|c calls IH]; intros store Hok; [eauto|].
  cbn [addEntries]. unfold call_addEntry.
  destruct (addEntry_history_ok (call_now c) (call_id c) store (call_userInput c)
              (call_aiResponse c) (call_category c) Hok) as (store1 & -> & Hok1 & _).
  rewrite bind_Normal. cbn [snd]. now apply IH.
Qed.

(** C4.  Start from a store whose chat history, if any, has at most
    100 entries, and make any sequence of [addEntry] calls.  Every
    call returns its entry, and the log read right after it is the
    log read right before it with the new entry put first, cut to
    100 entries: it never exceeds 100 entries, the new entry is first,
    and at the cap the oldest entry is the one dropped. *)
Theorem addEntry_capped_newest_first (calls : list Call) (c : Call) (store : Storage) :
  history_ok store ->
  exists store1 store2,
    addEntries calls store = Normal store1 /\
    call_addEntry c store1 = Normal (call_entry c, store2) /\
    addEntries (calls ++ [c]) store = Normal store2 /\
    let before := chat_history (call_now c) store1 in
    let after := chat_history (call_now c) store2 in
    (length before <= 100)%nat /\
    (length after <= 100)%nat /\
    after = take 100 (call_entry c :: before) /\
    head after = Some (call_entry c) /\
    (length before = 100%nat -> after = call_entry c :: removelast before) /\
    history_ok store2.
Proof.
  intros Hok.
  destruct (addEntries_history_ok calls store Hok) as (store1 & Hrun & Hok1).
  destruct (addEntry_history_ok (call_now c) (call_id c) store1 (call_userInput c)
              (call_aiResponse c) (call_category c) Hok1)
    as (store2 & Hadd & Hok2 & Hafter).
  destruct (chat_history_bound (call_now c) store1 Hok1) as [Hlen _].
  exists store1, store2. split; [exact Hrun|]. split; [exact Hadd|]. split.
  { clear - Hrun Hadd. revert store Hrun.
    induction calls as [|c0 calls IH]; intros store Hrun; cbn [addEntries app] in *.
    - injection Hrun as ->. unfold call_addEntry in *. now rewrite Hadd.
    - destruct (call_addEntry c0 store) as [[e s]|e]; [|discriminate Hrun].
      rewrite bind_Normal in *. now apply IH. }
  cbv zeta. fold (call_entry c) in Hafter. rewrite Hafter.
  split; [exact Hlen|]. split; [rewrite length_take; lia|].
  split; [reflexivity|]. split; [reflexivity|].
  split; [|exact Hok2].
  intros Hfull. change (take 100 (call_entry c :: ?l)) with (call_entry c :: take 99 l).
  f_equal. rewrite removelast_firstn_len, Hfull. reflexivity.
Qed.

Lemma addEntry_capped_newest_first_witness :
  exists store1 store2,
    addEntries [ {| call_now := 5; call_id := "a1"; call_userInput := "hi";
                    call_aiResponse := "hello"; call_category := "general" |} ]
      ∅ = Normal store1 /\
    call_addEntry
      {| call_now := 9; call_id := "b2"; call_userInput := "cpu";
         call_aiResponse := "ok"; call_category := "system" |} store1
    = Normal (call_entry
                {| call_now := 9; call_id := "b2"; call_userInput := "cpu";
                   call_aiResponse := "ok"; call_category := "system" |}, store2).
Proof.
  destruct (addEntry_capped_newest_first
              [ {| call_now := 5; call_id := "a1"; call_userInput := "hi";
                   call_aiResponse := "hello"; call_category := "general" |} ]
              {| call_now := 9; call_id := "b2"; call_userInput := "cpu";
                 call_aiResponse := "ok"; call_category := "system" |}
              ∅ (or_introl (lookup_empty CHAT_HISTORY)))
    as (store1 & store2 & H1 & H2 & _).
  exists store1, store2. split; assumption.
Defined.

(** ** Percent-encoding: decoding what was encoded *)

Lemma uri_decode_plain (c : ascii) (r : string) :
  sequence_length (N_of_ascii c) = 1%nat ->
  uri_decode ((if uri_unreserved c then String c EmptyString else percent_byte c) ++ r)
    UPlain [] 0 =
  (rest ← uri_decode r UPlain [] 0; Normal (String c rest)).
Proof.
  destruct c as [[] [] [] [] [] [] [] []]; intros Hc; vm_compute in Hc;
    try discriminate Hc; reflexivity.
Qed.

Lemma uri_decode_lead (c : ascii) (r : string) (n : nat) :
  sequence_length (N_of_ascii c) = S (S n) ->
  uri_decode ((if uri_unreserved c then String c EmptyString else percent_byte c) ++ r)
    UPlain [] 0 =
  uri_decode r UPlain [N_of_ascii c] (S n).
Proof.
  destruct c as [[] [] [] [] [] [] [] []]; intros Hc; vm_compute in Hc;
    try discriminate Hc; injection Hc as <-; reflexivity.
Qed.

Lemma uri_decode_middle (c : ascii) (r : string) (collected : list N) (n : nat) :
  is_continuation (N_of_ascii c) = true ->
  uri_decode ((if uri_unreserved c then String c EmptyString else percent_byte c) ++ r)
    UPlain collected (S (S n)) =
  uri_decode r UPlain (collected ++ [N_of_ascii c]) (S n).
Proof.
  destruct c as [[] [] [] [] [] [] [] []]; intros Hc; vm_compute in Hc;
    try discriminate Hc; reflexivity.
Qed.

Lemma uri_decode_final (c : ascii) (r : string) (collected : list N) :
  is_continuation (N_of_ascii c) = true ->
  valid_sequence (collected ++ [N_of_ascii c]) = true ->
  uri_decode ((if uri_unreserved c then String c EmptyString else percent_byte c) ++ r)
    UPlain collected 1 =
  (rest ← uri_decode r UPlain [] 0;
   Normal (byte_string (collected ++ [N_of_ascii c]) ++ rest)).
Proof.
  intros Hc Hv.
  transitivity
    (if valid_sequence (collected ++ [N_of_ascii c]) then
       rest ← uri_decode r UPlain [] 0;
       Normal (byte_string (collected ++ [N_of_ascii c]) ++ rest)
     else Throw URIError : completion string).
  - clear Hv. destruct c as [[] [] [] [] [] [] [] []]; vm_compute in Hc;
      try discriminate Hc; reflexivity.
  - now rewrite Hv.
Qed.
Lemma byte_string_chars (cs : list ascii) :
  byte_string (map N_of_ascii cs) = string_of_list_ascii cs.
Proof.
  unfold byte_string. rewrite map_map. f_equal.
  induction cs as [|c cs IH]; [reflexivity|]. cbn [map].
  now rewrite ascii_N_embedding, IH.
Qed.

Lemma encodeURIComponent_cons (c : ascii) (s : string) :
  encodeURIComponent (String c s) =
  (if uri_unreserved c then String c EmptyString else percent_byte c)
  ++ encodeURIComponent s.
Proof. reflexivity. Qed.

Lemma uri_decode_encode_length (n : nat) (s : string) :
  (String.length s <= n)%nat -> utf8_valid s = true ->
  uri_decode (encodeURIComponent s) UPlain [] 0 = Normal s.
Proof.
  revert s. induction n as [|n IH]; intros s Hlen Hvalid.
  - destruct s; [reflexivity|cbn in Hlen; lia].
  - destruct s as [|c0 r0]; [reflexivity|].
    cbn [utf8_valid] in Hvalid. cbn [String.length] in Hlen.
    rewrite encodeURIComponent_cons.
    destruct (sequence_length (N_of_ascii c0)) as [|[|[|[|[|k]]]]] eqn:Hseq;
      try discriminate Hvalid.
    + rewrite (uri_decode_plain c0 _ Hseq), IH by (assumption || lia). reflexivity.
    + destruct r0 as [|c1 r1]; [discriminate Hvalid|].
      apply andb_true_iff in Hvalid as [Hv Hrest].
      assert (Hc1 : is_continuation (N_of_ascii c1) = true).
      { unfold valid_sequence in Hv. now apply andb_true_iff in Hv as [_ ?]. }
      rewrite (uri_decode_lead c0 _ 0 Hseq), encodeURIComponent_cons.
      rewrite (uri_decode_final c1 _ [N_of_ascii c0] Hc1 Hv).
      cbn [String.length] in Hlen. rewrite IH by (assumption || lia).
      rewrite bind_Normal.
      change ([N_of_ascii c0] ++ [N_of_ascii c1])%list
        with (map N_of_ascii [c0; c1]).
      rewrite byte_string_chars. reflexivity.
    + destruct r0 as [|c1 [|c2 r2]]; try discriminate Hvalid.
      apply andb_true_iff in Hvalid as [Hv Hrest].
      assert (Hc : is_continuation (N_of_ascii c1) = true /\
                   is_continuation (N_of_ascii c2) = true).
      { unfold valid_sequence in Hv.
        repeat (apply andb_true_iff in Hv as [Hv ?]). auto. }
      destruct Hc as [Hc1 Hc2].
      rewrite (uri_decode_lead c0 _ 1 Hseq), encodeURIComponent_cons.
      rewrite (uri_decode_middle c1 _ [N_of_ascii c0] 0 Hc1), encodeURIComponent_cons.
      rewrite (uri_decode_final c2 _ ([N_of_ascii c0] ++ [N_of_ascii c1]) Hc2 Hv).
      cbn [String.length] in Hlen. rewrite IH by (assumption || lia).
      rewrite bind_Normal.
      change (([N_of_ascii c0] ++ [N_of_ascii c1]) ++ [N_of_ascii c2])%list
        with (map N_of_ascii [c0; c1; c2]).
      rewrite byte_string_chars. reflexivity.
    + destruct r0 as [|c1 [|c2 [|c3 r3]]]; try discriminate Hvalid.
      apply andb_true_iff in Hvalid as [Hv Hrest].
      assert (Hc : is_continuation (N_of_ascii c1) = true /\
                   is_continuation (N_of_ascii c2) = true /\
                   is_continuation (N_of_ascii c3) = true).
      { unfold valid_sequence in Hv.
        repeat (apply andb_true_iff in Hv as [Hv ?]). auto. }
      destruct Hc as (Hc1 & Hc2 & Hc3).
      rewrite (uri_decode_lead c0 _ 2 Hseq), encodeURIComponent_cons.
      rewrite (uri_decode_middle c1 _ [N_of_ascii c0] 1 Hc1), encodeURIComponent_cons.
      rewrite (uri_decode_middle c2 _ _ 0 Hc2), encodeURIComponent_cons.
      rewrite (uri_decode_final c3 _ (([N_of_ascii c0] ++ [N_of_ascii c1]) ++ [N_of_ascii c2]) Hc3 Hv).
      cbn [String.length] in Hlen. rewrite IH by (assumption || lia).
      rewrite bind_Normal.
      change ((([N_of_ascii c0] ++ [N_of_ascii c1]) ++ [N_of_ascii c2])
              ++ [N_of_ascii c3])%list
        with (map N_of_ascii [c0; c1; c2; c3]).
      rewrite byte_string_chars. reflexivity.
Qed.

(** [decodeURIComponent(encodeURIComponent(s))] is [s] for
    well-formed text. *)
Lemma decodeURIComponent_encodeURIComponent (s : string) :
  utf8_valid s = true -> decodeURIComponent (encodeURIComponent s) = Normal s.
Proof.
  intros Hvalid. unfold decodeURIComponent.
  now apply (uri_decode_encode_length (String.length s)).
Qed.
(** ** Base64: decoding what was encoded *)

Lemma below_64 (P : N -> bool) :
  forallb P (map N.of_nat (seq 0 64)) = true ->
  forall n, (n < 64)%N -> P n = true.
Proof.
  intros Hall n Hn. rewrite forallb_forall in Hall. apply Hall.
  apply in_map_iff. exists (N.to_nat n). split; [apply N2Nat.id|].
  apply in_seq. lia.
Qed.

Lemma base64_value_char (n : N) :
  (n < 64)%N -> base64_value (base64_char n) = Some n.
Proof.
  intros Hn.
  pose proof (below_64
    (fun n => match base64_value (base64_char n) with
              | Some m => (m =? n)%N
              | None => false
              end) eq_refl n Hn) as Hchar.
  cbv beta in Hchar.
  destruct (base64_value (base64_char n)) as [m|]; [|discriminate Hchar].
  apply N.eqb_eq in Hchar. now subst m.
Qed.

Lemma base64_char_plain (n : N) :
  (n < 64)%N ->
  Ascii.eqb (base64_char n) "=" = false /\
  (is_whitespace (base64_char n) || Ascii.eqb (base64_char n) "012") = false /\
  (N_of_ascii (base64_char n) <? 128)%N = true.
Proof.
  intros Hn.
  pose proof (below_64
    (fun n => negb (Ascii.eqb (base64_char n) "=") &&
              negb (is_whitespace (base64_char n) || Ascii.eqb (base64_char n) "012") &&
              (N_of_ascii (base64_char n) <? 128)%N) eq_refl n Hn) as Hchar.
  cbv beta in Hchar.
  apply andb_true_iff in Hchar as [Hchar H3].
  apply andb_true_iff in Hchar as [H1 H2].
  apply negb_true_iff in H1, H2. auto.
Qed.

Lemma sextets_in_range (b0 b1 b2 : N) :
  (b0 < 256)%N -> (b1 < 256)%N -> (b2 < 256)%N ->
  (b0 / 4 < 64)%N /\ ((b0 mod 4) * 16 + b1 / 16 < 64)%N /\
  ((b1 mod 16) * 4 + b2 / 64 < 64)%N /\ (b2 mod 64 < 64)%N /\
  ((b0 mod 4) * 16 < 64)%N /\ ((b1 mod 16) * 4 < 64)%N.
Proof.
  intros H0 H1 H2. zify. Z.to_euclidean_division_equations. lia.
Qed.

Lemma sextets_bytes_three (b0 b1 b2 : N) :
  (b0 < 256)%N -> (b1 < 256)%N -> (b2 < 256)%N ->
  sextets_bytes [b0 / 4; (b0 mod 4) * 16 + b1 / 16;
                 (b1 mod 16) * 4 + b2 / 64; b2 mod 64]%N = [b0; b1; b2].
Proof.
  intros H0 H1 H2. cbn [sextets_bytes].
  repeat f_equal; zify; Z.to_euclidean_division_equations; lia.
Qed.

Lemma sextets_bytes_two (b0 b1 : N) :
  (b0 < 256)%N -> (b1 < 256)%N ->
  sextets_bytes [b0 / 4; (b0 mod 4) * 16 + b1 / 16; (b1 mod 16) * 4]%N = [b0; b1].
Proof.
  intros H0 H1. cbn [sextets_bytes].
  repeat f_equal; zify; Z.to_euclidean_division_equations; lia.
Qed.

Lemma sextets_bytes_one (b0 : N) :
  (b0 < 256)%N ->
  sextets_bytes [b0 / 4; (b0 mod 4) * 16]%N = [b0].
Proof.
  intros H0. cbn [sextets_bytes].
  repeat f_equal; zify; Z.to_euclidean_division_equations; lia.
Qed.
Lemma decode_group_chars (vs : list N) :
  Forall (fun v => (v < 64)%N) vs ->
  decode_group (map base64_char vs) = Some (sextets_bytes vs).
Proof.
  intros Hvs. unfold decode_group.
  assert (Hvalues : base64_values (map base64_char vs) = Some vs).
  { induction Hvs as [|v vs Hv _ IH]; [reflexivity|].
    cbn [map base64_values]. now rewrite (base64_value_char v Hv), IH. }
  now rewrite Hvalues.
Qed.

Lemma base64_encode_nonempty (b : N) (bytes : list N) :
  exists c s, base64_encode (b :: bytes) = String c s.
Proof.
  destruct bytes as [|b1 [|b2 rest]]; cbn [base64_encode]; eauto.
Qed.

Lemma base64_decode_group (a b c d e : ascii) (rest : string) :
  base64_decode (String a (String b (String c (String d (String e rest))))) =
  match decode_group [a; b; c; d], base64_decode (String e rest) with
  | Some bytes, Some more => Some (bytes ++ more)%list
  | _, _ => None
  end.
Proof. reflexivity. Qed.

Lemma base64_decode_encode_length (n : nat) (bytes : list N) :
  (length bytes <= n)%nat -> Forall (fun b => (b < 256)%N) bytes ->
  base64_decode (base64_encode bytes) = Some bytes.
Proof.
  revert bytes. induction n as [n IH] using lt_wf_ind. intros bytes Hlen Hbytes.
  destruct bytes as [|b0 [|b1 [|b2 rest]]].
  - reflexivity.
  - apply Forall_cons in Hbytes as [H0 _].
    destruct (sextets_in_range b0 0 0 H0 eq_refl eq_refl) as (S0 & _ & _ & _ & S1 & _).
    cbn [base64_encode base64_decode]. cbn [Ascii.eqb Bool.eqb].
    pose proof (decode_group_chars [b0 / 4; (b0 mod 4) * 16]%N) as Hgroup.
    cbn [map] in Hgroup. rewrite Hgroup by (repeat constructor; assumption).
    now rewrite sextets_bytes_one.
  - apply Forall_cons in Hbytes as [H0 Hbytes]. apply Forall_cons in Hbytes as [H1 _].
    destruct (sextets_in_range b0 b1 0 H0 H1 eq_refl) as (S0 & S1 & _ & _ & _ & S2).
    cbn [base64_encode base64_decode]. cbn [Ascii.eqb Bool.eqb].
    destruct (base64_char_plain _ S2) as (Hpad & _). rewrite Hpad.
    pose proof (decode_group_chars
                  [b0 / 4; (b0 mod 4) * 16 + b1 / 16; (b1 mod 16) * 4]%N) as Hgroup.
    cbn [map] in Hgroup. rewrite Hgroup by (repeat constructor; assumption).
    now rewrite sextets_bytes_two.
  - apply Forall_cons in Hbytes as [H0 Hbytes]. apply Forall_cons in Hbytes as [H1 Hbytes].
    apply Forall_cons in Hbytes as [H2 Hbytes].
    destruct (sextets_in_range b0 b1 b2 H0 H1 H2) as (S0 & S1 & S2 & S3 & _ & _).
    cbn [base64_encode].
    assert (Hgroup :
      decode_group [base64_char (b0 / 4); base64_char ((b0 mod 4) * 16 + b1 / 16);
                    base64_char ((b1 mod 16) * 4 + b2 / 64); base64_char (b2 mod 64)]
      = Some [b0; b1; b2]).
    { pose proof (decode_group_chars
                    [b0 / 4; (b0 mod 4) * 16 + b1 / 16; (b1 mod 16) * 4 + b2 / 64;
                     b2 mod 64]%N) as Hgroup.
      cbn [map] in Hgroup. rewrite Hgroup by (repeat constructor; assumption).
      now rewrite sextets_bytes_three. }
    destruct rest as [|b3 rest].
    + cbn [base64_encode base64_decode].
      destruct (base64_char_plain _ S3) as (Hpad & _). rewrite Hpad.
      exact Hgroup.
    + destruct (base64_encode_nonempty b3 rest) as (c & s & Hcs).
      assert (Hrest : base64_decode (base64_encode (b3 :: rest)) = Some (b3 :: rest)).
      { apply (IH (length (b3 :: rest))); [cbn [length] in *; lia|lia|exact Hbytes]. }
      rewrite Hcs in *. now rewrite base64_decode_group, Hgroup, Hrest.
Qed.

Lemma base64_decode_encode (bytes : list N) :
  Forall (fun b => (b < 256)%N) bytes ->
  base64_decode (base64_encode bytes) = Some bytes.
Proof. now apply (base64_decode_encode_length (length bytes)). Qed.
Lemma list_ind3 {A} (P : list A -> Prop) :
  P [] -> (forall a, P [a]) -> (forall a b, P [a; b]) ->
  (forall a b c l, P l -> P (a :: b :: c :: l)) ->
  forall l, P l.
Proof.
  intros H0 H1 H2 H3. fix IH 1. intros [|a [|b [|c l]]].
  - exact H0.
  - apply H1.
  - apply H2.
  - apply H3, IH.
Qed.

Lemma base64_char_text (n : N) : (n < 64)%N -> base64_text_char (base64_char n) = true.
Proof. apply (below_64 (fun n => base64_text_char (base64_char n))). reflexivity. Qed.

Lemma base64_encode_text (bytes : list N) :
  Forall (fun b => (b < 256)%N) bytes ->
  forallb base64_text_char (list_ascii_of_string (base64_encode bytes)) = true.
Proof.
  induction bytes as [|b0|b0 b1|b0 b1 b2 rest IH] using list_ind3; intros Hbytes.
  - reflexivity.
  - apply Forall_cons in Hbytes as [H0 _].
    destruct (sextets_in_range b0 0 0 H0 eq_refl eq_refl) as (S0 & _ & _ & _ & S1 & _).
    cbn [base64_encode list_ascii_of_string forallb].
    now rewrite !base64_char_text.
  - apply Forall_cons in Hbytes as [H0 Hbytes]. apply Forall_cons in Hbytes as [H1 _].
    destruct (sextets_in_range b0 b1 0 H0 H1 eq_refl) as (S0 & S1 & _ & _ & _ & S2).
    cbn [base64_encode list_ascii_of_string forallb].
    now rewrite !base64_char_text.
  - apply Forall_cons in Hbytes as [H0 Hbytes]. apply Forall_cons in Hbytes as [H1 Hbytes].
    apply Forall_cons in Hbytes as [H2 Hbytes].
    destruct (sextets_in_range b0 b1 b2 H0 H1 H2) as (S0 & S1 & S2 & S3 & _ & _).
    cbn [base64_encode list_ascii_of_string forallb].
    rewrite !base64_char_text by assumption. now rewrite IH.
Qed.

Lemma base64_encode_length (bytes : list N) :
  (length bytes <= String.length (base64_encode bytes))%nat.
Proof.
  induction bytes as [|b0|b0 b1|b0 b1 b2 rest IH] using list_ind3;
    cbn [base64_encode String.length length] in *; lia.
Qed.

Lemma text_chars (ok : ascii -> bool) (s : string) :
  forallb ok (list_ascii_of_string s) = true ->
  (forall c, ok c = true -> base64_text_char c = true) ->
  remove_whitespace s = s /\
  is_ascii_text s = true /\
  (s <> EmptyString -> base64_shape s = true).
Proof.
  intros Hall Hok.
  assert (Htext : forallb base64_text_char (list_ascii_of_string s) = true).
  { rewrite forallb_forall in *. auto. }
  clear Hall Hok. split; [|split].
  - induction s as [|c s IH]; [reflexivity|].
    cbn [list_ascii_of_string forallb] in Htext.
    apply andb_true_iff in Htext as [Hc Hs]. cbn [remove_whitespace].
    unfold base64_text_char in Hc.
    apply andb_true_iff in Hc as [Hc _]. apply andb_true_iff in Hc as [_ Hc].
    apply negb_true_iff in Hc. rewrite Hc. now rewrite (IH Hs).
  - unfold is_ascii_text. rewrite forallb_forall in *. intros c Hc.
    specialize (Htext c Hc). unfold base64_text_char in Htext.
    now apply andb_true_iff in Htext as [_ ?].
  - intros Hne. unfold base64_shape.
    destruct s as [|c s]; [congruence|]. cbn [String.eqb negb andb].
    rewrite forallb_forall in *. intros c' Hc'.
    specialize (Htext c' Hc'). unfold base64_text_char in Htext.
    apply andb_true_iff in Htext as [Htext _].
    now apply andb_true_iff in Htext as [? _].
Qed.

Lemma js_length_ascii (s : string) :
  is_ascii_text s = true -> js_length s = N.of_nat (String.length s).
Proof.
  unfold is_ascii_text. induction s as [|c s IH]; [reflexivity|].
  cbn [list_ascii_of_string forallb js_length String.length].
  intros [Hc Hs]%andb_true_iff. rewrite Hc, (IH Hs). lia.
Qed.

Lemma js_length_bound (s : string) :
  (js_length s <= 2 * N.of_nat (String.length s))%N.
Proof.
  induction s as [|c s IH]; [reflexivity|].
  cbn [js_length String.length].
  destruct (N_of_ascii c <? 128)%N; [lia|].
  destruct (N_of_ascii c <? 192)%N; [lia|].
  destruct (N_of_ascii c <? 240)%N; lia.
Qed.

Lemma encodeURIComponent_length (s : string) :
  (String.length s <= String.length (encodeURIComponent s))%nat.
Proof.
  induction s as [|c s IH]; [reflexivity|].
  rewrite encodeURIComponent_cons, string_length_app.
  destruct (uri_unreserved c); cbn [String.length percent_byte]; lia.
Qed.

Lemma list_ascii_length (s : string) :
  length (list_ascii_of_string s) = String.length s.
Proof. induction s as [|c s IH]; [reflexivity|]. cbn. now rewrite IH. Qed.

Lemma latin1_string_ascii (s : string) :
  is_ascii_text s = true ->
  latin1_string (map N_of_ascii (list_ascii_of_string s)) = s.
Proof.
  unfold is_ascii_text. induction s as [|c s IH]; [reflexivity|].
  cbn [list_ascii_of_string forallb map latin1_string].
  intros [Hc Hs]%andb_true_iff. rewrite (IH Hs).
  unfold utf8_encode, utf8_bytes. rewrite Hc.
  unfold byte_string. cbn [map string_of_list_ascii].
  now rewrite ascii_N_embedding.
Qed.

Lemma bytes_in_range (s : string) :
  Forall (fun b => (b < 256)%N) (map N_of_ascii (list_ascii_of_string s)).
Proof.
  apply Forall_forall. intros b Hb. apply list_elem_of_In in Hb.
  apply in_map_iff in Hb as (c & <- & _). apply N_ascii_bounded.
Qed.

(** [atob(btoa(s))] is [s] for text below 128. *)
Lemma atob_btoa (s : string) :
  is_ascii_text s = true ->
  btoa s = Normal (base64_encode (map N_of_ascii (list_ascii_of_string s))) /\
  atob (base64_encode (map N_of_ascii (list_ascii_of_string s))) = Normal s.
Proof.
  intros Hs. split.
  - unfold btoa. now rewrite (latin1_bytes_ascii s Hs).
  - unfold atob.
    destruct (text_chars base64_text_char _
                (base64_encode_text _ (bytes_in_range s)) (fun c H => H))
      as (Hws & _).
    rewrite Hws, (base64_decode_encode _ (bytes_in_range s)).
    now rewrite (latin1_string_ascii s Hs).
Qed.
(** ** Round trip through the storage *)

Lemma looks_compressed_compressed (data : jsval) :
  (5000 < js_length (json_text data))%N ->
  looks_compressed (compressed data) =
  Some (base64_encode
          (map N_of_ascii (list_ascii_of_string (encodeURIComponent (json_text data))))).
Proof.
  intros Hlong. unfold compressed, looks_compressed.
  set (text := json_text data) in *.
  set (bytes := map N_of_ascii (list_ascii_of_string (encodeURIComponent text))).
  destruct (text_chars base64_text_char (base64_encode bytes)
              (base64_encode_text bytes (bytes_in_range _)) (fun c H => H))
    as (_ & Hascii & Hshape).
  pose proof (js_length_bound text) as Hbound.
  pose proof (encodeURIComponent_length text) as Huri.
  pose proof (base64_encode_length bytes) as Hb64.
  assert (Hbytes : length bytes = String.length (encodeURIComponent text)).
  { unfold bytes. now rewrite length_map, list_ascii_length. }
  rewrite (js_length_ascii _ Hascii).
  assert (Hlen : (100 <? N.of_nat (String.length (base64_encode bytes)))%N = true)
    by (apply N.ltb_lt; lia).
  rewrite Hlen, Hshape; [reflexivity|].
  intros Hempty. rewrite Hempty in Hb64. cbn [String.length] in Hb64. lia.
Qed.

(** What [saveToStorage] compressed, [loadFromStorage] extracts. *)
Lemma extract_compressed (data : jsval) :
  is_json data = true -> utf8_valid (json_text data) = true ->
  (5000 < js_length (json_text data))%N ->
  extract (compressed data) = Normal data.
Proof.
  intros Hdata Hutf8 Hlong. unfold extract.
  rewrite (looks_compressed_compressed data Hlong).
  destruct (atob_btoa _ (encodeURIComponent_ascii (json_text data))) as [_ ->].
  rewrite bind_Normal, (decodeURIComponent_encodeURIComponent _ Hutf8), bind_Normal.
  destruct (JSON_parse_stringify data Hdata) as [_ ->]. reflexivity.
Qed.

Lemma extract_object (data : jsval) :
  typeof_object data = true -> extract data = Normal data.
Proof. intros Hobject. apply extract_plain. now destruct data. Qed.

(** A string that [loadFromStorage] takes for compressed data: the
    Base64 text of 75 spaces followed by [null]. *)
Lemma extract_base64_null :
  let text := "ICAgICAgICAgICAgICAgICAgICAgICAgICAgICAgICAgICAgICAgICAgICAgICAgICAgICAgICAgICAgICAgICAgICAgICAgICAgbnVsbA==" in
  is_json (VStr text) = true /\ looks_compressed (VStr text) = Some text /\
  extract (VStr text) = Normal VNull.
Proof. vm_compute. repeat split. Qed.

(** C3, amended.  [saveToStorage] takes no ttl: whatever its third
    argument (0 included), the item it stores is still held while at
    most 30 days have passed -- [loadFromStorage] returns a value and
    keeps the key -- and is absent, its key removed, once more than 30
    days have passed.  The value returned within the 30 days is the
    stored one, unless that is a string of more than 100 characters
    made of Base64 characters only: [loadFromStorage] takes such a
    string for compressed data and returns what it decodes to, which
    can be [null] (last part).  With [Utils.setLocalStorage] an item
    stored with a positive ttl is given back by
    [Utils.getLocalStorage] while at most ttl milliseconds have passed
    and is absent afterwards; stored without ttl it is given back at
    every later time. *)
Theorem stored_item_expiry (now elapsed : Z) (store : Storage) (key : string)
    (value : jsval) :
  is_json value = true ->
  (forall third, exists store1,
     saveToStorage now store key value third = Normal (true, store1) /\
     ((EXPIRY_TIME < elapsed)%Z ->
        loadFromStorage (now + elapsed) store1 key = Normal (VNull, delete key store1)) /\
     ((elapsed <= EXPIRY_TIME)%Z ->
        exists v, loadFromStorage (now + elapsed) store1 key = Normal (v, store1) /\
                  (looks_compressed value = None ->
                   (compresses value third = true ->
                    utf8_valid (json_text value) = true) ->
                   v = value))) /\
  (forall ttl, (0 < ttl)%Z -> exists store1,
     setLocalStorage now store key value (VNum ttl) = Normal (RUndefined, store1) /\
     ((ttl < elapsed)%Z ->
        getLocalStorage (now + elapsed) store1 key = Normal (VNull, delete key store1)) /\
     ((elapsed <= ttl)%Z ->
        getLocalStorage (now + elapsed) store1 key = Normal (value, store1))) /\
  (forall ttl, ttl = VNull \/ ttl = VUndefined -> exists store1,
     setLocalStorage now store key value ttl = Normal (RUndefined, store1) /\
     getLocalStorage (now + elapsed) store1 key = Normal (value, store1)) /\
  (exists text store1,
     looks_compressed (VStr text) = Some text /\
     saveToStorage now store key (VStr text) (VNum 0) = Normal (true, store1) /\
     loadFromStorage (now + 1) store1 key = Normal (VNull, store1)).
Proof.
  intros Hvalue. split; [|split; [|split]].
  - intros third. eexists. split; [now apply saveToStorage_json|].
    pose proof (is_json_payload value third Hvalue) as Hpayload.
    rewrite (loadFromStorage_envelope _ now _ key _ Hpayload)
      by apply lookup_insert_eq.
    rewrite exceeds_iff. split.
    + intros Hlate. apply Z.ltb_lt in Hlate. now rewrite Hlate.
    + intros Hearly. apply Z.ltb_ge in Hearly. rewrite Hearly.
      destruct (extract_total
                  (if compresses value third then compressed value else value))
        as [v Hv].
      exists v. rewrite Hv. split; [reflexivity|].
      intros Hshape Hutf8. destruct (compresses value third) eqn:Hcompress.
      * unfold compresses in Hcompress.
        apply andb_true_iff in Hcompress as [_ Hlong]. apply N.ltb_lt in Hlong.
        rewrite (extract_compressed value Hvalue (Hutf8 eq_refl) Hlong) in Hv.
        congruence.
      * rewrite (extract_plain value Hshape) in Hv. congruence.
  - intros ttl Hpos. eexists.
    split; [now apply (setLocalStorage_json now store key value (VNum ttl))|].
    cbn [default_ttl].
    rewrite (getLocalStorage_item _ now _ key value (VNum ttl) Hvalue eq_refl)
      by apply lookup_insert_eq.
    cbn [truthy to_number difference_exceeds]. rewrite exceeds_iff.
    assert (Httl : (ttl =? 0)%Z = false) by (apply Z.eqb_neq; lia).
    rewrite Httl. cbn [negb andb]. split.
    + intros Hlate. apply Z.ltb_lt in Hlate. now rewrite Hlate.
    + intros Hearly. apply Z.ltb_ge in Hearly. now rewrite Hearly.
  - intros ttl Httl. eexists.
    split; [apply (setLocalStorage_json now store key value ttl Hvalue);
            destruct Httl as [-> | ->]; reflexivity|].
    rewrite (getLocalStorage_item _ now _ key value (default_ttl ttl) Hvalue)
      by (try apply lookup_insert_eq; destruct Httl as [-> | ->]; reflexivity).
    destruct Httl as [-> | ->]; reflexivity.
  - destruct extract_base64_null as (Hjson & Hshape & Hextract). cbv zeta in *.
    eexists _, _. split; [exact Hshape|].
    split; [now apply saveToStorage_json|].
    pose proof (is_json_payload _ (VNum 0) Hjson) as Hpayload.
    rewrite (loadFromStorage_envelope _ now _ key _ Hpayload)
      by apply lookup_insert_eq.
    rewrite exceeds_iff. change (EXPIRY_TIME <? 1)%Z with false. cbv iota.
    change (compresses (VStr ?t) (VNum 0)) with false. cbv iota.
    now rewrite Hextract.
Qed.

Lemma stored_item_expiry_witness :
  exists store1,
    saveToStorage 1000 ∅ "k" (VStr "v") (VNum 0) = Normal (true, store1) /\
    ((EXPIRY_TIME < 1)%Z ->
       loadFromStorage (1000 + 1) store1 "k" = Normal (VNull, delete "k" store1)) /\
    ((1 <= EXPIRY_TIME)%Z ->
       exists v, loadFromStorage (1000 + 1) store1 "k" = Normal (v, store1) /\
                 (looks_compressed (VStr "v") = None ->
                  (compresses (VStr "v") (VNum 0) = true ->
                   utf8_valid (json_text (VStr "v")) = true) ->
                  v = VStr "v")).
Proof.
  apply (stored_item_expiry 1000 1 ∅ "k" (VStr "v")).
  reflexivity.
Defined.

(** C8.  For a JSON object or array (its text well-formed UTF-8),
    [saveToStorage] followed at once by [loadFromStorage] gives back
    an equal value, whether or not the payload was Base64-encoded on
    the way.  What the store holds under the key is a text, so the
    value handed back is one that [JSON.parse] built anew from it. *)
Theorem storage_round_trip (now : Z) (store : Storage) (key : string)
    (value useCompression : jsval) :
  is_json value = true -> typeof_object value = true ->
  utf8_valid (json_text value) = true ->
  exists store1,
    saveToStorage now store key value useCompression = Normal (true, store1) /\
    store1 !! key =
      Some (json_text
              (storageData
                 (if compresses value useCompression then compressed value else value)
                 now)) /\
    loadFromStorage now store1 key = Normal (value, store1).
Proof.
  intros Hvalue Hobject Hutf8. eexists.
  split; [now apply saveToStorage_json|].
  split; [apply lookup_insert_eq|].
  rewrite (loadFromStorage_envelope now now _ key _
             (is_json_payload value useCompression Hvalue))
    by apply lookup_insert_eq.
  rewrite Z.sub_diag. change (EXPIRY_TIME <? 0)%Z with false. cbv iota.
  destruct (compresses value useCompression) eqn:Hcompress.
  - unfold compresses in Hcompress.
    apply andb_true_iff in Hcompress as [_ Hlong]. apply N.ltb_lt in Hlong.
    now rewrite (extract_compressed value Hvalue Hutf8 Hlong).
  - now rewrite (extract_object value Hobject).
Qed.

Lemma storage_round_trip_witness :
  (exists store1,
     saveToStorage 1000 ∅ "k" small_example (VBool true) = Normal (true, store1) /\
     store1 !! "k" =
       Some (json_text
               (storageData
                  (if compresses small_example (VBool true)
                   then compressed small_example else small_example) 1000)) /\
     loadFromStorage 1000 store1 "k" = Normal (small_example, store1)) /\
  compresses large_example (VBool true) = true /\
  (exists store1,
     saveToStorage 1000 ∅ "k" large_example (VBool true) = Normal (true, store1) /\
     store1 !! "k" =
       Some (json_text
               (storageData
                  (if compresses large_example (VBool true)
                   then compressed large_example else large_example) 1000)) /\
     loadFromStorage 1000 store1 "k" = Normal (large_example, store1)).
Proof.
  split; [|split].
  - apply (storage_round_trip 1000 ∅ "k" small_example (VBool true));
      vm_compute; reflexivity.
  - vm_compute. reflexivity.
  - apply (storage_round_trip 1000 ∅ "k" large_example (VBool true));
      vm_compute; reflexivity.
Defined.

(** ** System monitoring *)

Lemma Qfloor_between (q : Q) (a b : Z) :
  (inject_Z a <= q < inject_Z b)%Q -> (a <= Qfloor q < b)%Z.
Proof.
  intros [Ha Hb]. split.
  - rewrite <- (Qfloor_Z a). now apply Qfloor_resp_le.
  - apply Z.lt_nge. intros Hge. rewrite Zle_Qle in Hge.
    pose proof (Qfloor_le q). lra.
Qed.

Lemma clamped_reading (lo k r : Q) :
  (0 <= r < 1)%Q -> (0 < k)%Q -> (lo + k <= 100)%Q ->
  (lo <= Qmin 100 (Qmax lo (r * k + lo)) < lo + k)%Q /\
  (Qmin 100 (Qmax lo (r * k + lo)) == r * k + lo)%Q.
Proof.
  intros [Hr0 Hr1] Hk Hhi.
  assert (Hlow : (lo <= r * k + lo)%Q) by nra.
  assert (Hup : (r * k + lo < lo + k)%Q) by nra.
  assert (Hmax : (Qmax lo (r * k + lo) == r * k + lo)%Q) by now apply Q.max_r.
  assert (Hmin : (Qmin 100 (Qmax lo (r * k + lo)) == r * k + lo)%Q).
  { rewrite Hmax. apply Q.min_r. lra. }
  split; [|exact Hmin]. rewrite Hmin. split; lra.
Qed.

Section MonitoringFacts.

Variable Math_random : nat -> Q.
Hypothesis Math_random_range : forall n, (0 <= Math_random n < 1)%Q.

Lemma updateSystemStatus_usage (now : Z) (st : AppState) :
  let status := systemStatus (updateSystemStatus Math_random now st) in
  (10 <= cpu_usage (cpu status) < 90)%Q /\
  (20 <= ram_usage (ram status) < 80)%Q /\
  (15 <= disk_usage (disk status) < 65)%Q /\
  (40 <= cpu_temperature (cpu status) < 60)%Q.
Proof.
  cbn.
  pose proof (clamped_reading 10 80 _ (Math_random_range 0%nat)) as [H0 _]; [lra|lra|].
  pose proof (clamped_reading 20 60 _ (Math_random_range 3%nat)) as [H3 _]; [lra|lra|].
  pose proof (clamped_reading 15 50 _ (Math_random_range 7%nat)) as [H7 _]; [lra|lra|].
  pose proof (Math_random_range 1%nat) as H1.
  repeat split; try lra; first [apply H0 | apply H3 | apply H7].
Qed.

End MonitoringFacts.



(** X2.  In the monitoring loop, where [checkAlerts] runs on the
    status [updateSystemStatus] has just written, the RAM alert and
    the temperature alert are never raised.  The only alert possible
    is the CPU usage alert, and it is raised exactly when the first
    random number of the update exceeds 15/16. *)
Theorem monitoring_only_cpu_alert (Math_random : nat -> Q) (now : Z) (st : AppState) :
  (forall n, 0 <= Math_random n < 1)%Q ->
  let st' := updateSystemStatus Math_random now st in
  checkAlerts st' =
    if Qgtb (Math_random 0%nat) (15 # 16) then [cpu_usage_alert (systemStatus st')]
    else [].
Proof.
  intros Hrange st'.
  destruct (updateSystemStatus_usage Math_random Hrange now st) as (Hc & Hr & Hd & Ht).
  fold st' in Hc, Hr, Hd, Ht. cbv zeta in Hc, Hr, Hd, Ht.
  unfold checkAlerts. cbv zeta.
  assert (Hram : Qgtb (ram_usage (ram (systemStatus st'))) 90 = false).
  { apply Qgtb_false. lra. }
  assert (Htemp : Qgtb (cpu_temperature (cpu (systemStatus st'))) 75 = false).
  { apply Qgtb_false. lra. }
  rewrite Hram, Htemp, !app_nil_r.
  assert (Hcpu : (cpu_usage (cpu (systemStatus st')) == Math_random 0%nat * 80 + 10)%Q).
  { cbn. now apply clamped_reading. }
  assert (Hsame : Qgtb (cpu_usage (cpu (systemStatus st'))) 85 =
                  Qgtb (Math_random 0%nat) (15 # 16)).
  { destruct (Qgtb (Math_random 0%nat) (15 # 16)) eqn:Hr0.
    - apply Qgtb_true in Hr0. apply Qgtb_true. lra.
    - apply Qgtb_false in Hr0. apply Qgtb_false. lra. }
  now rewrite Hsame.
Qed.

Lemma monitoring_only_cpu_alert_witness :
  checkAlerts (updateSystemStatus (fun _ => 1 # 2) 7 initial_AppState) = [].
Proof.
  apply (monitoring_only_cpu_alert (fun _ => 1 # 2) 7 initial_AppState).
  intros _. split; [discriminate|reflexivity].
Defined.

(** ** Health check *)

(** X3.  The health score lies between 35 and 100, and the class is
    poor only when all four thresholds are exceeded at once: any three
    deductions still leave a score above 40. *)
Theorem healthClass_poor (status : SystemStatus) :
  (35 <= healthScore status <= 100)%Z /\
  (healthClass (healthScore status) = "poor" <->
   (80 < cpu_usage (cpu status) /\ 85 < ram_usage (ram status) /\
    90 < disk_usage (disk status) /\ 70 < cpu_temperature (cpu status))%Q).
Proof.
  unfold healthScore. cbv zeta. rewrite <- !Qgtb_true.
  destruct (Qgtb (cpu_usage (cpu status)) 80), (Qgtb (ram_usage (ram status)) 85),
    (Qgtb (disk_usage (disk status)) 90), (Qgtb (cpu_temperature (cpu status)) 70);
    cbn; (split; [lia|]); split; try discriminate; try tauto;
    intros (? & ? & ? & ?); discriminate.
Qed.

(** X4.  On a status written by [updateSystemStatus] the health check
    shows a score of 100 or 80 and the class excellent or good, never
    fair or poor: only the CPU deduction can apply, and it applies
    exactly when the first random number exceeds 7/8. *)
Theorem monitoring_health (Math_random : nat -> Q) (now : Z) (st : AppState) :
  (forall n, 0 <= Math_random n < 1)%Q ->
  runSystemHealthCheck (updateSystemStatus Math_random now st) =
    if Qgtb (Math_random 0%nat) (7 # 8)
    then ("Health Score: 80/100", "health-status good")
    else ("Health Score: 100/100", "health-status excellent").
Proof.
  intros Hrange.
  destruct (updateSystemStatus_usage Math_random Hrange now st) as (Hc & Hr & Hd & Ht).
  set (st' := updateSystemStatus Math_random now st) in *. cbv zeta in Hc, Hr, Hd, Ht.
  unfold runSystemHealthCheck, healthScore. cbv zeta.
  assert (Hram : Qgtb (ram_usage (ram (systemStatus st'))) 85 = false).
  { apply Qgtb_false. lra. }
  assert (Hdisk : Qgtb (disk_usage (disk (systemStatus st'))) 90 = false).
  { apply Qgtb_false. lra. }
  assert (Htemp : Qgtb (cpu_temperature (cpu (systemStatus st'))) 70 = false).
  { apply Qgtb_false. lra. }
  rewrite Hram, Hdisk, Htemp.
  assert (Hcpu : (cpu_usage (cpu (systemStatus st')) == Math_random 0%nat * 80 + 10)%Q).
  { cbn. now apply clamped_reading. }
  assert (Hsame : Qgtb (cpu_usage (cpu (systemStatus st'))) 80 =
                  Qgtb (Math_random 0%nat) (7 # 8)).
  { destruct (Qgtb (Math_random 0%nat) (7 # 8)) eqn:Hr0.
    - apply Qgtb_true in Hr0. apply Qgtb_true. lra.
    - apply Qgtb_false in Hr0. apply Qgtb_false. lra. }
  rewrite Hsame. now destruct (Qgtb (Math_random 0%nat) (7 # 8)).
Qed.

Lemma monitoring_health_witness :
  runSystemHealthCheck (updateSystemStatus (fun _ => 1 # 2) 7 initial_AppState) =
  ("Health Score: 100/100", "health-status excellent").
Proof.
  apply (monitoring_health (fun _ => 1 # 2) 7 initial_AppState).
  intros _. split; [discriminate|reflexivity].
Defined.

(** ** Charts *)

Lemma last_n_short {A} (n : nat) (l : list A) : (length l <= n)%nat -> last_n n l = l.
Proof. intros Hlen. unfold last_n. now replace (length l - n)%nat with 0%nat by lia. Qed.

Lemma last_n_full {A} (n : nat) (l : list A) :
  length l = S n -> last_n n l = tail l.
Proof.
  intros Hlen. unfold last_n. rewrite Hlen.
  replace (S n - n)%nat with 1%nat by lia. now destruct l.
Qed.

Lemma push_point_window (label : string) (v : Q) (c : ChartData) :
  chart_ok (Some c) ->
  labels_of (push_point label v c) = last_n 60 (labels_of c ++ [label]) /\
  values_of (push_point label v c) = last_n 60 (values_of c ++ [v]) /\
  chart_ok (Some (push_point label v c)).
Proof.
  intros [Hsame Hlen]. unfold push_point. cbv zeta.
  fold (labels_of c). fold (values_of c).
  destruct (60 <? length (labels_of c ++ [label]))%nat eqn:Hfull.
  - apply Nat.ltb_lt in Hfull. rewrite length_app in Hfull. cbn [length] in Hfull.
    assert (Hl : length (labels_of c ++ [label]) = 61%nat)
      by (rewrite length_app; cbn [length]; lia).
    assert (Hv : length (values_of c ++ [v]) = 61%nat)
      by (rewrite length_app; cbn [length]; lia).
    rewrite (last_n_full 60 _ Hl), (last_n_full 60 _ Hv).
    unfold labels_of at 1, values_of at 1. cbn [chart_labels chart_values from_option id].
    split; [reflexivity|]. split; [reflexivity|].
    unfold chart_ok, labels_of, values_of. cbn [chart_labels chart_values from_option id].
    rewrite !length_tl. fold (labels_of c). fold (values_of c). rewrite Hl, Hv.
    split; [reflexivity|cbn; lia].
  - apply Nat.ltb_ge in Hfull.
    assert (Hv : (length (values_of c ++ [v]) <= 60)%nat).
    { rewrite length_app in *. cbn [length] in *. lia. }
    rewrite (last_n_short 60 _ Hfull), (last_n_short 60 _ Hv).
    unfold labels_of at 1, values_of at 1. cbn [chart_labels chart_values from_option id].
    split; [reflexivity|]. split; [reflexivity|].
    unfold chart_ok, labels_of, values_of. cbn [chart_labels chart_values from_option id].
    fold (labels_of c). fold (values_of c).
    split; [|exact Hfull]. rewrite !length_app. cbn [length]. lia.
Qed.

Lemma update_chart_advanced (Math_random : nat -> Q) (usage : option Q) (label : string)
    (chart : option ChartData) (draw : nat) :
  chart_ok chart ->
  chart_ok (update_chart Math_random usage label chart draw).1 /\
  chart_advanced label usage chart (update_chart Math_random usage label chart draw).1.
Proof.
  intros Hok. destruct chart as [c|]; [|now split].
  unfold update_chart.
  destruct (new_value Math_random usage draw) as [v draw'] eqn:Hnew. cbn [fst].
  destruct (push_point_window label v c Hok) as (Hl & Hv & Hok').
  split; [exact Hok'|]. split; [exact Hl|]. exists v. split; [exact Hv|].
  intros u -> Hu. unfold new_value in Hnew.
  destruct (Qeq_bool u 0) eqn:Hzero.
  - apply Qeq_bool_iff in Hzero. contradiction.
  - now injection Hnew as <- _.
Qed.

(** X5.  [updateCharts] adds one point, under the label of the
    moment, to every chart that exists and leaves a missing chart
    missing.  A chart that held as many values as labels, at most 60,
    does so afterwards: once 60 points are held the oldest is dropped.
    The value added is the usage reading of the status for the cpu,
    ram and disk charts when that reading is not zero. *)
Theorem updateCharts_window (Math_random : nat -> Q) (status : SystemStatus)
    (label : string) (charts : Charts) :
  chart_ok (charts_cpu charts) -> chart_ok (charts_ram charts) ->
  chart_ok (charts_disk charts) -> chart_ok (charts_network charts) ->
  let charts' := updateCharts Math_random status label charts in
  (chart_ok (charts_cpu charts') /\ chart_ok (charts_ram charts') /\
   chart_ok (charts_disk charts') /\ chart_ok (charts_network charts')) /\
  chart_advanced label (Some (cpu_usage (cpu status)))
    (charts_cpu charts) (charts_cpu charts') /\
  chart_advanced label (Some (ram_usage (ram status)))
    (charts_ram charts) (charts_ram charts') /\
  chart_advanced label (Some (disk_usage (disk status)))
    (charts_disk charts) (charts_disk charts') /\
  chart_advanced label None (charts_network charts) (charts_network charts').
Proof.
  intros Hc Hr Hd Hn. unfold updateCharts.
  pose proof (update_chart_advanced Math_random (Some (cpu_usage (cpu status))) label
                (charts_cpu charts) 0 Hc) as Hc'.
  destruct (update_chart Math_random (Some (cpu_usage (cpu status))) label
              (charts_cpu charts) 0) as [c d1].
  pose proof (update_chart_advanced Math_random (Some (ram_usage (ram status))) label
                (charts_ram charts) d1 Hr) as Hr'.
  destruct (update_chart Math_random (Some (ram_usage (ram status))) label
              (charts_ram charts) d1) as [r d2].
  pose proof (update_chart_advanced Math_random (Some (disk_usage (disk status))) label
                (charts_disk charts) d2 Hd) as Hd'.
  destruct (update_chart Math_random (Some (disk_usage (disk status))) label
              (charts_disk charts) d2) as [k d3].
  pose proof (update_chart_advanced Math_random None label
                (charts_network charts) d3 Hn) as Hn'.
  destruct (update_chart Math_random None label (charts_network charts) d3) as [n d4].
  cbn [fst charts_cpu charts_ram charts_disk charts_network] in *.
  tauto.
Qed.

Lemma updateCharts_window_witness :
  chart_ok
    (charts_cpu
       (updateCharts (fun _ => 1 # 2) (systemStatus example_snapshot) "12:00:00"
          {| charts_cpu := Some {| chart_labels := None; chart_values := Some [] |};
             charts_ram := None; charts_disk := None; charts_network := None |})).
Proof.
  exact (proj1 (proj1
    (updateCharts_window (fun _ => 1 # 2) (systemStatus example_snapshot) "12:00:00"
       {| charts_cpu := Some {| chart_labels := None; chart_values := Some [] |};
          charts_ram := None; charts_disk := None; charts_network := None |}
       (conj eq_refl (Nat.le_0_l 60)) I I I))).
Defined.

(** ** Logs kept in the storage *)

Lemma push_capped_last_n (cap : nat) (entry : jsval) (entries : list jsval) :
  (length entries <= cap)%nat ->
  push_capped cap entry entries = last_n cap (entries ++ [entry]).
Proof.
  intros Hlen. unfold push_capped. cbv zeta.
  destruct (cap <? length (entries ++ [entry]))%nat eqn:Hfull.
  - apply Nat.ltb_lt in Hfull. symmetry. apply last_n_full.
    rewrite length_app in *. cbn [length] in *. lia.
  - apply Nat.ltb_ge in Hfull. symmetry. now apply last_n_short.
Qed.

Lemma push_capped_length (cap : nat) (entry : jsval) (entries : list jsval) :
  (length entries <= cap)%nat -> (length (push_capped cap entry entries) <= cap)%nat.
Proof.
  intros Hlen. unfold push_capped. cbv zeta.
  destruct (cap <? length (entries ++ [entry]))%nat eqn:Hfull.
  - rewrite length_tl, length_app. cbn [length]. lia.
  - now apply Nat.ltb_ge in Hfull.
Qed.

Lemma forallb_tail {A} (f : A -> bool) (l : list A) :
  forallb f l = true -> forallb f (tail l) = true.
Proof.
  destruct l as [|a l]; [reflexivity|]. cbn [forallb tail].
  now intros [_ Hl]%andb_true_iff.
Qed.

Lemma push_capped_json (cap : nat) (entry : jsval) (entries : list jsval) :
  is_json entry = true -> forallb is_json entries = true ->
  forallb is_json (push_capped cap entry entries) = true.
Proof.
  intros He Hl. unfold push_capped. cbv zeta.
  assert (Hall : forallb is_json (entries ++ [entry]) = true).
  { rewrite forallb_app, Hl. cbn [forallb]. now rewrite He. }
  destruct (cap <? length (entries ++ [entry]))%nat; [now apply forallb_tail|exact Hall].
Qed.

Lemma stored_list_stored (now t : Z) (store : Storage) (key : string)
    (entries : list jsval) :
  store !! key = Some (json_text (storageData (VArr entries) t)) ->
  forallb is_json entries = true ->
  stored_list now store key = if (EXPIRY_TIME <? now - t)%Z then [] else entries.
Proof.
  intros Hkey Hjson. unfold stored_list.
  rewrite (loadFromStorage_envelope now t store key (VArr entries) Hjson Hkey).
  now destruct (EXPIRY_TIME <? now - t)%Z.
Qed.

Lemma stored_list_none (now : Z) (store : Storage) (key : string) :
  store !! key = None -> stored_list now store key = [].
Proof.
  intros Hkey. unfold stored_list, loadFromStorage, getItem. now rewrite Hkey.
Qed.

Lemma stored_list_bound (cap : nat) (now : Z) (store : Storage) (key : string) :
  list_ok cap store key ->
  (length (stored_list now store key) <= cap)%nat /\
  forallb is_json (stored_list now store key) = true.
Proof.
  intros [Hnone | (t & entries & Hkey & Hlen & Hjson)].
  - rewrite (stored_list_none now store key Hnone). split; [cbn; lia|reflexivity].
  - rewrite (stored_list_stored now t store key entries Hkey Hjson).
    destruct (EXPIRY_TIME <? now - t)%Z; [split; [cbn; lia|reflexivity]|auto].
Qed.

(** Loading a list in good order: [loaded || []] is the list, and
    the store differs at most by the key, removed on expiry. *)
Lemma load_list (cap : nat) (now : Z) (store : Storage) (key : string) :
  list_ok cap store key ->
  exists v store1,
    loadFromStorage now store key = Normal (v, store1) /\
    (if truthy v then v else VArr []) = VArr (stored_list now store key) /\
    forall text, <[key := text]> store1 = <[key := text]> store.
Proof.
  intros [Hnone | (t & entries & Hkey & Hlen & Hjson)].
  - exists VNull, store. rewrite (stored_list_none now store key Hnone).
    split; [|split; reflexivity]. unfold loadFromStorage, getItem. now rewrite Hnone.
  - rewrite (stored_list_stored now t store key entries Hkey Hjson).
    rewrite (loadFromStorage_envelope now t store key (VArr entries) Hjson Hkey).
    destruct (EXPIRY_TIME <? now - t)%Z.
    + exists VNull, (delete key store). split; [reflexivity|].
      split; [reflexivity|intros; apply insert_delete_eq].
    + exists (VArr entries), store.
      rewrite (extract_plain (VArr entries) eq_refl), bind_Normal.
      split; [reflexivity|split; reflexivity].
Qed.

Lemma save_list (now : Z) (store : Storage) (key : string) (entries : list jsval) :
  forallb is_json entries = true ->
  saveToStorage now store key (VArr entries) VUndefined =
  Normal (true, <[key := json_text (storageData (VArr entries) now)]> store).
Proof.
  intros Hjson.
  now rewrite (saveToStorage_json now store key (VArr entries) VUndefined Hjson).
Qed.

Lemma stored_list_fresh (now : Z) (store : Storage) (key : string)
    (entries : list jsval) :
  forallb is_json entries = true ->
  stored_list now (<[key := json_text (storageData (VArr entries) now)]> store) key =
  entries.
Proof.
  intros Hjson.
  rewrite (stored_list_stored now now _ key entries (lookup_insert_eq _ _ _) Hjson).
  rewrite Z.sub_diag. reflexivity.
Qed.

(** *** Analytics *)

Lemma is_json_analyticsEvent (eventName : string) (eventData : jsval) (now : Z) :
  is_json eventData = true -> is_json (analyticsEvent eventName eventData now) = true.
Proof.
  intros Hdata. unfold analyticsEvent. cbn [is_json map fst snd forallb].
  rewrite Hdata. reflexivity.
Qed.

(** X6.  On a store whose analytics list, if any, was written by
    [saveToStorage] and holds at most 500 records, [trackEvent] with
    JSON data returns normally, and the list read right after it is
    the list read right before it with the new record added at the
    end, cut to its last 500 records: the oldest record is the one
    dropped.  No other key of the store changes. *)
Theorem trackEvent_keeps_last_500 (now : Z) (store : Storage) (eventName : string)
    (eventData : jsval) :
  list_ok 500 store ANALYTICS ->
  is_json eventData = true ->
  exists store',
    trackEvent now store eventName eventData = Normal (RUndefined, store') /\
    stored_list now store' ANALYTICS =
      last_n 500 (stored_list now store ANALYTICS
                  ++ [analyticsEvent eventName eventData now]) /\
    (length (stored_list now store' ANALYTICS) <= 500)%nat /\
    list_ok 500 store' ANALYTICS /\
    forall key, key <> ANALYTICS -> store' !! key = store !! key.
Proof.
  intros Hok Hdata.
  destruct (stored_list_bound 500 now store ANALYTICS Hok) as [Hlen Hjson].
  destruct (load_list 500 now store ANALYTICS Hok) as (v & store1 & Hload & Hv & Hstore).
  set (event := analyticsEvent eventName eventData now).
  set (events := push_capped 500 event (stored_list now store ANALYTICS)).
  assert (Hjson' : forallb is_json events = true).
  { apply push_capped_json; [now apply is_json_analyticsEvent|exact Hjson]. }
  exists (<[ANALYTICS := json_text (storageData (VArr events) now)]> store).
  split; [|split; [|split; [|split]]].
  - unfold trackEvent.
    replace (match eventData with VUndefined => VObj [] | _ => eventData end)
      with eventData by (now destruct eventData).
    rewrite Hload, bind_Normal, Hv. fold event events.
    rewrite (save_list now store1 ANALYTICS events Hjson'), bind_Normal. cbn [snd].
    now rewrite Hstore.
  - rewrite (stored_list_fresh now store ANALYTICS events Hjson').
    now apply push_capped_last_n.
  - rewrite (stored_list_fresh now store ANALYTICS events Hjson').
    now apply push_capped_length.
  - right. exists now, events. split; [apply lookup_insert_eq|].
    split; [now apply push_capped_length|exact Hjson'].
  - intros key Hkey. now apply lookup_insert_ne.
Qed.

Lemma trackEvent_keeps_last_500_witness :
  exists store',
    trackEvent 7 ∅ "page_view" (VObj [("page", VStr "dashboard")]) =
      Normal (RUndefined, store') /\
    stored_list 7 store' ANALYTICS =
      [analyticsEvent "page_view" (VObj [("page", VStr "dashboard")]) 7].
Proof.
  destruct (trackEvent_keeps_last_500 7 ∅ "page_view" (VObj [("page", VStr "dashboard")])
              (or_introl (lookup_empty ANALYTICS)) eq_refl)
    as (store' & Hrun & Hlist & _).
  exists store'. split; [exact Hrun|]. rewrite Hlist.
  now rewrite (stored_list_none 7 ∅ ANALYTICS (lookup_empty ANALYTICS)).
Defined.

(** *** Chat history: categories and clearing *)

Lemma chat_history_stored_list (now : Z) (store : Storage) :
  chat_history now store = stored_list now store CHAT_HISTORY.
Proof. reflexivity. Qed.

Lemma history_ok_list_ok (store : Storage) :
  history_ok store <-> list_ok 100 store CHAT_HISTORY.
Proof. reflexivity. Qed.

Lemma filter_entries_category (category : string) (entries : list jsval) :
  Forall (fun entry => entry <> VNull) entries ->
  forallb is_json entries = true ->
  filter_entries
    (fun entry => c ← get_property entry "category";
                  Normal (strict_equals_string c category)) entries =
  Normal (List.filter (has_category category) entries).
Proof.
  induction 1 as [|entry entries Hentry _ IH]; [reflexivity|].
  cbn [forallb filter_entries List.filter]. intros [He Hl]%andb_true_iff.
  rewrite (IH Hl). unfold has_category.
  destruct entry; try reflexivity; try discriminate He; [contradiction|].
  cbn [get_property]. now destruct (List.find _ fields) as [[? ?]|].
Qed.

(** X7.  Right after [addEntry] has filed an entry, and on a log none
    of whose entries is [null], [getByCategory(k)] returns, for every
    [k], the entries of category [k] among the new entry followed by
    the former log cut to 100, in that order.  Asked for the category
    of the call it returns the new entry first. *)
Theorem getByCategory_after_addEntry (now : Z) (id : string) (store : Storage)
    (userInput aiResponse category k : string) :
  history_ok store ->
  Forall (fun entry => entry <> VNull) (chat_history now store) ->
  let entry := newEntry now id userInput aiResponse category in
  exists store',
    addEntry now id store userInput aiResponse category = Normal (entry, store') /\
    getByCategory now store' k =
      Normal (List.filter (has_category k) (take 100 (entry :: chat_history now store)),
              store') /\
    (k = category ->
     exists rest, getByCategory now store' k = Normal (entry :: rest, store')).
Proof.
  intros Hok Hnull entry.
  destruct (addEntry_history_ok now id store userInput aiResponse category Hok)
    as (store' & Hadd & Hok' & Hafter).
  fold entry in Hadd, Hafter.
  destruct (chat_history_bound now store' Hok') as [_ Hjson'].
  destruct (load_list 100 now store' CHAT_HISTORY Hok')
    as (v & store1 & Hload & Hv & Hstore).
  assert (Hsame : store1 = store').
  { destruct Hok' as [Hnone | (t & entries & Hkey & _ & Hjson)].
    - assert (Hlen : length (chat_history now store') = 0%nat)
        by now rewrite (chat_history_none now store' Hnone).
      rewrite Hafter in Hlen. discriminate Hlen.
    - pose proof (loadFromStorage_envelope now t store' CHAT_HISTORY (VArr entries)
                    Hjson Hkey) as Henv.
      pose proof (chat_history_stored now t store' entries Hkey Hjson) as Hread.
      destruct (EXPIRY_TIME <? now - t)%Z.
      + rewrite Hafter in Hread. discriminate Hread.
      + rewrite (extract_plain (VArr entries) eq_refl), bind_Normal in Henv.
        rewrite Henv in Hload. now injection Hload as _ <-. }
  subst store1.
  assert (Hget : getByCategory now store' k =
                 Normal (List.filter (has_category k)
                           (take 100 (entry :: chat_history now store)), store')).
  { unfold getByCategory. rewrite Hload, bind_Normal, Hv.
    rewrite <- chat_history_stored_list, Hafter.
    rewrite filter_entries_category.
    - reflexivity.
    - change (take 100 (entry :: ?l)) with (entry :: take 99 l).
      constructor; [discriminate|]. now apply Forall_take.
    - now rewrite <- Hafter. }
  exists store'. split; [exact Hadd|]. split; [exact Hget|].
  intros ->. rewrite Hget.
  change (take 100 (entry :: ?l)) with (entry :: take 99 l).
  cbn [List.filter]. unfold has_category at 1. cbn. rewrite String.eqb_refl. eauto.
Qed.

Lemma getByCategory_after_addEntry_witness :
  exists store',
    addEntry 5 "a1" ∅ "cpu is hot" "ok" "system" =
      Normal (newEntry 5 "a1" "cpu is hot" "ok" "system", store') /\
    getByCategory 5 store' "network" = Normal ([], store').
Proof.
  destruct (getByCategory_after_addEntry 5 "a1" ∅ "cpu is hot" "ok" "system" "network"
              (or_introl (lookup_empty CHAT_HISTORY)))
    as (store' & Hadd & Hget & _).
  - rewrite (chat_history_none 5 ∅ (lookup_empty CHAT_HISTORY)). constructor.
  - exists store'. split; [exact Hadd|]. rewrite Hget.
    now rewrite (chat_history_none 5 ∅ (lookup_empty CHAT_HISTORY)).
Defined.

(** X8.  [clearHistory] empties the log whatever the store held
    under the key: afterwards the log reads as empty, [getByCategory]
    returns no entry, the next [addEntry] succeeds and starts a log of
    that one entry, and no other key has changed. *)
Theorem clearHistory_resets (now : Z) (id : string) (store : Storage)
    (userInput aiResponse category k : string) :
  let store' := (clearHistory store).2 in
  chat_history now store' = [] /\
  getByCategory now store' k = Normal ([], store') /\
  (exists store'',
     addEntry now id store' userInput aiResponse category =
       Normal (newEntry now id userInput aiResponse category, store'') /\
     chat_history now store'' = [newEntry now id userInput aiResponse category]) /\
  forall key, key <> CHAT_HISTORY -> store' !! key = store !! key.
Proof.
  cbn [clearHistory snd].
  assert (Hnone : delete CHAT_HISTORY store !! CHAT_HISTORY = None)
    by apply lookup_delete_eq.
  pose proof (chat_history_none now _ Hnone) as Hempty.
  split; [exact Hempty|]. split; [|split].
  - unfold getByCategory, loadFromStorage, getItem. now rewrite Hnone.
  - destruct (addEntry_history_ok now id _ userInput aiResponse category
                (or_introl Hnone)) as (store'' & Hadd & _ & Hafter).
    exists store''. split; [exact Hadd|]. now rewrite Hafter, Hempty.
  - intros key Hkey. now apply lookup_delete_ne.
Qed.

(** X9.  [addEntry] has no [try] of its own.  When the key holds, not
    yet expired, an envelope whose value is a JSON value other than an
    array that is truthy -- a number but 0, [true], an object, a
    string that is not empty and does not look compressed -- the call
    throws a [TypeError], and so does [getByCategory]. *)
Theorem addEntry_throws_on_non_array (now t : Z) (id : string) (store : Storage)
    (value : jsval) (userInput aiResponse category : string) :
  is_json value = true ->
  truthy value = true ->
  (forall entries, value <> VArr entries) ->
  looks_compressed value = None ->
  (now - t <= EXPIRY_TIME)%Z ->
  store !! CHAT_HISTORY = Some (json_text (storageData value t)) ->
  addEntry now id store userInput aiResponse category = Throw TypeError /\
  getByCategory now store category = Throw TypeError.
Proof.
  intros Hjson Htruthy Harr Hplain Hfresh Hkey.
  assert (Hload : loadFromStorage now store CHAT_HISTORY = Normal (value, store)).
  { rewrite (loadFromStorage_envelope now t store CHAT_HISTORY value Hjson Hkey).
    replace (EXPIRY_TIME <? now - t)%Z with false by (symmetry; apply Z.ltb_ge; lia).
    now rewrite (extract_plain value Hplain). }
  unfold addEntry, getByCategory. rewrite Hload, !bind_Normal. cbv beta iota.
  rewrite !Htruthy.
  destruct value as [| |b|n|s|items|fields|];
    try discriminate Htruthy; try (split; reflexivity).
  now destruct (Harr items).
Qed.

Lemma addEntry_throws_on_non_array_witness :
  addEntry 9 "b2" {[ CHAT_HISTORY := json_text (storageData (VNum 5) 0) ]}
    "cpu" "ok" "system" = Throw TypeError.
Proof.
  apply (addEntry_throws_on_non_array 9 0 "b2"
           {[ CHAT_HISTORY := json_text (storageData (VNum 5) 0) ]} (VNum 5)
           "cpu" "ok" "system" eq_refl eq_refl).
  - discriminate.
  - reflexivity.
  - unfold EXPIRY_TIME. lia.
  - apply lookup_singleton_eq.
Defined.

(** *** Logging of the [Utils] class *)






(** ** 32-bit integers *)

Lemma ToInt32_range (z : Z) : (- 2147483648 <= ToInt32 z < 2147483648)%Z.
Proof. unfold ToInt32. Z.to_euclidean_division_equations. lia. Qed.

Lemma ToInt32_small (z : Z) : (- 2147483648 <= z < 2147483648)%Z -> ToInt32 z = z.
Proof. intros Hz. unfold ToInt32. Z.to_euclidean_division_equations. lia. Qed.

Lemma ToInt32_congruent (a b : Z) :
  (a mod 4294967296 = b mod 4294967296)%Z -> ToInt32 a = ToInt32 b.
Proof.
  unfold ToInt32. Z.to_euclidean_division_equations. lia.
Qed.

Lemma ToInt32_mod (z : Z) : (ToInt32 z mod 4294967296 = z mod 4294967296)%Z.
Proof. unfold ToInt32. Z.to_euclidean_division_equations. lia. Qed.

Lemma ToInt32_idempotent (z : Z) : ToInt32 (ToInt32 z) = ToInt32 z.
Proof. apply ToInt32_small, ToInt32_range. Qed.

(** ** Hashing *)

Lemma hash_step_polynomial (h : Z) (c : N) :
  hash_step (ToInt32 h) c = ToInt32 (31 * h + Z.of_N c).
Proof.
  unfold hash_step, bit_and, shift_left. cbv zeta.
  rewrite Z.land_diag, ToInt32_idempotent.
  change (5 mod 32)%Z with 5%Z. rewrite Z.shiftl_mul_pow2 by lia.
  change (2 ^ 5)%Z with 32%Z.
  apply ToInt32_congruent.
  pose proof (ToInt32_mod (ToInt32 h * 32)) as H1.
  pose proof (ToInt32_mod h) as H2.
  revert H1 H2. generalize (ToInt32 (ToInt32 h * 32)) (ToInt32 h). intros x y H1 H2.
  Z.to_euclidean_division_equations. lia.
Qed.

Lemma fold_hash_step (units : list N) (h : Z) :
  fold_left hash_step units (ToInt32 h) =
  ToInt32 (fold_left (fun h c => (31 * h + Z.of_N c)%Z) units h).
Proof.
  revert h. induction units as [|c units IH]; intros h; [reflexivity|].
  cbn [fold_left]. now rewrite hash_step_polynomial, IH.
Qed.

(** X11.  [hashString] returns the decimal text of a signed 32-bit
    integer: the value of the polynomial that multiplies by 31 and
    adds each UTF-16 code unit of the string in turn, wrapped into
    the range from -2^31 to 2^31 - 1.  Wrapping in every round, as the
    loop does, gives the same result as wrapping once at the end. *)
Theorem hashString_polynomial (str : string) :
  hashString str = Z_to_string (ToInt32 (polynomial_hash (code_units str))) /\
  (- 2147483648 <= ToInt32 (polynomial_hash (code_units str)) < 2147483648)%Z.
Proof.
  split; [|apply ToInt32_range].
  unfold hashString, polynomial_hash.
  change 0%Z with (ToInt32 0) at 1. now rewrite fold_hash_step.
Qed.

(** ** Identifiers *)

Lemma truncate_unit (r : Q) (k : Z) :
  (0 <= r < 1)%Q -> (0 < k)%Z ->
  (0 <= truncate (r * inject_Z k) < k)%Z /\
  truncate (r * inject_Z k) = Qfloor (r * inject_Z k).
Proof.
  intros [Hr0 Hr1] Hk.
  assert (Hk' : (0 < inject_Z k)%Q) by (rewrite Zlt_Qlt in Hk; exact Hk).
  assert (Hlow : (0 <= r * inject_Z k)%Q) by nra.
  assert (Hup : (r * inject_Z k < inject_Z k)%Q) by nra.
  assert (Hfloor : truncate (r * inject_Z k) = Qfloor (r * inject_Z k)).
  { unfold truncate.
    replace (Qltb (r * inject_Z k) 0) with false; [reflexivity|].
    symmetry. apply not_true_iff_false. rewrite Qltb_true. lra. }
  split; [|exact Hfloor]. rewrite Hfloor. apply Qfloor_between. split; assumption.
Qed.

Lemma below_16 (n : Z) :
  (0 <= n < 16)%Z ->
  In n [0; 1; 2; 3; 4; 5; 6; 7; 8; 9; 10; 11; 12; 13; 14; 15]%Z.
Proof. intros Hn. cbn [In]. lia. Qed.

Lemma uuid_digit_x (r : Q) :
  (0 <= r < 1)%Q ->
  exists d, uuid_digit "x" r = String d EmptyString /\ is_hex_lower d = true.
Proof.
  intros Hr. destruct (truncate_unit r 16 Hr eq_refl) as [Hn _].
  unfold uuid_digit. cbv zeta. change (inject_Z 16) with 16%Q in Hn.
  apply below_16 in Hn. cbn [In] in Hn.
  repeat (destruct Hn as [<- | Hn]; [eexists; split; vm_compute; reflexivity|]).
  destruct Hn.
Qed.

Lemma uuid_digit_y (r : Q) :
  (0 <= r < 1)%Q ->
  exists d, uuid_digit "y" r = String d EmptyString /\
            (Ascii.eqb d "8" || Ascii.eqb d "9" || Ascii.eqb d "a" || Ascii.eqb d "b")
            = true.
Proof.
  intros Hr. destruct (truncate_unit r 16 Hr eq_refl) as [Hn _].
  unfold uuid_digit. cbv zeta. change (inject_Z 16) with 16%Q in Hn.
  apply below_16 in Hn. cbn [In] in Hn.
  repeat (destruct Hn as [<- | Hn]; [eexists; split; vm_compute; reflexivity|]).
  destruct Hn.
Qed.

Lemma replace_xy_chars (Math_random : nat -> Q) (template : string) (draw : nat) :
  (forall n, 0 <= Math_random n < 1)%Q ->
  Forall2 replaces (list_ascii_of_string template)
    (list_ascii_of_string (replace_xy Math_random template draw)).
Proof.
  intros Hrange. revert draw.
  induction template as [|t template IH]; intros draw; [constructor|].
  cbn [replace_xy list_ascii_of_string].
  destruct (Ascii.eqb t "x") eqn:Hx; [|destruct (Ascii.eqb t "y") eqn:Hy]; cbn [orb].
  - apply Ascii.eqb_eq in Hx as ->.
    destruct (uuid_digit_x _ (Hrange draw)) as (d & -> & Hd).
    cbn [append list_ascii_of_string]. constructor; [exact Hd|apply IH].
  - apply Ascii.eqb_eq in Hy as ->.
    destruct (uuid_digit_y _ (Hrange draw)) as (d & -> & Hd).
    cbn [append list_ascii_of_string]. constructor; [exact Hd|apply IH].
  - cbn [list_ascii_of_string]. constructor; [|apply IH].
    unfold replaces. now rewrite Hx, Hy.
Qed.

(** X12.  Whatever [Math.random] returns (in [0, 1)), [generateUUID]
    yields a well-formed version-4 identifier: 36 characters, hyphens
    at positions 8, 13, 18 and 23, the version digit 4 at position 14,
    a variant digit 8, 9, a or b at position 19, and lower-case
    hexadecimal digits everywhere else. *)
Theorem generateUUID_well_formed (Math_random : nat -> Q) :
  (forall n, 0 <= Math_random n < 1)%Q ->
  is_uuid_v4 (generateUUID Math_random) = true.
Proof.
  intros Hrange. unfold generateUUID.
  pose proof (replace_xy_chars Math_random "xxxxxxxx-xxxx-4xxx-yxxx-xxxxxxxxxxxx" 0 Hrange)
    as Hchars.
  unfold is_uuid_v4.
  rewrite <- (string_of_list_ascii_of_string (replace_xy Math_random _ 0)) at 1.
  set (cs := list_ascii_of_string (replace_xy Math_random _ 0)) in *.
  cbn [list_ascii_of_string] in Hchars.
  repeat match goal with
         | H : Forall2 _ (_ :: _) _ |- _ => inversion H; subst; clear H
         | H : Forall2 _ [] _ |- _ => inversion H; subst; clear H
         end.
  unfold replaces in *. cbn in *.
  repeat match goal with
         | H : ?c = _ |- _ => is_var c; subst c
         end.
  cbn.
  repeat match goal with
         | H : _ = true |- _ => rewrite H; clear H
         end.
  reflexivity.
Qed.

Lemma generateUUID_well_formed_witness :
  is_uuid_v4 (generateUUID (fun _ => 1 # 2)) = true.
Proof.
  apply (generateUUID_well_formed (fun _ => 1 # 2)).
  intros _. split; [discriminate|reflexivity].
Defined.

(** ** Shuffling *)

Lemma insert_lookup_Permutation (a : list jsval) (j : nat) (x y : jsval) :
  a !! j = Some y -> y :: <[j := x]> a ≡ₚ x :: a.
Proof.
  revert j. induction a as [|z a IH]; intros [|j] Hj; try discriminate Hj.
  - injection Hj as ->. cbn. apply perm_swap.
  - cbn in Hj |- *. rewrite (perm_swap z y), (IH j Hj). apply perm_swap.
Qed.

Lemma swap_Permutation (a : list jsval) (i j : nat) :
  (i < length a)%nat -> (j < length a)%nat ->
  swap a i j ≡ₚ a /\ length (swap a i j) = length a.
Proof.
  intros Hi Hj. unfold swap, array_set, array_get. cbv zeta.
  destruct (lookup_lt_is_Some_2 a i Hi) as [x Hx].
  destruct (lookup_lt_is_Some_2 a j Hj) as [y Hy].
  rewrite Hx, Hy. cbn [default from_option id].
  replace (i <? length a)%nat with true by (symmetry; now apply Nat.ltb_lt).
  rewrite length_insert.
  replace (j <? length a)%nat with true by (symmetry; now apply Nat.ltb_lt).
  split; [|now rewrite !length_insert].
  clear Hi Hj. revert i j Hx Hy.
  induction a as [|h a IH]; intros [|i] [|j] Hx Hy; try discriminate.
  - cbn in *. now injection Hx as ->.
  - cbn in Hx, Hy |- *. injection Hx as ->. now apply insert_lookup_Permutation.
  - cbn in Hx, Hy |- *. injection Hy as ->. now apply insert_lookup_Permutation.
  - cbn in Hx, Hy |- *. now rewrite (IH i j Hx Hy).
Qed.

Lemma shuffle_loop_Permutation (Math_random : nat -> Q) (i draw : nat)
    (a : list jsval) :
  (forall n, 0 <= Math_random n < 1)%Q ->
  (i < length a)%nat ->
  shuffle_loop Math_random i draw a ≡ₚ a.
Proof.
  intros Hrange. revert draw a. induction i as [|i IH]; intros draw a Hi; [reflexivity|].
  cbn [shuffle_loop].
  set (j := Z.to_nat (Qfloor (Math_random draw * inject_Z (Z.of_nat (S i) + 1)))).
  assert (Hj : (j <= S i)%nat).
  { destruct (truncate_unit (Math_random draw) (Z.of_nat (S i) + 1) (Hrange draw))
      as [Hn Heq]; [lia|].
    rewrite Heq in Hn. unfold j. lia. }
  destruct (swap_Permutation a (S i) j Hi) as [Hperm Hlen]; [lia|].
  rewrite IH by lia. exact Hperm.
Qed.

(** X13.  With random numbers in [0, 1), [shuffleArray] returns a
    rearrangement of its argument: every element occurs in the result
    as often as in the argument, nothing is lost, duplicated or
    replaced by [undefined], and the length is the same. *)
Theorem shuffleArray_permutation (Math_random : nat -> Q) (array : list jsval) :
  (forall n, 0 <= Math_random n < 1)%Q ->
  shuffleArray Math_random array ≡ₚ array /\
  length (shuffleArray Math_random array) = length array.
Proof.
  intros Hrange.
  assert (Hperm : shuffleArray Math_random array ≡ₚ array).
  { unfold shuffleArray. destruct array as [|x array]; [reflexivity|].
    apply shuffle_loop_Permutation; [exact Hrange|]. cbn [length]. lia. }
  split; [exact Hperm|]. now rewrite Hperm.
Qed.

Lemma shuffleArray_permutation_witness :
  shuffleArray (fun _ => 1 # 2) [VNum 1; VNum 2; VNum 3; VNum 4]
  ≡ₚ [VNum 1; VNum 2; VNum 3; VNum 4].
Proof.
  apply (shuffleArray_permutation (fun _ => 1 # 2) [VNum 1; VNum 2; VNum 3; VNum 4]).
  intros _. split; [discriminate|reflexivity].
Defined.

(** ** Clamping and random integers *)

(** X14.  [clamp] returns a value between the bounds when they are in
    order, and the value itself when it already lies between them.
    With the bounds crossed it returns [max], whatever the value. *)
Theorem clamp_between (value min max : Q) :
  ((min <= max -> min <= clamp value min max <= max) /\
   (min <= value <= max -> clamp value min max == value) /\
   (max < min -> clamp value min max == max))%Q.
Proof.
  unfold clamp. split; [|split].
  - intros Hb. split.
    + apply Q.min_glb; [apply Q.le_max_r|exact Hb].
    + apply Q.le_min_r.
  - intros [Hlo Hhi]. rewrite (Q.max_l value min Hlo). now apply Q.min_l.
  - intros Hx. apply Q.min_r.
    apply Qle_trans with min; [now apply Qlt_le_weak|apply Q.le_max_r].
Qed.

Lemma clamp_between_witness : (0 <= clamp 5 0 1 <= 1)%Q.
Proof. apply (clamp_between 5 0 1). discriminate. Defined.

(** X15.  For integers [min <= max] that are safe integers together
    with the number [max - min + 1] of values between them (at most
    2^53 - 1 in absolute value, so that the program computes them
    without rounding), and a random number in [0, 1), [randomInt]
    returns an integer from [min] to [max], both included. *)
Theorem randomInt_range (random : Q) (min max : Z) :
  (min <= max)%Z ->
  (- 9007199254740991 <= min)%Z -> (max <= 9007199254740991)%Z ->
  (max - min + 1 <= 9007199254740991)%Z ->
  (0 <= random < 1)%Q ->
  (min <= randomInt random min max <= max)%Z.
Proof.
  intros Hb _ _ _ Hr. unfold randomInt.
  destruct (truncate_unit random (max - min + 1) Hr) as [Hn Heq]; [lia|].
  rewrite Heq in Hn. lia.
Qed.

Lemma randomInt_range_witness : (3 <= randomInt (1 # 2) 3 8 <= 8)%Z.
Proof.
  apply (randomInt_range (1 # 2) 3 8); try lia. split; [discriminate|reflexivity].
Defined.

(** ** Relative time *)

(** X16.  [getRelativeTime] words the distance [now - date] in whole
    minutes, hours or days, rounded down.  Below one minute, and for
    every date in the future, it says 'just now'; the count it prints
    is from 1 to 59 minutes, from 1 to 23 hours or from 1 to 6 days;
    from seven days on it prints the formatted date. *)
Theorem getRelativeTime_phrase (formatPersianDate : Z -> string) (now date : Z) :
  let diff := (now - date)%Z in
  getRelativeTime formatPersianDate now date =
    phrase_text formatPersianDate
      (if (diff <? 60000)%Z then JustNow
       else if (diff <? 3600000)%Z then MinutesAgo (diff / 60000)
       else if (diff <? 86400000)%Z then HoursAgo (diff / 3600000)
       else if (diff <? 604800000)%Z then DaysAgo (diff / 86400000)
       else OnDate date) /\
  ((60000 <= diff < 3600000 -> 1 <= diff / 60000 <= 59) /\
   (3600000 <= diff < 86400000 -> 1 <= diff / 3600000 <= 23) /\
   (86400000 <= diff < 604800000 -> 1 <= diff / 86400000 <= 6))%Z.
Proof.
  intros diff. unfold getRelativeTime. fold diff. cbv zeta.
  split.
  - destruct (diff <? 60000)%Z eqn:H1.
    { replace (diff / 60000 <? 1)%Z with true; [reflexivity|].
      symmetry. apply Z.ltb_lt. apply Z.ltb_lt in H1.
      Z.to_euclidean_division_equations. lia. }
    replace (diff / 60000 <? 1)%Z with false
      by (symmetry; apply Z.ltb_ge; apply Z.ltb_ge in H1;
          Z.to_euclidean_division_equations; lia).
    destruct (diff <? 3600000)%Z eqn:H2.
    { replace (diff / 60000 <? 60)%Z with true; [reflexivity|].
      symmetry. apply Z.ltb_lt. apply Z.ltb_lt in H2.
      Z.to_euclidean_division_equations. lia. }
    replace (diff / 60000 <? 60)%Z with false
      by (symmetry; apply Z.ltb_ge; apply Z.ltb_ge in H2;
          Z.to_euclidean_division_equations; lia).
    destruct (diff <? 86400000)%Z eqn:H3.
    { replace (diff / 3600000 <? 24)%Z with true; [reflexivity|].
      symmetry. apply Z.ltb_lt. apply Z.ltb_lt in H3.
      Z.to_euclidean_division_equations. lia. }
    replace (diff / 3600000 <? 24)%Z with false
      by (symmetry; apply Z.ltb_ge; apply Z.ltb_ge in H3;
          Z.to_euclidean_division_equations; lia).
    destruct (diff <? 604800000)%Z eqn:H4.
    { replace (diff / 86400000 <? 7)%Z with true; [reflexivity|].
      symmetry. apply Z.ltb_lt. apply Z.ltb_lt in H4.
      Z.to_euclidean_division_equations. lia. }
    replace (diff / 86400000 <? 7)%Z with false
      by (symmetry; apply Z.ltb_ge; apply Z.ltb_ge in H4;
          Z.to_euclidean_division_equations; lia).
    reflexivity.
  - repeat split; Z.to_euclidean_division_equations; lia.
Qed.

(** X17.  [Utils.formatTimeAgo] words the distance [now - date] in
    whole minutes, hours or days, rounded down.  Below one minute,
    and for every date in the future, it says 'a few seconds ago';
    the count it prints is from 1 to 59 minutes, from 1 to 23 hours
    or from 1 to 29 days; from thirty days on it prints the formatted
    date. *)
Theorem formatTimeAgo_phrase (formatDate : Z -> string) (now date : Z) :
  let diff := (now - date)%Z in
  formatTimeAgo formatDate now date =
    phrase_text formatDate
      (if (diff <? 60000)%Z then FewSeconds
       else if (diff <? 3600000)%Z then MinutesAgo (diff / 60000)
       else if (diff <? 86400000)%Z then HoursAgo (diff / 3600000)
       else if (diff <? 2592000000)%Z then DaysAgo (diff / 86400000)
       else OnDate date) /\
  ((60000 <= diff < 3600000 -> 1 <= diff / 60000 <= 59) /\
   (3600000 <= diff < 86400000 -> 1 <= diff / 3600000 <= 23) /\
   (86400000 <= diff < 2592000000 -> 1 <= diff / 86400000 <= 29))%Z.
Proof.
  intros diff. unfold formatTimeAgo. fold diff. cbv zeta.
  assert (Hm : (diff / 1000 / 60 = diff / 60000)%Z)
    by (rewrite Z.div_div by lia; reflexivity).
  assert (Hh : (diff / 1000 / 3600 = diff / 3600000)%Z)
    by (rewrite Z.div_div by lia; reflexivity).
  assert (Hd : (diff / 1000 / 86400 = diff / 86400000)%Z)
    by (rewrite Z.div_div by lia; reflexivity).
  rewrite Hm, Hh, Hd.
  split.
  - destruct (diff <? 60000)%Z eqn:H1.
    { replace (diff / 1000 <? 60)%Z with true; [reflexivity|].
      symmetry. apply Z.ltb_lt. apply Z.ltb_lt in H1.
      Z.to_euclidean_division_equations. lia. }
    replace (diff / 1000 <? 60)%Z with false
      by (symmetry; apply Z.ltb_ge; apply Z.ltb_ge in H1;
          Z.to_euclidean_division_equations; lia).
    destruct (diff <? 3600000)%Z eqn:H2.
    { replace (diff / 1000 <? 3600)%Z with true; [reflexivity|].
      symmetry. apply Z.ltb_lt. apply Z.ltb_lt in H2.
      Z.to_euclidean_division_equations. lia. }
    replace (diff / 1000 <? 3600)%Z with false
      by (symmetry; apply Z.ltb_ge; apply Z.ltb_ge in H2;
          Z.to_euclidean_division_equations; lia).
    destruct (diff <? 86400000)%Z eqn:H3.
    { replace (diff / 1000 <? 86400)%Z with true; [reflexivity|].
      symmetry. apply Z.ltb_lt. apply Z.ltb_lt in H3.
      Z.to_euclidean_division_equations. lia. }
    replace (diff / 1000 <? 86400)%Z with false
      by (symmetry; apply Z.ltb_ge; apply Z.ltb_ge in H3;
          Z.to_euclidean_division_equations; lia).
    destruct (diff <? 2592000000)%Z eqn:H4.
    { replace (diff / 1000 <? 2592000)%Z with true; [reflexivity|].
      symmetry. apply Z.ltb_lt. apply Z.ltb_lt in H4.
      Z.to_euclidean_division_equations. lia. }
    replace (diff / 1000 <? 2592000)%Z with false
      by (symmetry; apply Z.ltb_ge; apply Z.ltb_ge in H4;
          Z.to_euclidean_division_equations; lia).
    reflexivity.
  - repeat split; Z.to_euclidean_division_equations; lia.
Qed.

(** ** The local AI engine: answers *)

Lemma GetSubstitution_plain (matched before after replacement : string) :
  includes replacement "$" = false ->
  GetSubstitution matched before after replacement = replacement.
Proof.
  induction replacement as [|c r IH]; [reflexivity|].
  cbn [includes]. intros [Hc Hr]%orb_false_iff.
  specialize (IH Hr).
  destruct c as [[] [] [] [] [] [] [] []];
    try (cbn [GetSubstitution]; now rewrite IH).
  cbn in Hc. destruct r; discriminate Hc.
Qed.

Lemma detectIntent_cases (query : string) :
  detectIntent query = "system_optimization" \/ detectIntent query = "file_management" \/
  detectIntent query = "network" \/ detectIntent query = "general".
Proof.
  unfold detectIntent. cbv zeta.
  repeat match goal with
         | |- context [if ?b then _ else _] => destruct b
         end; auto.
Qed.

Lemma split_templates :
  (exists before after,
     split_at "{query}" system_optimization_template = Some (before, after)) /\
  (exists before after,
     split_at "{query}" file_management_template = Some (before, after)) /\
  (exists before after,
     split_at "{query}" network_template = Some (before, after)) /\
  (exists before after,
     split_at "{query}" general_template = Some (before, after)).
Proof. repeat split; eexists _, _; vm_compute; reflexivity. Qed.

(** X18.  [processQuery] answers with the template of the detected
    intent in which the query stands in the place of the first
    [{query}], verbatim -- provided the query holds no dollar sign.
    A dollar sign is read as a replacement pattern: on the query [$&]
    the answer is the general template with its placeholder left in
    place. *)
Theorem processQuery_quotes_query :
  (forall query,
     includes query "$" = false ->
     exists template before after,
       templates !! detectIntent query = Some template /\
       split_at "{query}" template = Some (before, after) /\
       processQuery query = Normal (before ++ query ++ after)) /\
  processQuery "$&" = Normal general_template.
Proof.
  split; [|vm_compute; reflexivity].
  intros query Hplain.
  destruct split_templates as ((b1 & a1 & H1) & (b2 & a2 & H2) & (b3 & a3 & H3)
                               & (b4 & a4 & H4)).
  assert (Hrun : forall intent template before after,
            detectIntent query = intent ->
            js_get templates intent = Own template ->
            templates !! intent = Some template ->
            String.eqb template EmptyString = false ->
            split_at "{query}" template = Some (before, after) ->
            exists template before after,
              templates !! detectIntent query = Some template /\
              split_at "{query}" template = Some (before, after) /\
              processQuery query = Normal (before ++ query ++ after)).
  { intros intent template before after Hintent Hget Hlook Hne Hsplit.
    exists template, before, after. rewrite Hintent. split; [exact Hlook|].
    split; [exact Hsplit|].
    unfold processQuery. cbv zeta. rewrite Hintent, Hget, Hne, bind_Normal.
    unfold String_replace. rewrite Hsplit.
    now rewrite (GetSubstitution_plain _ _ _ _ Hplain). }
  destruct (detectIntent_cases query) as [Hi | [Hi | [Hi | Hi]]].
  - apply (Hrun _ system_optimization_template b1 a1 Hi); [reflexivity|reflexivity| |exact H1].
    vm_compute. reflexivity.
  - apply (Hrun _ file_management_template b2 a2 Hi); [reflexivity|reflexivity| |exact H2].
    vm_compute. reflexivity.
  - apply (Hrun _ network_template b3 a3 Hi); [reflexivity|reflexivity| |exact H3].
    vm_compute. reflexivity.
  - apply (Hrun _ general_template b4 a4 Hi); [reflexivity|reflexivity| |exact H4].
    vm_compute. reflexivity.
Qed.

Lemma processQuery_quotes_query_witness :
  exists template before after,
    templates !! detectIntent "اینترنت" = Some template /\
    split_at "{query}" template = Some (before, after) /\
    processQuery "اینترنت" = Normal (before ++ "اینترنت" ++ after).
Proof.
  exact (proj1 processQuery_quotes_query "اینترنت" eq_refl).
Defined.

(** ** System profiler *)

Lemma store_permissions_runs (profiler : SystemProfiler) (store : Storage)
    (calls : list waiting) :
  store_permissions profiler store calls =
  Normal {| profiling_profiler := profiler;
            profiling_store :=
              <[SYSTEM_PERMISSIONS :=
                  json_text (permissions_object (profiler_permissions profiler))]> store;
            profiling_calls := calls |}.
Proof.
  unfold store_permissions, JSON_stringify.
  rewrite (serialize_json (permissions_object (profiler_permissions profiler)))
    by reflexivity.
  now rewrite bind_Normal.
Qed.

Lemma grant_levels (level : string) (p : Permissions) :
  let p' := grant level p in
  perm_display p' = perm_display p /\ perm_network p' = perm_network p /\
  perm_location p' = perm_location p /\
  ((perm_performance p = true -> perm_basicInfo p = true) ->
   perm_performance p' = true -> perm_basicInfo p' = true) /\
  (perm_performance p' = true -> perm_performance p = true \/ level = "full") /\
  (level = "full" -> perm_performance p' = true /\ perm_basicInfo p' = true) /\
  (perm_basicInfo p' = true ->
   perm_basicInfo p = true \/ level = "basic" \/ level = "full") /\
  (level = "basic" -> perm_basicInfo p' = true).
Proof.
  unfold grant. cbv zeta.
  destruct (String.eqb_spec level "basic") as [->|Hb];
    [|destruct (String.eqb_spec level "full") as [->|Hf];
      [|destruct (String.eqb_spec level "none") as [->|Hn]]];
    cbn; repeat split; intros; try discriminate; try contradiction; auto.
Qed.

Lemma profiling_snoc (events : list profiler_event) (e : profiler_event) (w : Profiling) :
  profiling (events ++ [e]) w = (w' ← profiling events w; profiler_step e w').
Proof.
  revert w. induction events as [|e0 events IH]; intros w.
  - cbn [app profiling]. rewrite bind_Normal.
    destruct (profiler_step e w); reflexivity.
  - cbn [app profiling]. destruct (profiler_step e0 w) as [w1|err]; [|reflexivity].
    rewrite !bind_Normal. apply IH.
Qed.

Lemma In_list_insert {A : Type} (l : list A) (i : nat) (x y : A) :
  In y (<[i := x]> l) -> y = x \/ In y l.
Proof.
  revert i. induction l as [|a l IH]; intros [|i]; cbn; try tauto.
  - intros [<-|H]; auto.
  - intros [<-|H]; auto. destruct (IH i H); auto.
Qed.

Lemma In_list_delete {A : Type} (l : list A) (i : nat) (y : A) :
  In y (delete i l) -> In y l.
Proof.
  revert i. induction l as [|a l IH]; intros [|i]; cbn; try tauto.
  intros [<-|H]; eauto.
Qed.

Lemma list_insert_not_nil {A : Type} (l : list A) (i : nat) (x y : A) :
  l !! i = Some y -> <[i := x]> l <> [].
Proof. destruct l, i; cbn; discriminate. Qed.

Lemma asked_call (events : list profiler_event) (level : string) (basic cpu : jsval) :
  (full_asked (events ++ [Asked level basic cpu]) <-> full_asked events \/ level = "full") /\
  (basic_asked (events ++ [Asked level basic cpu]) <->
   basic_asked events \/ level = "basic" \/ level = "full") /\
  called (events ++ [Asked level basic cpu]).
Proof.
  unfold full_asked, basic_asked, called. repeat split.
  - intros (b & c & [H|[H|[]]]%in_app_or); [left; eauto|right; congruence].
  - intros [(b & c & H)| ->]; [exists b, c|exists basic, cpu]; apply in_or_app; cbn; auto.
  - intros (l & b & c & [H|[H|[]]]%in_app_or & Hl); [left; eauto|right].
    injection H as <- _ _. exact Hl.
  - intros [(l & b & c & H & Hl)|Hl]; [exists l, b, c|exists level, basic, cpu];
      (split; [apply in_or_app; cbn; auto|assumption]).
  - exists level, basic, cpu. apply in_or_app. cbn. auto.
Qed.

Lemma asked_resume (events : list profiler_event) (i : nat) (result : jsval) :
  (full_asked (events ++ [Resumed i result]) <-> full_asked events) /\
  (basic_asked (events ++ [Resumed i result]) <-> basic_asked events) /\
  (called (events ++ [Resumed i result]) <-> called events).
Proof.
  unfold full_asked, basic_asked, called. repeat split.
  - intros (b & c & [H|[H|[]]]%in_app_or); [eauto|discriminate].
  - intros (b & c & H). exists b, c. apply in_or_app. auto.
  - intros (l & b & c & [H|[H|[]]]%in_app_or & Hl); [eauto 6|discriminate].
  - intros (l & b & c & H & Hl). exists l, b, c. split; [apply in_or_app; auto|assumption].
  - intros (l & b & c & [H|[H|[]]]%in_app_or); [eauto|discriminate].
  - intros (l & b & c & H). exists l, b, c. apply in_or_app. auto.
Qed.

(** What holds of a profiler after any events. *)
Lemma profiling_invariant (events : list profiler_event) (store : Storage) :
  exists w, profiling events (new_Profiling store) = Normal w /\
    let p := profiler_permissions (profiling_profiler w) in
    let d := profiler_data (profiling_profiler w) in
    (perm_performance p = true -> perm_basicInfo p = true) /\
    perm_display p = false /\ perm_network p = false /\ perm_location p = false /\
    (is_Some (data_basic d) <-> basic_asked events) /\
    (is_Some (data_performance d) -> full_asked events) /\
    (profiling_calls w = [] -> called events ->
     profiling_store w !! SYSTEM_PERMISSIONS = Some (json_text (permissions_object p))) /\
    (perm_performance p = true -> full_asked events) /\
    (perm_basicInfo p = true -> basic_asked events) /\
    (forall s, In s (profiling_calls w) -> past_basic s = true -> full_asked events).
Proof.
  induction events as [|e events IH] using rev_ind.
  - exists (new_Profiling store). split; [reflexivity|].
    unfold new_Profiling, new_SystemProfiler.
    cbn [profiling_profiler profiling_store profiling_calls profiler_permissions
         profiler_data perm_basicInfo perm_performance perm_display perm_network
         perm_location data_basic data_performance].
    split; [discriminate|]. do 3 (split; [reflexivity|]).
    split; [split; [intros [? ?]; discriminate|intros (? & ? & ? & [] & _)]|].
    split; [intros [? ?]; discriminate|].
    split; [intros _ (? & ? & ? & [])|].
    split; [discriminate|]. split; [discriminate|]. intros s [].
  - destruct IH as (w & Hrun & Himp & Hd & Hn & Hl & Hbasic & Hperf & Hstored & Hpp & Hpb
                    & Hcalls).
    cbv zeta in *. rewrite profiling_snoc, Hrun, bind_Normal.
    destruct w as [[p d] st calls]. cbn [profiling_profiler profiling_store
      profiling_calls profiler_permissions profiler_data] in *.
    destruct e as [level basic cpu|i result]; cbn [profiler_step].
    + destruct (asked_call events level basic cpu) as (Afull & Abasic & Acalled).
      destruct (grant_levels level p) as (Gd & Gn & Gl & Gimp & Gperf & Gfull & Gbasic & Gb).
      cbv zeta in *. unfold requestPermission.
      cbn [profiling_profiler profiling_store profiling_calls profiler_permissions
           profiler_data]. cbv zeta.
      assert (Hpp' : perm_performance (grant level p) = true ->
                     full_asked (events ++ [Asked level basic cpu])).
      { intros H. apply Afull. destruct (Gperf H); [left; auto|now right]. }
      assert (Hpb' : perm_basicInfo (grant level p) = true ->
                     basic_asked (events ++ [Asked level basic cpu])).
      { intros H. apply Abasic. destruct (Gbasic H); [left; auto|now right]. }
      assert (Hperf' : is_Some (data_performance d) ->
                       full_asked (events ++ [Asked level basic cpu])).
      { intros H. apply Afull. left. auto. }
      destruct (perm_basicInfo (grant level p)) eqn:Eb;
        [|destruct (perm_performance (grant level p)) eqn:Ep].
      * eexists. split; [reflexivity|].
        cbn [profiling_profiler profiling_store profiling_calls profiler_permissions
             profiler_data data_basic data_performance].
        rewrite Eb. repeat split; try congruence; auto.
        -- intros Hnil. destruct calls; discriminate Hnil.
        -- intros s [Hs|[<-|[]]]%in_app_or Hpast; [|discriminate Hpast].
           apply Afull. left. eauto.
      * specialize (Gimp Himp eq_refl). congruence.
      * rewrite store_permissions_runs. eexists. split; [reflexivity|].
        cbn [profiling_profiler profiling_store profiling_calls profiler_permissions
             profiler_data]. rewrite Eb, Ep.
        repeat split; try congruence; try discriminate; auto.
        -- intros H. apply Abasic. left. now apply Hbasic.
        -- intros H. apply Hbasic. apply Abasic in H as [H|[H|H]]; [exact H| |].
           ++ specialize (Gb H). congruence.
           ++ destruct (Gfull H). congruence.
        -- intros _ _. apply lookup_insert_eq.
        -- intros s Hs Hpast. apply Afull. left. eauto.
    + destruct (asked_resume events i result) as (Afull & Abasic & Acalled).
      unfold resume.
      cbn [profiling_profiler profiling_store profiling_calls profiler_permissions
           profiler_data]. cbv zeta.
      assert (Hin : forall s, calls !! i = Some s -> In s calls).
      { intros s Hs. apply list_elem_of_In. now apply list_elem_of_lookup_2 in Hs. }
      assert (Hwait : forall s s', calls !! i = Some s ->
                (past_basic s' = true -> full_asked events) ->
                let w' := {| profiling_profiler :=
                               {| profiler_permissions := p; profiler_data := d |};
                             profiling_store := st;
                             profiling_calls := <[i := s']> calls |} in
                (perm_performance p = true -> perm_basicInfo p = true) /\
                perm_display p = false /\ perm_network p = false /\
                perm_location p = false /\
                (is_Some (data_basic d) <-> basic_asked (events ++ [Resumed i result])) /\
                (is_Some (data_performance d) ->
                 full_asked (events ++ [Resumed i result])) /\
                (profiling_calls w' = [] -> called (events ++ [Resumed i result]) ->
                 st !! SYSTEM_PERMISSIONS = Some (json_text (permissions_object p))) /\
                (perm_performance p = true -> full_asked (events ++ [Resumed i result])) /\
                (perm_basicInfo p = true -> basic_asked (events ++ [Resumed i result])) /\
                (forall s0, In s0 (profiling_calls w') -> past_basic s0 = true ->
                            full_asked (events ++ [Resumed i result]))).
      { intros s s' Hs Hs' w'. unfold w'. cbn [profiling_calls].
        split; [exact Himp|]. split; [exact Hd|]. split; [exact Hn|]. split; [exact Hl|].
        split; [rewrite Abasic; exact Hbasic|].
        split; [intros H; apply Afull; auto|].
        split; [intros Hnil; now apply list_insert_not_nil with (x := s') in Hs|].
        split; [intros H; apply Afull; auto|].
        split; [intros H; apply Abasic; auto|].
        intros s0 [->|H0]%In_list_insert Hpast; apply Afull; eauto. }
      assert (Hend : forall s, calls !! i = Some s ->
                let p' := p in
                (perm_performance p = true -> perm_basicInfo p = true) /\
                perm_display p = false /\ perm_network p = false /\
                perm_location p = false /\
                (is_Some (data_basic d) <-> basic_asked (events ++ [Resumed i result])) /\
                (is_Some (data_performance d) ->
                 full_asked (events ++ [Resumed i result])) /\
                (delete i calls = [] -> called (events ++ [Resumed i result]) ->
                 <[SYSTEM_PERMISSIONS := json_text (permissions_object p)]> st
                   !! SYSTEM_PERMISSIONS = Some (json_text (permissions_object p))) /\
                (perm_performance p = true -> full_asked (events ++ [Resumed i result])) /\
                (perm_basicInfo p = true -> basic_asked (events ++ [Resumed i result])) /\
                (forall s0, In s0 (delete i calls) -> past_basic s0 = true ->
                            full_asked (events ++ [Resumed i result]))).
      { intros s Hs _.
        split; [exact Himp|]. split; [exact Hd|]. split; [exact Hn|]. split; [exact Hl|].
        split; [rewrite Abasic; exact Hbasic|].
        split; [intros H; apply Afull; auto|].
        split; [intros _ _; apply lookup_insert_eq|].
        split; [intros H; apply Afull; auto|].
        split; [intros H; apply Abasic; auto|].
        intros s0 H0%In_list_delete Hpast. apply Afull. eauto. }
      destruct (calls !! i) as [[|c|c m|c m n|]|] eqn:Es.
      * assert (Hcase : perm_performance p = true \/ perm_performance p = false)
          by (destruct (perm_performance p); auto).
        destruct Hcase as [Ep|Ep]; rewrite Ep.
        -- eexists. split; [reflexivity|].
           apply (Hwait AwaitBasic (AwaitCPU result) eq_refl). intros _. now apply Hpp.
        -- rewrite store_permissions_runs. eexists. split; [reflexivity|].
           apply (Hend AwaitBasic eq_refl).
      * eexists. split; [reflexivity|].
        apply (Hwait (AwaitCPU c) (AwaitMemory c result) eq_refl). intros _.
        apply (Hcalls (AwaitCPU c)); [now apply Hin|reflexivity].
      * eexists. split; [reflexivity|].
        apply (Hwait (AwaitMemory c m) (AwaitNetwork c m result) eq_refl). intros _.
        apply (Hcalls (AwaitMemory c m)); [now apply Hin|reflexivity].
      * eexists. split; [reflexivity|].
        assert (Hfull : full_asked events).
        { apply (Hcalls (AwaitNetwork c m n)); [now apply Hin|reflexivity]. }
        destruct (Hwait (AwaitNetwork c m n) AwaitPerformance eq_refl (fun _ => Hfull))
          as (W1 & W2 & W3 & W4 & W5 & W6 & W7 & W8 & W9 & W10).
        cbn [profiling_profiler profiling_store profiling_calls profiler_permissions
             profiler_data data_basic data_performance] in *.
        split; [exact W1|]. split; [exact W2|]. split; [exact W3|]. split; [exact W4|].
        split; [exact W5|]. split; [intros _; now apply Afull|].
        split; [exact W7|]. split; [exact W8|]. split; [exact W9|]. exact W10.
      * rewrite store_permissions_runs. eexists. split; [reflexivity|].
        apply (Hend AwaitPerformance eq_refl).
      * eexists. split; [reflexivity|].
        cbn [profiling_profiler profiling_store profiling_calls profiler_permissions
             profiler_data].
        split; [exact Himp|]. split; [exact Hd|]. split; [exact Hn|]. split; [exact Hl|].
        split; [rewrite Abasic; exact Hbasic|].
        split; [intros H; apply Afull; auto|].
        split; [intros Hnil Hc; apply Hstored; [exact Hnil|now apply Acalled]|].
        split; [intros H; apply Afull; auto|].
        split; [intros H; apply Abasic; auto|].
        intros s0 H0 Hpast. apply Afull. eauto.
Qed.

Lemma requestPermission_full (basic cpu : jsval) (w : Profiling) :
  requestPermission "full" basic cpu w =
  let profiler := profiling_profiler w in
  let p := profiler_permissions profiler in
  Normal {| profiling_profiler :=
              {| profiler_permissions :=
                   {| perm_basicInfo := true; perm_performance := true;
                      perm_display := perm_display p; perm_network := perm_network p;
                      perm_location := perm_location p |};
                 profiler_data :=
                   {| data_basic := Some basic;
                      data_performance := data_performance (profiler_data profiler) |} |};
            profiling_store := profiling_store w;
            profiling_calls := (profiling_calls w ++ [AwaitBasic])%list |}.
Proof. reflexivity. Qed.

Lemma requestPermission_none (basic cpu : jsval) (w : Profiling) :
  requestPermission "none" basic cpu w =
  let profiler := profiling_profiler w in
  let p := profiler_permissions profiler in
  store_permissions
    {| profiler_permissions :=
         {| perm_basicInfo := false; perm_performance := false;
            perm_display := perm_display p; perm_network := perm_network p;
            perm_location := perm_location p |};
       profiler_data := profiler_data profiler |}
    (profiling_store w) (profiling_calls w).
Proof. reflexivity. Qed.

(** X19.  [requestPermission] is asynchronous, and calls can overlap.
    Whatever calls are made on a new profiler and in whatever order
    they go on from one [await] to the next, every step ends normally
    and at every moment: the performance permission is held only
    together with the basic one; the display, network and location
    permissions are never granted; a basic report is held exactly
    when some call asked for the level basic or full; a performance
    report is held only if some call asked for full; and when no call
    is waiting the stored text is that of the current permissions.
    A call for full does not always leave a performance report: when
    a call for none begins while it waits for the basic report, it
    finds the permission withdrawn and collects nothing. *)
Theorem requestPermission_invariants :
  (forall (events : list profiler_event) (store : Storage),
     exists w, profiling events (new_Profiling store) = Normal w /\
       let p := profiler_permissions (profiling_profiler w) in
       let d := profiler_data (profiling_profiler w) in
       (perm_performance p = true -> perm_basicInfo p = true) /\
       perm_display p = false /\ perm_network p = false /\ perm_location p = false /\
       (is_Some (data_basic d) <-> basic_asked events) /\
       (is_Some (data_performance d) -> full_asked events) /\
       (profiling_calls w = [] -> called events ->
        profiling_store w !! SYSTEM_PERMISSIONS =
          Some (json_text (permissions_object p)))) /\
  (forall (basic cpu result : jsval) (store : Storage),
     exists w,
       profiling [Asked "full" basic cpu; Asked "none" basic cpu; Resumed 0 result]
         (new_Profiling store) = Normal w /\
       profiling_calls w = [] /\
       data_performance (profiler_data (profiling_profiler w)) = None /\
       data_basic (profiler_data (profiling_profiler w)) = Some basic).
Proof.
  split.
  - intros events store.
    destruct (profiling_invariant events store)
      as (w & Hrun & H1 & H2 & H3 & H4 & H5 & H6 & H7 & _).
    exists w. repeat split; try assumption; apply H5.
  - intros basic cpu result store. cbn [profiling profiler_step].
    rewrite requestPermission_full, bind_Normal, requestPermission_none,
      store_permissions_runs, bind_Normal.
    unfold resume, new_Profiling, new_SystemProfiler.
    cbn [profiling_profiler profiling_store profiling_calls profiler_permissions
         profiler_data lookup list_lookup perm_performance app].
    rewrite store_permissions_runs, bind_Normal. eexists. split; [reflexivity|].
    cbn [profiling_profiler profiling_calls profiler_data data_performance data_basic
         delete list_delete].
    auto.
Qed.

(** ** Deep copies *)

Lemma has_own_false (fields : list (string * jsval)) (key : string) :
  has_own fields key = false <-> ~ In key (map fst fields).
Proof.
  unfold has_own. induction fields as [|[k v] fields IH]; cbn [existsb map fst In].
  - tauto.
  - rewrite orb_false_iff, IH. destruct (String.eqb_spec k key); split.
    + intros [? _]. discriminate.
    + intros H. destruct H. now left.
    + intros [_ H] [? | ?]; [contradiction|now apply H].
    + intros H. split; [reflexivity|]. intros ?. apply H. now right.
Qed.

Lemma clone_items_same (items : list jsval) :
  Forall (fun item => cloneable item = true -> deepClone item = Cloned item) items ->
  forallb cloneable items = true ->
  clone_items deepClone items = Cloned (VArr items).
Proof.
  induction 1 as [|item items Hitem _ IH]; [reflexivity|].
  cbn [forallb clone_items]. intros [Hi Hl]%andb_true_iff.
  now rewrite (Hitem Hi), (IH Hl).
Qed.

(** Members without the name [__proto__] are copied one after the
    other. *)
Lemma clone_members_plain (l rest clonedObj : list (string * jsval)) :
  Forall (fun kv => deepClone (snd kv) = Cloned (snd kv)) l ->
  ~ In "__proto__" (map fst l) ->
  NoDup (map fst clonedObj ++ map fst l) ->
  clone_members deepClone (l ++ rest)%list (Some clonedObj) =
  clone_members deepClone rest (Some (clonedObj ++ l)%list).
Proof.
  intros Hl. revert clonedObj.
  induction Hl as [|[k v] l Hkv _ IH]; intros clonedObj Hproto Hnodup.
  - cbn [app]. now rewrite app_nil_r.
  - cbn [app clone_members snd fst map] in *. rewrite Hkv. unfold assign.
    destruct (String.eqb_spec k "__proto__") as [->|_]; [exfalso; apply Hproto; now left|].
    assert (Hfresh : has_own clonedObj k = false).
    { apply has_own_false. intros Hin.
      apply NoDup_app in Hnodup as (_ & Hdisj & _).
      apply (Hdisj k); [now apply list_elem_of_In|]. left. }
    rewrite Hfresh, IH.
    + now rewrite <- app_assoc.
    + intros Hin. apply Hproto. now right.
    + rewrite map_app, <- app_assoc. exact Hnodup.
Qed.

(** Once the prototype of the copy has been replaced, it stays so. *)
Lemma clone_members_reshaped (l : list (string * jsval)) :
  Forall (fun kv => deepClone (snd kv) = Cloned (snd kv)) l ->
  clone_members deepClone l None = Reshaped.
Proof.
  induction 1 as [|kv l Hkv _ IH]; [reflexivity|].
  cbn [clone_members]. now rewrite Hkv.
Qed.

Lemma deepClone_same (v : jsval) : cloneable v = true -> deepClone v = Cloned v.
Proof.
  induction v as [| |b|n|s|items IH|fields IH|] using jsval_ind;
    intros Hv; try reflexivity; try discriminate Hv.
  - cbn [deepClone cloneable] in *. now apply clone_items_same.
  - cbn [cloneable] in Hv.
    apply andb_true_iff in Hv as [[[Hnodup Hhas]%andb_true_iff Hproto]%andb_true_iff Hl].
    apply bool_decide_eq_true in Hnodup. apply negb_true_iff in Hhas, Hproto.
    destruct fields as [|kv fields]; [reflexivity|].
    cbn [deepClone]. rewrite Hhas.
    rewrite <- (app_nil_r (kv :: fields)) at 1.
    rewrite clone_members_plain; [reflexivity| | |].
    + rewrite Forall_forall in IH |- *. intros kv' Hin. apply IH; [exact Hin|].
      rewrite forallb_forall in Hl. apply Hl. now apply list_elem_of_In.
    + now apply has_own_false.
    + exact Hnodup.
Qed.

(** X20.  Of the values of the model (undefined, null, booleans,
    numbers, strings, arrays and plain objects), [deepClone] returns
    an equal copy of every one that has no cycle and none of whose
    objects has a property named [hasOwnProperty] or [__proto__].  An
    object with an own property [hasOwnProperty] makes the call
    throw, since that property hides the method the loop calls.  A
    property [__proto__] is never copied: when its value is an
    object, an array or null, the assignment replaces the prototype
    of the copy, which is then no plain object; any other value is
    dropped, the rest being copied as it is. *)
Theorem deepClone_copies :
  (forall v, cloneable v = true -> deepClone v = Cloned v) /\
  (forall fields, has_own fields "hasOwnProperty" = true ->
     deepClone (VObj fields) = NotAFunction) /\
  (forall before after value,
     cloneable (VObj (before ++ after)) = true -> cloneable value = true ->
     deepClone (VObj (before ++ ("__proto__", value) :: after)) =
     match value with
     | VObj _ | VArr _ | VNull => Reshaped
     | _ => Cloned (VObj (before ++ after))
     end).
Proof.
  split; [exact deepClone_same|]. split.
  - intros [|kv fields] Hhas; [discriminate Hhas|]. cbn [deepClone]. now rewrite Hhas.
  - intros before after value Hv Hvalue.
    cbn [cloneable] in Hv.
    apply andb_true_iff in Hv as [[[Hnodup Hhas]%andb_true_iff Hproto]%andb_true_iff Hl].
    apply bool_decide_eq_true in Hnodup. apply negb_true_iff in Hhas, Hproto.
    apply has_own_false in Hhas, Hproto. rewrite map_app in Hhas, Hproto, Hnodup.
    rewrite forallb_app in Hl. apply andb_true_iff in Hl as [Hb Ha].
    assert (Hall : forall l : list (string * jsval),
              forallb (fun kv => cloneable (snd kv)) l = true ->
              Forall (fun kv => deepClone (snd kv) = Cloned (snd kv)) l).
    { intros l Hfor. apply Forall_forall. intros kv Hin. apply deepClone_same.
      rewrite forallb_forall in Hfor. apply Hfor. now apply list_elem_of_In. }
    assert (Hhas' : has_own (before ++ ("__proto__", value) :: after) "hasOwnProperty"
                    = false).
    { apply has_own_false. rewrite map_app. cbn [map fst].
      intros [Hin | [Heq | Hin]]%in_app_or;
        [apply Hhas, in_or_app; now left|discriminate Heq|
         apply Hhas, in_or_app; now right]. }
    assert (Hfront : clone_members deepClone (before ++ ("__proto__", value) :: after)%list
                       (Some []) =
                     clone_members deepClone (("__proto__", value) :: after)
                       (Some before)).
    { apply (clone_members_plain before _ []); [now apply Hall| |].
      - intros Hin. apply Hproto, in_or_app. now left.
      - cbn [map app]. now apply NoDup_app in Hnodup as (? & _ & _). }
    assert (Hback : clone_members deepClone after (Some before) =
                    Cloned (VObj (before ++ after)%list)).
    { rewrite <- (app_nil_r after) at 1.
      rewrite clone_members_plain; [reflexivity|now apply Hall| |exact Hnodup].
      intros Hin. apply Hproto, in_or_app. now right. }
    destruct (before ++ ("__proto__", value) :: after)%list as [|kv fields] eqn:Hfields.
    { now destruct before. }
    cbn [deepClone]. rewrite Hhas', Hfront.
    cbn [clone_members snd fst]. rewrite (deepClone_same value Hvalue).
    unfold assign. cbn [String.eqb Ascii.eqb Bool.eqb].
    destruct value; try exact Hback; now apply clone_members_reshaped, Hall.
Qed.

(** ** Regular expressions *)

Lemma flat_map_nil {A B : Type} (f : A -> list B) (l : list A) :
  (forall x, In x l -> f x = []) -> flat_map f l = [].
Proof.
  induction l as [|a l IH]; intros H; [reflexivity|]. cbn [flat_map].
  rewrite (H a (or_introl eq_refl)), IH; [reflexivity|].
  intros x Hx. apply H. now right.
Qed.

Lemma flat_map_singleton {A : Type} (l : list A) : flat_map (fun x => [x]) l = l.
Proof. induction l as [|a l IH]; [reflexivity|]. cbn. now rewrite IH. Qed.

Lemma flat_map_flat_map {A B C : Type} (f : A -> list B) (g : B -> list C) (l : list A) :
  flat_map g (flat_map f l) = flat_map (fun x => flat_map g (f x)) l.
Proof.
  induction l as [|a l IH]; [reflexivity|]. cbn [flat_map].
  now rewrite flat_map_app, IH.
Qed.

Lemma class_matches_lit (ignoreCase : bool) (c u : N) :
  class_matches ignoreCase false [Lit c] u =
  (canonicalize ignoreCase c =? canonicalize ignoreCase u)%N.
Proof.
  unfold class_matches. cbn [existsb atom_matches].
  now rewrite orb_false_r, xorb_false_l.
Qed.

Section MatcherFacts.

Variable ignoreCase : bool.
Variable input : list N.

Lemma search_None (r : regex) (fuel i : nat) :
  search ignoreCase input r fuel i = None <->
  forall k, (i <= k <= i + fuel)%nat -> run ignoreCase input r (k, []) = [].
Proof.
  revert i. induction fuel as [|fuel IH]; intros i; cbn [search].
  - destruct (run ignoreCase input r (i, [])) eqn:E.
    + split; [|reflexivity]. intros _ k Hk. now replace k with i by lia.
    + split; [discriminate|]. intros H. specialize (H i ltac:(lia)). congruence.
  - destruct (run ignoreCase input r (i, [])) eqn:E.
    + rewrite IH. split; intros H k Hk.
      * destruct (decide (k = i)) as [->|Hne]; [exact E|]. apply H. lia.
      * apply H. lia.
    + split; [discriminate|]. intros H. specialize (H i ltac:(lia)). congruence.
Qed.

Lemma search_Some (r : regex) (fuel i p : nat) (y : mstate) :
  search ignoreCase input r fuel i = Some (p, y) <->
  (i <= p <= i + fuel)%nat /\ head (run ignoreCase input r (p, [])) = Some y /\
  forall k, (i <= k < p)%nat -> run ignoreCase input r (k, []) = [].
Proof.
  revert i. induction fuel as [|fuel IH]; intros i; cbn [search].
  - destruct (run ignoreCase input r (i, [])) as [|z zs] eqn:E.
    + split; [discriminate|]. intros (Hp & Hh & _).
      replace p with i in Hh by lia. rewrite E in Hh. discriminate.
    + split.
      * intros [= <- <-]. rewrite E. split; [lia|split; [reflexivity|intros k Hk; lia]].
      * intros (Hp & Hh & _). replace p with i in * by lia. rewrite E in Hh.
        cbn in Hh. congruence.
  - destruct (run ignoreCase input r (i, [])) as [|z zs] eqn:E.
    + rewrite IH. split.
      * intros (Hp & Hh & Hk). repeat split; try lia; [exact Hh|].
        intros k Hk'. destruct (decide (k = i)) as [->|Hne]; [exact E|]. apply Hk. lia.
      * intros (Hp & Hh & Hk).
        assert (p <> i) by (intros ->; rewrite E in Hh; discriminate).
        repeat split; try lia; [exact Hh|]. intros k Hk'. apply Hk. lia.
    + split.
      * intros [= <- <-]. rewrite E. split; [lia|split; [reflexivity|intros k Hk; lia]].
      * intros (Hp & Hh & Hk). destruct (decide (p = i)) as [->|Hne].
        -- rewrite E in Hh. cbn in Hh. congruence.
        -- specialize (Hk i ltac:(lia)). congruence.
Qed.

Lemma exec_None (r : regex) (lastIndex : nat) :
  (lastIndex <= length input)%nat ->
  exec ignoreCase input r lastIndex = None <->
  forall k, (lastIndex <= k <= length input)%nat -> run ignoreCase input r (k, []) = [].
Proof.
  intros Hle. unfold exec.
  destruct (Nat.ltb_spec (length input) lastIndex) as [Hlt|_]; [lia|].
  rewrite search_None. split; intros H k Hk; apply H; lia.
Qed.

Lemma exec_Some (r : regex) (lastIndex p : nat) (y : mstate) :
  exec ignoreCase input r lastIndex = Some (p, y) <->
  (lastIndex <= p <= length input)%nat /\
  head (run ignoreCase input r (p, [])) = Some y /\
  forall k, (lastIndex <= k < p)%nat -> run ignoreCase input r (k, []) = [].
Proof.
  unfold exec. destruct (Nat.ltb_spec (length input) lastIndex) as [Hlt|Hle].
  - split; [discriminate|]. intros (Hp & _). lia.
  - rewrite search_Some. split; intros (Hp & Hh & Hk); repeat split; try lia; assumption.
Qed.

Lemma test_occurs (r : regex) :
  test ignoreCase input r = true <-> occurs ignoreCase r input.
Proof.
  unfold test, occurs. destruct (exec ignoreCase input r 0) as [[p y]|] eqn:E.
  - split; [intros _|reflexivity]. apply exec_Some in E as (Hp & Hh & _).
    exists p, y. split; [lia|]. destruct (run ignoreCase input r (p, [])); [discriminate|].
    cbn in Hh. injection Hh as ->. now left.
  - split; [discriminate|]. intros (i & y & Hi & Hin).
    pose proof (proj1 (exec_None r 0 ltac:(lia)) E) as E'.
    rewrite (E' i) in Hin; [destruct Hin|lia].
Qed.

Lemma test_false (r : regex) :
  (forall x, run ignoreCase input r x = []) -> test ignoreCase input r = false.
Proof.
  intros H. destruct (test ignoreCase input r) eqn:E; [|reflexivity].
  apply test_occurs in E as (i & y & _ & Hin). rewrite H in Hin. destruct Hin.
Qed.

(** A class: one code unit. *)
Lemma in_run_char (negated : bool) (items : list atom) (x y : mstate) :
  In y (run ignoreCase input (Char negated items) x) <->
  exists u, input !! fst x = Some u /\
            class_matches ignoreCase negated items u = true /\
            y = (S (fst x), snd x).
Proof.
  cbn [run]. destruct (input !! fst x) as [u|].
  - destruct (class_matches ignoreCase negated items u) eqn:E.
    + split.
      * intros [<-|[]]. now exists u.
      * intros (u' & _ & _ & ->). now left.
    + split; [intros []|]. intros (u' & [= <-] & Hu & _). congruence.
  - split; [intros []|]. intros (u' & Hu & _). discriminate.
Qed.

(** The greedy star never goes back. *)
Lemma star_monotone (step : mstate -> list mstate) (fuel : nat) (x y : mstate) :
  In y (star step fuel x) -> (fst x <= fst y)%nat.
Proof.
  revert x. induction fuel as [|fuel IH]; intros x; cbn [star].
  - intros [<-|[]]. lia.
  - rewrite in_app_iff, in_flat_map. intros [(z & _ & Hz)|[<-|[]]]; [|lia].
    destruct (Nat.ltb_spec (fst x) (fst z)) as [Hlt|_]; [|destruct Hz].
    apply IH in Hz. lia.
Qed.

Lemma run_monotone (r : regex) (x y : mstate) :
  In y (run ignoreCase input r x) -> (fst x <= fst y)%nat.
Proof.
  revert x y. induction r as [|negated items|r1 IH1 r2 IH2|r1 IH1 r2 IH2|r IH| | | |r IH|n r IH];
    intros x y; cbn [run].
  - intros [<-|[]]. lia.
  - intros H. apply (in_run_char negated items x y) in H as (u & _ & _ & ->). cbn. lia.
  - rewrite in_flat_map. intros (z & Hz & Hy). apply IH1 in Hz. apply IH2 in Hy. lia.
  - rewrite in_app_iff. intros [H|H]; [now apply IH1|now apply IH2].
  - apply star_monotone.
  - destruct (fst x =? 0)%nat; [intros [<-|[]]; lia|intros []].
  - destruct (fst x =? length input)%nat; [intros [<-|[]]; lia|intros []].
  - destruct (xorb _ _); [intros [<-|[]]; lia|intros []].
  - destruct (run ignoreCase input r x); [intros [<-|[]]; lia|intros []].
  - rewrite in_map_iff. intros (z & <- & Hz). cbn. now apply IH.
Qed.

(** A run of literal characters. *)
Lemma run_literal (units : list N) (x : mstate) :
  run ignoreCase input (literal units) x =
  if matches_at ignoreCase units (drop (fst x) input)
  then [((fst x + length units)%nat, snd x)] else [].
Proof.
  revert x. induction units as [|c units IH]; intros x.
  - cbn. destruct x. cbn. now rewrite Nat.add_0_r.
  - assert (Hcons : run ignoreCase input (literal (c :: units)) x =
                    flat_map (run ignoreCase input (literal units))
                      (run ignoreCase input (Char false [Lit c]) x)).
    { destruct units; [|reflexivity].
      symmetry. exact (flat_map_singleton (run ignoreCase input (Char false [Lit c]) x)). }
    rewrite Hcons. cbn [run]. destruct (input !! fst x) as [u|] eqn:Hu.
    + rewrite (drop_S _ _ _ Hu), class_matches_lit. cbn [matches_at].
      destruct (canonicalize ignoreCase c =? canonicalize ignoreCase u)%N; [|reflexivity].
      cbn [flat_map andb]. rewrite app_nil_r, IH. cbn [fst snd length].
      now rewrite Nat.add_succ_r.
    + apply lookup_ge_None in Hu. rewrite (drop_ge _ _ Hu). reflexivity.
Qed.

Lemma run_text_advances (s : string) (r : regex) (x y : mstate) :
  code_units s <> [] ->
  In y (run ignoreCase input (Seq (text s) r) x) \/ In y (run ignoreCase input (text s) x) ->
  (fst x < fst y)%nat.
Proof.
  intros Hs. assert (Hlen : (0 < length (code_units s))%nat).
  { destruct (code_units s); [congruence|cbn; lia]. }
  assert (Htext : forall z, In z (run ignoreCase input (text s) x) ->
                            (fst x < fst z)%nat).
  { intros z. unfold text. rewrite run_literal.
    destruct (matches_at _ _ _); [|intros []]. intros [<-|[]]. cbn. lia. }
  intros [H|H]; [|now apply Htext]. cbn [run] in H. apply in_flat_map in H as (z & Hz & Hy).
  apply Htext in Hz. apply run_monotone in Hy. lia.
Qed.

(** The star of a class: every stretch of code units of the class. *)
Lemma in_star_class (negated : bool) (items : list atom) (fuel : nat) (x y : mstate) :
  (length input - fst x <= fuel)%nat ->
  In y (star (run ignoreCase input (Char negated items)) fuel x) <->
  snd y = snd x /\ (fst x <= fst y)%nat /\
  forall k, (fst x <= k < fst y)%nat ->
            exists u, input !! k = Some u /\ class_matches ignoreCase negated items u = true.
Proof.
  revert x. induction fuel as [|fuel IH]; intros x Hfuel; cbn [star].
  - split.
    + intros [<-|[]]. repeat split; [lia|]. intros k Hk. lia.
    + intros (Hs & Hle & Hk). left. destruct (decide (fst x = fst y)) as [He|Hne].
      * destruct x, y. cbn in *. congruence.
      * destruct (Hk (fst x) ltac:(lia)) as (u & Hu & _).
        apply lookup_lt_Some in Hu. lia.
  - rewrite in_app_iff, in_flat_map. split.
    + intros [(z & Hz & Hy)|[<-|[]]].
      * apply in_run_char in Hz as (u & Hu & Hc & ->). cbn [fst] in Hy.
        destruct (Nat.ltb_spec (fst x) (S (fst x))) as [_|?]; [|lia].
        apply IH in Hy as (Hs & Hle & Hk); [|apply lookup_lt_Some in Hu; cbn; lia].
        cbn [fst snd] in *. repeat split; [assumption|lia|]. intros k Hk'.
        destruct (decide (k = fst x)) as [->|Hne]; [now exists u|]. apply Hk. lia.
      * repeat split; [lia|]. intros k Hk. lia.
    + intros (Hs & Hle & Hk). destruct (decide (fst x = fst y)) as [He|Hne].
      * right. left. destruct x, y. cbn in *. congruence.
      * left. destruct (Hk (fst x) ltac:(lia)) as (u & Hu & Hc).
        exists (S (fst x), snd x). split; [apply in_run_char; now exists u|].
        cbn [fst]. destruct (Nat.ltb_spec (fst x) (S (fst x))) as [_|?]; [|lia].
        apply IH; [apply lookup_lt_Some in Hu; cbn; lia|]. cbn [fst snd].
        repeat split; [assumption|lia|]. intros k Hk'. apply Hk. lia.
Qed.

Lemma in_run_star_class (negated : bool) (items : list atom) (x y : mstate) :
  In y (run ignoreCase input (Star (Char negated items)) x) <->
  snd y = snd x /\ (fst x <= fst y)%nat /\
  forall k, (fst x <= k < fst y)%nat ->
            exists u, input !! k = Some u /\ class_matches ignoreCase negated items u = true.
Proof. cbn [run]. apply in_star_class. lia. Qed.

Lemma in_run_plus_class (negated : bool) (items : list atom) (x y : mstate) :
  In y (run ignoreCase input (Plus (Char negated items)) x) <->
  snd y = snd x /\ (fst x < fst y)%nat /\
  forall k, (fst x <= k < fst y)%nat ->
            exists u, input !! k = Some u /\ class_matches ignoreCase negated items u = true.
Proof.
  unfold Plus. change (run ignoreCase input (Seq ?a ?b) x)
    with (flat_map (run ignoreCase input b) (run ignoreCase input a x)).
  rewrite in_flat_map. split.
  - intros (z & Hz & Hy). apply in_run_char in Hz as (u & Hu & Hc & ->).
    apply in_run_star_class in Hy as (Hs & Hle & Hk). cbn [fst snd] in *.
    repeat split; [assumption|lia|]. intros k Hk'.
    destruct (decide (k = fst x)) as [->|Hne]; [now exists u|]. apply Hk. lia.
  - intros (Hs & Hlt & Hk). destruct (Hk (fst x) ltac:(lia)) as (u & Hu & Hc).
    exists (S (fst x), snd x). split; [apply in_run_char; now exists u|].
    apply in_run_star_class. cbn [fst snd]. repeat split; [assumption|lia|].
    intros k Hk'. apply Hk. lia.
Qed.

(** A pattern whose first character stands nowhere in the input
    matches nowhere. *)
Lemma run_seq_nil (r1 r2 : regex) (x : mstate) :
  run ignoreCase input r1 x = [] -> run ignoreCase input (Seq r1 r2) x = [].
Proof. intros H. cbn [run]. now rewrite H. Qed.

Lemma run_seq_nil_r (r1 r2 : regex) (x : mstate) :
  (forall z, run ignoreCase input r2 z = []) -> run ignoreCase input (Seq r1 r2) x = [].
Proof. intros H. cbn [run]. apply flat_map_nil. intros z _. apply H. Qed.

Lemma run_char_absent (negated : bool) (items : list atom) (x : mstate) :
  Forall (fun u => class_matches ignoreCase negated items u = false) input ->
  run ignoreCase input (Char negated items) x = [].
Proof.
  intros Hall. cbn [run]. destruct (input !! fst x) as [u|] eqn:Hu; [|reflexivity].
  now rewrite (Forall_lookup_1 _ _ _ _ Hall Hu).
Qed.

Lemma in_run_seq (r1 r2 : regex) (x y : mstate) :
  In y (run ignoreCase input (Seq r1 r2) x) <->
  exists z, In z (run ignoreCase input r1 x) /\ In y (run ignoreCase input r2 z).
Proof. cbn [run]. apply in_flat_map. Qed.

Lemma in_run_bol (x y : mstate) :
  In y (run ignoreCase input Bol x) <-> fst x = 0%nat /\ y = x.
Proof.
  cbn [run]. destruct (Nat.eqb_spec (fst x) 0) as [He|Hne].
  - split; [intros [<-|[]]; now split|]. intros [_ ->]. now left.
  - split; [intros []|]. intros [He _]. contradiction.
Qed.

Lemma in_run_eol (x y : mstate) :
  In y (run ignoreCase input Eol x) <-> fst x = length input /\ y = x.
Proof.
  cbn [run]. destruct (Nat.eqb_spec (fst x) (length input)) as [He|Hne].
  - split; [intros [<-|[]]; now split|]. intros [_ ->]. now left.
  - split; [intros []|]. intros [He _]. contradiction.
Qed.

Lemma in_run_text (s : string) (x y : mstate) :
  In y (run ignoreCase input (text s) x) <->
  matches_at ignoreCase (code_units s) (drop (fst x) input) = true /\
  y = ((fst x + length (code_units s))%nat, snd x).
Proof.
  unfold text. rewrite run_literal.
  destruct (matches_at ignoreCase (code_units s) (drop (fst x) input)).
  - split; [intros [<-|[]]; now split|]. intros [_ ->]. now left.
  - split; [intros []|]. intros [? _]. discriminate.
Qed.

(** What follows a stretch of the input. *)
Lemma drop_stretch (i : nat) (seg rest : list N) :
  drop i input = (seg ++ rest)%list -> drop (i + length seg) input = rest.
Proof. intros H. now rewrite <- drop_drop, H, drop_app_length. Qed.

Lemma lookup_stretch (i k : nat) (seg rest : list N) :
  drop i input = (seg ++ rest)%list -> (i <= k < i + length seg)%nat ->
  input !! k = seg !! (k - i)%nat.
Proof.
  intros H Hk. replace k with (i + (k - i))%nat at 1 by lia.
  rewrite <- lookup_drop, H. apply lookup_app_l. lia.
Qed.

(** [c+] takes a stretch of code units of the class [c], and can
    take any such stretch. *)
Lemma run_plus_class_stretch (negated : bool) (items : list atom) (x y : mstate) :
  In y (run ignoreCase input (Plus (Char negated items)) x) ->
  exists seg,
    drop (fst x) input = (seg ++ drop (fst y) input)%list /\ seg <> [] /\
    Forall (fun u => class_matches ignoreCase negated items u = true) seg /\
    fst y = (fst x + length seg)%nat /\ snd y = snd x.
Proof.
  intros H. apply in_run_plus_class in H as (Hs & Hlt & Hk).
  assert (Hlen : (fst y <= length input)%nat).
  { destruct (Hk (fst y - 1)%nat ltac:(lia)) as (u & Hu & _).
    apply lookup_lt_Some in Hu. lia. }
  exists (take (fst y - fst x) (drop (fst x) input)).
  assert (Hl : length (take (fst y - fst x) (drop (fst x) input)) = (fst y - fst x)%nat).
  { rewrite length_take, length_drop. lia. }
  split; [|split; [|split; [|split]]].
  - rewrite <- (take_drop (fst y - fst x) (drop (fst x) input)) at 1.
    rewrite drop_drop. do 2 f_equal. lia.
  - intros He. rewrite He in Hl. cbn in Hl. lia.
  - apply Forall_lookup_2. intros j u Hj.
    assert (j < fst y - fst x)%nat.
    { apply lookup_lt_Some in Hj. lia. }
    rewrite lookup_take_lt, lookup_drop in Hj by assumption.
    destruct (Hk (fst x + j)%nat ltac:(lia)) as (u' & Hu' & Hc). congruence.
  - lia.
  - exact Hs.
Qed.

Lemma in_run_plus_class_stretch (negated : bool) (items : list atom) (x : mstate)
    (seg rest : list N) :
  drop (fst x) input = (seg ++ rest)%list -> seg <> [] ->
  Forall (fun u => class_matches ignoreCase negated items u = true) seg ->
  In ((fst x + length seg)%nat, snd x) (run ignoreCase input (Plus (Char negated items)) x).
Proof.
  intros Hdrop Hne Hall. apply in_run_plus_class. cbn [fst snd].
  split; [reflexivity|]. split.
  - destruct seg; [congruence|cbn; lia].
  - intros k Hk. rewrite (lookup_stretch _ _ _ _ Hdrop Hk).
    destruct (lookup_lt_is_Some_2 seg (k - fst x)%nat ltac:(lia)) as [u Hu].
    exists u. split; [exact Hu|]. exact (Forall_lookup_1 _ _ _ _ Hall Hu).
Qed.

Lemma matches_at_app (units rest : list N) :
  matches_at ignoreCase units (units ++ rest) = true.
Proof.
  induction units as [|c units IH]; [reflexivity|]. cbn. now rewrite N.eqb_refl, IH.
Qed.

Lemma in_run_text_stretch (s : string) (x : mstate) (rest : list N) :
  drop (fst x) input = (code_units s ++ rest)%list ->
  In ((fst x + length (code_units s))%nat, snd x) (run ignoreCase input (text s) x).
Proof.
  intros H. apply in_run_text. split; [|reflexivity]. rewrite H. apply matches_at_app.
Qed.

End MatcherFacts.

(** Without the [i] flag a run of literal characters matches itself
    only. *)
Lemma matches_at_prefix (units rest : list N) :
  matches_at false units rest = true <-> exists k, rest = (units ++ k)%list.
Proof.
  revert rest. induction units as [|c units IH]; intros rest.
  - split; [intros _; now exists rest|reflexivity].
  - destruct rest as [|u rest]; cbn [matches_at].
    + split; [discriminate|]. intros (k & Hk). discriminate.
    + unfold canonicalize. cbn [andb]. rewrite andb_true_iff, N.eqb_eq, IH. split.
      * intros (-> & k & ->). now exists k.
      * intros (k & [= -> ->]). split; [reflexivity|now exists k].
Qed.

Lemma run_text_stretch (input : list N) (s : string) (x y : mstate) :
  In y (run false input (text s) x) ->
  drop (fst x) input = (code_units s ++ drop (fst y) input)%list /\
  fst y = (fst x + length (code_units s))%nat /\ snd y = snd x.
Proof.
  intros H. apply in_run_text in H as (Hm & ->). cbn [fst snd].
  apply matches_at_prefix in Hm as (k & Hk). split; [|now split].
  now rewrite (drop_stretch _ _ _ _ Hk).
Qed.

Lemma occurs_text (input : list N) (s : string) :
  occurs false (text s) input <->
  exists before after, input = (before ++ code_units s ++ after)%list.
Proof.
  unfold occurs. split.
  - intros (i & y & Hi & Hin). apply run_text_stretch in Hin as (Hdrop & _).
    cbn [fst] in Hdrop. exists (take i input), (drop (fst y) input).
    now rewrite <- Hdrop, take_drop.
  - intros (before & after & ->). exists (length before), ((length before + length (code_units s))%nat, []).
    split; [rewrite length_app; lia|].
    apply (in_run_text_stretch false _ s (length before, []) after). cbn [fst].
    apply drop_app_length.
Qed.

Lemma class_matches_whitespace (ignoreCase : bool) (u : N) :
  class_matches ignoreCase false [Whitespace] u = is_space_char u.
Proof.
  unfold class_matches. cbn [existsb atom_matches].
  now rewrite orb_false_r, xorb_false_l.
Qed.

(** ** Command and address validation *)

Lemma run_spaces_absent (ignoreCase : bool) (input : list N) (r1 r2 : regex) (x : mstate) :
  Forall (fun u => is_space_char u = false) input ->
  run ignoreCase input (Seq r1 (Seq spaces r2)) x = [].
Proof.
  intros Hall. apply run_seq_nil_r. intros z. apply run_seq_nil.
  unfold spaces, Plus. apply run_seq_nil. apply run_char_absent.
  eapply Forall_impl; [exact Hall|]. intros u Hu. now rewrite class_matches_whitespace.
Qed.

Lemma Forall_false_forallb (f : N -> bool) (l : list N) :
  forallb (fun u => negb (f u)) l = true -> Forall (fun u => f u = false) l.
Proof.
  induction l as [|u l IH]; cbn [forallb]; [constructor|].
  intros H. apply andb_true_iff in H as [Hu Hl]. constructor; [|now apply IH].
  now apply negb_true_iff.
Defined.

(** X21.  A command without any white space is accepted by
    [validateSystemCommand] unless it contains [mkfs.]: seven of the
    eight patterns need white space between two words, so that
    [rm${IFS}-rf], or any dangerous command of one word, passes. *)
Theorem validateSystemCommand_without_spaces (command : list N) :
  Forall (fun u => is_space_char u = false) command ->
  validateSystemCommand command = true <->
  ~ exists before after, command = (before ++ code_units "mkfs." ++ after)%list.
Proof.
  intros Hall. unfold validateSystemCommand, dangerousPatterns.
  cbn [existsb fst snd].
  rewrite !(test_false _ _ _ (fun x => run_spaces_absent _ command _ _ x Hall)).
  cbn [orb]. rewrite orb_false_r, negb_true_iff, <- occurs_text, <- test_occurs.
  destruct (test false command (text "mkfs.")); split; congruence.
Qed.

Lemma validateSystemCommand_without_spaces_witness :
  validateSystemCommand (code_units "rm${IFS}-rf${IFS}/") = true <->
  ~ exists before after,
      code_units "rm${IFS}-rf${IFS}/" = (before ++ code_units "mkfs." ++ after)%list.
Proof.
  apply (validateSystemCommand_without_spaces (code_units "rm${IFS}-rf${IFS}/")).
  apply Forall_false_forallb. vm_compute. reflexivity.
Defined.

(** X22.  [validateSystemCommand] rejects every command in which
    [rm] is followed by white space and [-rf], wherever it stands. *)
Theorem validateSystemCommand_rejects_rm_rf (before gap after : list N) :
  gap <> [] -> Forall (fun u => is_space_char u = true) gap ->
  validateSystemCommand
    (before ++ code_units "rm" ++ gap ++ code_units "-rf" ++ after) = false.
Proof.
  intros Hne Hgap. unfold validateSystemCommand, dangerousPatterns.
  set (command := (before ++ code_units "rm" ++ gap ++ code_units "-rf" ++ after)%list).
  cbn [existsb fst snd].
  assert (Hrm : test false command (Seq (text "rm") (Seq spaces (text "-rf"))) = true).
  { apply test_occurs. exists (length before).
    assert (H0 : drop (length before) command =
                 (code_units "rm" ++ gap ++ code_units "-rf" ++ after)%list)
      by apply drop_app_length.
    set (x0 := (length before, [] : captures)).
    set (x1 := ((length before + length (code_units "rm"))%nat, [] : captures)).
    set (x2 := ((length before + length (code_units "rm") + length gap)%nat,
                [] : captures)).
    set (x3 := ((length before + length (code_units "rm") + length gap
                 + length (code_units "-rf"))%nat, [] : captures)).
    pose proof (in_run_text_stretch false command "rm" x0 _ H0) as H1.
    pose proof (drop_stretch command _ _ _ H0) as H2.
    assert (Hall : Forall (fun u => class_matches false false [Whitespace] u = true) gap).
    { eapply Forall_impl; [exact Hgap|]. intros u Hu.
      now rewrite class_matches_whitespace. }
    pose proof (in_run_plus_class_stretch false command false [Whitespace] x1 gap _
                  H2 Hne Hall) as H3.
    pose proof (drop_stretch command _ _ _ H2) as H4.
    pose proof (in_run_text_stretch false command "-rf" x2 _ H4) as H5.
    exists x3. split; [unfold command; rewrite length_app; lia|].
    apply in_run_seq. exists x1. split; [exact H1|].
    apply in_run_seq. exists x2. split; [exact H3|exact H5]. }
  now rewrite Hrm.
Qed.

Lemma validateSystemCommand_rejects_rm_rf_witness :
  validateSystemCommand
    (code_units "sudo " ++ code_units "rm" ++ [9%N; 32%N] ++ code_units "-rf" ++
     code_units " /") = false.
Proof.
  apply (validateSystemCommand_rejects_rm_rf (code_units "sudo ") [9%N; 32%N]
           (code_units " /")).
  - discriminate.
  - repeat constructor.
Defined.

Lemma class_matches_plain (u : N) :
  class_matches false true [Whitespace; Lit 64] u = plain_unit u.
Proof.
  unfold class_matches, plain_unit. cbn [existsb atom_matches].
  unfold canonicalize. cbn [andb].
  now rewrite orb_false_r, xorb_true_l, (N.eqb_sym 64 u).
Qed.

(** X23.  [validateEmail] accepts exactly the strings made of a
    first part, [@], a second part, a dot and a third part, where the
    three parts are not empty and hold neither white space nor [@]
    (dots are allowed in each). *)
Theorem validateEmail_shape (email : list N) :
  validateEmail email = true <->
  exists user host rest,
    email = (user ++ code_units "@" ++ host ++ code_units "." ++ rest)%list /\
    user <> [] /\ host <> [] /\ rest <> [] /\
    Forall (fun u => plain_unit u = true) (user ++ host ++ rest).
Proof.
  unfold validateEmail. rewrite test_occurs. unfold occurs, email_pattern, no_space_no_at.
  split.
  - intros (i & y & _ & H).
    apply in_run_seq in H as (x0 & H0 & H). apply in_run_bol in H0 as (Hi & ->).
    cbn [fst] in Hi. subst i.
    apply in_run_seq in H as (x1 & H1 & H).
    apply run_plus_class_stretch in H1 as (user & D1 & N1 & F1 & _ & _).
    apply in_run_seq in H as (x2 & H2 & H).
    apply run_text_stretch in H2 as (D2 & _ & _).
    apply in_run_seq in H as (x3 & H3 & H).
    apply run_plus_class_stretch in H3 as (host & D3 & N3 & F3 & _ & _).
    apply in_run_seq in H as (x4 & H4 & H).
    apply run_text_stretch in H4 as (D4 & _ & _).
    apply in_run_seq in H as (x5 & H5 & H).
    apply run_plus_class_stretch in H5 as (rest & D5 & N5 & F5 & _ & _).
    apply in_run_eol in H as (He & _).
    rewrite He, drop_all, app_nil_r in D5. cbn [fst] in D1. rewrite drop_0 in D1.
    exists user, host, rest. split; [now rewrite D1, D2, D3, D4, D5|]. repeat (split; [assumption|]).
    rewrite !Forall_app. repeat split;
      (eapply Forall_impl; [eassumption|]; intros u Hu; now rewrite <- class_matches_plain).
  - intros (user & host & rest & -> & N1 & N3 & N5 & Hall).
    apply Forall_app in Hall as (F1 & Hall). apply Forall_app in Hall as (F3 & F5).
    assert (Hclass : forall l, Forall (fun u => plain_unit u = true) l ->
              Forall (fun u => class_matches false true [Whitespace; Lit 64] u = true) l).
    { intros l Hl. eapply Forall_impl; [exact Hl|]. intros u Hu.
      now rewrite class_matches_plain. }
    set (email := (user ++ code_units "@" ++ host ++ code_units "." ++ rest)%list).
    set (x0 := (0%nat, [] : captures)).
    set (x1 := (length user, [] : captures)).
    set (x2 := ((length user + length (code_units "@"))%nat, [] : captures)).
    set (x3 := ((length user + length (code_units "@") + length host)%nat,
                [] : captures)).
    set (x4 := ((length user + length (code_units "@") + length host
                 + length (code_units "."))%nat, [] : captures)).
    set (x5 := ((length user + length (code_units "@") + length host
                 + length (code_units ".") + length rest)%nat, [] : captures)).
    assert (D1 : drop (fst x0) email =
                 (user ++ code_units "@" ++ host ++ code_units "." ++ rest)%list)
      by reflexivity.
    pose proof (in_run_plus_class_stretch false email true [Whitespace; Lit 64] x0 _ _
                  D1 N1 (Hclass _ F1)) as H1.
    pose proof (drop_stretch email _ _ _ D1) as D2.
    pose proof (in_run_text_stretch false email "@" x1 _ D2) as H2.
    pose proof (drop_stretch email _ _ _ D2) as D3.
    pose proof (in_run_plus_class_stretch false email true [Whitespace; Lit 64] x2 _ _
                  D3 N3 (Hclass _ F3)) as H3.
    pose proof (drop_stretch email _ _ _ D3) as D4.
    pose proof (in_run_text_stretch false email "." x3 _ D4) as H4.
    pose proof (drop_stretch email _ _ _ D4) as D5.
    rewrite <- (app_nil_r rest) in D5.
    pose proof (in_run_plus_class_stretch false email true [Whitespace; Lit 64] x4 _ _
                  D5 N5 (Hclass _ F5)) as H5.
    assert (He : fst x5 = length email).
    { unfold x5, email. cbn [fst]. rewrite !length_app. lia. }
    exists 0%nat, x5. split; [lia|].
    apply in_run_seq. exists x0. split; [now apply in_run_bol|].
    apply in_run_seq. exists x1. split; [exact H1|].
    apply in_run_seq. exists x2. split; [exact H2|].
    apply in_run_seq. exists x3. split; [exact H3|].
    apply in_run_seq. exists x4. split; [exact H4|].
    apply in_run_seq. exists x5. split; [exact H5|]. now apply in_run_eol.
Qed.

(** ** Replacement *)

Lemma flat_map_unchanged (p : N -> bool) (replacement l : list N) :
  Forall (fun u => p u = false) l ->
  flat_map (fun u => if p u then replacement else [u]) l = l.
Proof.
  induction 1 as [|u l Hu _ IH]; [reflexivity|]. cbn [flat_map].
  now rewrite Hu, IH.
Qed.

Lemma replace_from_None (ignoreCase : bool) (input : list N) (r : regex)
    (replacement : list N) (fuel lastIndex next : nat) :
  exec ignoreCase input r lastIndex = None ->
  replace_from ignoreCase input r replacement fuel lastIndex next = drop next input.
Proof. intros H. destruct fuel; cbn [replace_from]; now rewrite H. Qed.

(** A pattern that matches nowhere leaves the string as it is. *)
Lemma replace_all_absent (ignoreCase : bool) (r : regex) (replacement input : list N) :
  (forall x, run ignoreCase input r x = []) ->
  replace_all ignoreCase r replacement input = input.
Proof.
  intros H. unfold replace_all. rewrite replace_from_None; [apply drop_0|].
  apply exec_None; [lia|]. intros k _. apply H.
Qed.

(** Replacing a class replaces every code unit of the class. *)
Lemma replace_from_char (ignoreCase : bool) (input : list N) (negated : bool)
    (items : list atom) (replacement : list N) (fuel i : nat) :
  (length input - i <= fuel)%nat -> (i <= length input)%nat ->
  replace_from ignoreCase input (Char negated items) replacement fuel i i =
  flat_map (fun u => if class_matches ignoreCase negated items u then replacement else [u])
    (drop i input).
Proof.
  revert i. induction fuel as [|fuel IH]; intros i Hfuel Hi.
  - assert (i = length input) as -> by lia. rewrite drop_all.
    rewrite replace_from_None; [now rewrite drop_all|].
    apply exec_None; [lia|]. intros k Hk. cbn [run fst].
    now rewrite (proj2 (lookup_ge_None input k)) by lia.
  - assert (Hfalse : forall p, (i <= p)%nat ->
              (forall k, (i <= k < p)%nat ->
                         run ignoreCase input (Char negated items) (k, []) = []) ->
              Forall (fun u => class_matches ignoreCase negated items u = false)
                (take (p - i) (drop i input))).
    { intros p Hp Hk. apply Forall_lookup_2. intros j u Hj.
      assert (Hlt : (j < p - i)%nat).
      { apply lookup_lt_Some in Hj. rewrite length_take in Hj. lia. }
      rewrite lookup_take_lt, lookup_drop in Hj by assumption.
      specialize (Hk (i + j)%nat ltac:(lia)). cbn [run fst snd] in Hk. rewrite Hj in Hk.
      destruct (class_matches ignoreCase negated items u); [discriminate|reflexivity]. }
    destruct (exec ignoreCase input (Char negated items) i) as [[p y]|] eqn:E.
    + apply exec_Some in E as E'. destruct E' as (Hp & Hh & Hk).
      assert (Hy : exists u, input !! p = Some u /\
                             class_matches ignoreCase negated items u = true /\
                             y = (S p, [])).
      { apply (in_run_char ignoreCase input negated items (p, []) y).
        destruct (run ignoreCase input (Char negated items) (p, [])); [discriminate|].
        cbn in Hh. injection Hh as ->. now left. }
      destruct Hy as (u & Hu & Hc & ->).
      assert (Hlt : (p < length input)%nat) by now apply lookup_lt_Some in Hu.
      cbn [replace_from]. rewrite E. cbn [fst].
      destruct (Nat.leb_spec i p) as [_|?]; [|lia].
      destruct (Nat.eqb_spec (S p) p) as [?|_]; [lia|].
      rewrite IH by lia.
      rewrite <- (take_drop (p - i) (drop i input)) at 2.
      rewrite drop_drop. replace (i + (p - i))%nat with p by lia.
      rewrite (drop_S _ _ _ Hu), flat_map_app. cbn [flat_map]. rewrite Hc.
      rewrite (flat_map_unchanged _ _ _ (Hfalse p ltac:(lia) Hk)).
      now rewrite <- !app_assoc.
    + rewrite replace_from_None by exact E.
      pose proof (proj1 (exec_None ignoreCase input _ i Hi) E) as Hk.
      symmetry. rewrite <- (take_ge (drop i input) (length input - i)) at 1 2
        by (rewrite length_drop; lia).
      apply flat_map_unchanged. apply Hfalse; [lia|]. intros k Hk'. apply Hk. lia.
Qed.

Lemma replace_all_char (ignoreCase negated : bool) (items : list atom)
    (replacement input : list N) :
  replace_all ignoreCase (Char negated items) replacement input =
  flat_map (fun u => if class_matches ignoreCase negated items u then replacement else [u])
    input.
Proof. unfold replace_all. rewrite replace_from_char by lia. now rewrite drop_0. Qed.

(** ** Sanitization (utils.js) *)

Lemma class_matches_lit_exact (c u : N) :
  class_matches false false [Lit c] u = (u =? c)%N.
Proof. rewrite class_matches_lit. unfold canonicalize. cbn [andb]. apply N.eqb_sym. Qed.

Lemma replaced_other (c : N) (replacement : string) (u : N) :
  u <> c -> replaced c replacement [u] = [u].
Proof.
  intros Hu. unfold replaced. cbn [flat_map].
  rewrite class_matches_lit_exact, (proj2 (N.eqb_neq u c) Hu). reflexivity.
Qed.

Lemma escape_unit_replaced (u : N) :
  replaced 39%N "&#x27;"
    (replaced 34%N "&quot;"
       (replaced 62%N "&gt;" (replaced 60%N "&lt;" (replaced 38%N "&amp;" (escape_unit u))))) =
  sanitized_unit u.
Proof.
  destruct (N.eq_dec u 38%N) as [->|H38]; [vm_compute; reflexivity|].
  destruct (N.eq_dec u 60%N) as [->|H60]; [vm_compute; reflexivity|].
  destruct (N.eq_dec u 62%N) as [->|H62]; [vm_compute; reflexivity|].
  destruct (N.eq_dec u 160%N) as [->|H160]; [vm_compute; reflexivity|].
  destruct (N.eq_dec u 34%N) as [->|H34]; [vm_compute; reflexivity|].
  destruct (N.eq_dec u 39%N) as [->|H39]; [vm_compute; reflexivity|].
  unfold escape_unit, sanitized_unit.
  rewrite (proj2 (N.eqb_neq u 38%N) H38), (proj2 (N.eqb_neq u 60%N) H60),
    (proj2 (N.eqb_neq u 62%N) H62), (proj2 (N.eqb_neq u 160%N) H160),
    (proj2 (N.eqb_neq u 34%N) H34), (proj2 (N.eqb_neq u 39%N) H39).
  now rewrite !replaced_other.
Qed.

Lemma escape_replaced (input : list N) :
  replace_all false (text "'") (code_units "&#x27;")
    (replace_all false (Char false [Lit 34]) (code_units "&quot;")
       (replace_all false (text ">") (code_units "&gt;")
          (replace_all false (text "<") (code_units "&lt;")
             (replace_all false (text "&") (code_units "&amp;") (escape_text input))))) =
  flat_map sanitized_unit input.
Proof.
  change (text "'") with (Char false [Lit 39]).
  change (text ">") with (Char false [Lit 62]).
  change (text "<") with (Char false [Lit 60]).
  change (text "&") with (Char false [Lit 38]).
  rewrite !replace_all_char. unfold escape_text.
  change (replaced 39 "&#x27;"
            (replaced 34 "&quot;"
               (replaced 62 "&gt;"
                  (replaced 60 "&lt;"
                     (replaced 38 "&amp;" (flat_map escape_unit input))))) =
          flat_map sanitized_unit input).
  unfold replaced at 5. rewrite flat_map_flat_map.
  unfold replaced at 4. rewrite flat_map_flat_map.
  unfold replaced at 3. rewrite flat_map_flat_map.
  unfold replaced at 2. rewrite flat_map_flat_map.
  unfold replaced at 1. rewrite flat_map_flat_map.
  apply flat_map_ext. intros u. exact (escape_unit_replaced u).
Qed.

Lemma sanitized_unit_safe (u : N) : forallb markup_free (sanitized_unit u) = true.
Proof.
  destruct (N.eq_dec u 38%N) as [->|H38]; [vm_compute; reflexivity|].
  destruct (N.eq_dec u 60%N) as [->|H60]; [vm_compute; reflexivity|].
  destruct (N.eq_dec u 62%N) as [->|H62]; [vm_compute; reflexivity|].
  destruct (N.eq_dec u 160%N) as [->|H160]; [vm_compute; reflexivity|].
  destruct (N.eq_dec u 34%N) as [->|H34]; [vm_compute; reflexivity|].
  destruct (N.eq_dec u 39%N) as [->|H39]; [vm_compute; reflexivity|].
  unfold sanitized_unit.
  rewrite (proj2 (N.eqb_neq u 38%N) H38), (proj2 (N.eqb_neq u 60%N) H60),
    (proj2 (N.eqb_neq u 62%N) H62), (proj2 (N.eqb_neq u 160%N) H160),
    (proj2 (N.eqb_neq u 34%N) H34), (proj2 (N.eqb_neq u 39%N) H39).
  cbn [forallb]. unfold markup_free.
  now rewrite (proj2 (N.eqb_neq u 60%N) H60), (proj2 (N.eqb_neq u 62%N) H62),
    (proj2 (N.eqb_neq u 34%N) H34), (proj2 (N.eqb_neq u 39%N) H39).
Qed.

Lemma markup_free_spec (u : N) :
  markup_free u = true -> (u <> 60 /\ u <> 62 /\ u <> 34 /\ u <> 39)%N.
Proof.
  unfold markup_free. rewrite negb_true_iff, !orb_false_iff, !N.eqb_neq. tauto.
Qed.

Lemma forallb_flat_map {A B : Type} (p : B -> bool) (f : A -> list B) (l : list A) :
  (forall x, forallb p (f x) = true) -> forallb p (flat_map f l) = true.
Proof.
  intros H. induction l as [|a l IH]; [reflexivity|]. cbn [flat_map].
  now rewrite forallb_app, H, IH.
Qed.

Lemma canonicalize_less_than_sign (u : N) :
  u <> 60%N -> (canonicalize true 60 =? canonicalize true u)%N = false.
Proof.
  intros Hu. apply N.eqb_neq. unfold canonicalize, between. cbn [andb].
  change ((97 <=? 60)%N && (60 <=? 122)%N) with false. cbv iota.
  destruct (N.leb_spec 97 u), (N.leb_spec u 122); cbn [andb]; lia.
Qed.

(** The script pattern needs a [<]. *)
Lemma script_pattern_absent (input : list N) (x : mstate) :
  Forall (fun u => u <> 60%N) input -> run true input script_pattern x = [].
Proof.
  intros Hall. unfold script_pattern. apply run_seq_nil.
  change (text "<script") with (Seq (Char false [Lit 60]) (text "script")).
  apply run_seq_nil. apply run_char_absent.
  eapply Forall_impl; [exact Hall|]. intros u Hu.
  rewrite class_matches_lit. now apply canonicalize_less_than_sign.
Qed.

(** X24.  [sanitizeInput] rewrites its input code unit by code unit.
    The characters [&], [<], [>] and the no-break space come out
    escaped twice ([&amp;amp;], [&amp;lt;], [&amp;gt;],
    [&amp;nbsp;]), since the ampersand of the entity written by
    [innerHTML] is escaped again by the first [replace]; the two
    quotes are escaped once.  The result holds none of [<], [>], the
    double and the single quote, and the removal of script elements
    that ends the function never removes anything. *)
Theorem sanitizeInput_entities (input : list N) :
  sanitizeInput input = flat_map sanitized_unit input /\
  Forall (fun u => u <> 60 /\ u <> 62 /\ u <> 34 /\ u <> 39)%N (sanitizeInput input).
Proof.
  assert (Hsafe : Forall (fun u => u <> 60 /\ u <> 62 /\ u <> 34 /\ u <> 39)%N
                    (flat_map sanitized_unit input)).
  { apply Forall_forall. intros u Hu. apply markup_free_spec.
    pose proof (forallb_flat_map markup_free sanitized_unit input sanitized_unit_safe)
      as Hall.
    rewrite forallb_forall in Hall. apply Hall. now apply list_elem_of_In. }
  assert (Heq : sanitizeInput input = flat_map sanitized_unit input).
  { unfold sanitizeInput. cbv zeta. rewrite escape_replaced.
    apply replace_all_absent. intros x. apply script_pattern_absent.
    eapply Forall_impl; [exact Hsafe|]. intros u Hu. apply Hu. }
  split; [exact Heq|]. now rewrite Heq.
Qed.

(** ** Device detection *)

Lemma test_alternative (ignoreCase : bool) (input : list N) (r1 r2 : regex) :
  test ignoreCase input (Alt r1 r2) =
  test ignoreCase input r1 || test ignoreCase input r2.
Proof.
  apply eq_true_iff_eq. rewrite orb_true_iff, !test_occurs. unfold occurs. split.
  - intros (i & y & Hi & Hin). cbn [run] in Hin. apply in_app_iff in Hin as [H|H];
      [left|right]; now exists i, y.
  - intros [(i & y & Hi & Hin)|(i & y & Hi & Hin)]; exists i, y; (split; [exact Hi|]);
      cbn [run]; apply in_app_iff; [now left|now right].
Qed.

(** X25.  [Utils.detectDevice] never reports a tablet: the test for
    [iPad] that would do so comes after the test for
    [iPhone|iPad|iPod], which has already taken every user agent
    naming an iPad.  Such a user agent is reported as a mobile
    device. *)
Theorem detectDevice_never_tablet (ua : list N) :
  isTablet (detectDevice ua) = false /\
  device_type (detectDevice ua) <> "tablet" /\
  isMobile (detectDevice ua) = negb (isDesktop (detectDevice ua)) /\
  (occurs true (text "iPad") ua ->
   device_type (detectDevice ua) = "mobile" /\ isMobile (detectDevice ua) = true).
Proof.
  unfold detectDevice. cbn [alternatives]. rewrite !test_alternative.
  rewrite <- (test_occurs true ua (text "iPad")).
  destruct (test true ua (text "Android")); [cbn; repeat split; discriminate|].
  destruct (test true ua (text "iPad")).
  - cbn [orb]. rewrite orb_true_r. cbn. repeat split; discriminate.
  - cbn [orb].
    destruct (test true ua (text "iPhone") || test true ua (text "iPod"));
      [cbn; repeat split; discriminate|].
    destruct (test true ua (text "Windows")); [cbn; repeat split; discriminate|].
    destruct (test true ua (text "Mac")); [cbn; repeat split; discriminate|].
    destruct (test true ua (text "Linux")); cbn; repeat split; discriminate.
Qed.

(** ** Security manager *)

Lemma test_global_initial (ignoreCase : bool) (input : list N) (r : regex) :
  fst (test_global ignoreCase input r 0) = test ignoreCase input r.
Proof.
  unfold test_global, test. now destruct (exec ignoreCase input r 0) as [[p y]|].
Qed.

Lemma test_global_false (ignoreCase : bool) (input : list N) (r : regex) (lastIndex : nat) :
  fst (test_global ignoreCase input r lastIndex) = false ->
  snd (test_global ignoreCase input r lastIndex) = 0%nat.
Proof.
  unfold test_global. now destruct (exec ignoreCase input r lastIndex) as [[p y]|].
Qed.

Lemma test_global_advances (ignoreCase : bool) (input : list N) (r : regex) :
  (forall i y, In y (run ignoreCase input r (i, [])) -> (i < fst y)%nat) ->
  fst (test_global ignoreCase input r 0) = true ->
  snd (test_global ignoreCase input r 0) <> 0%nat.
Proof.
  intros Hadv. unfold test_global.
  destruct (exec ignoreCase input r 0) as [[p y]|] eqn:E; [|discriminate].
  intros _. cbn [snd]. apply exec_Some in E as (_ & Hh & _).
  destruct (run ignoreCase input r (p, [])) as [|z zs] eqn:Hr; [discriminate|].
  cbn in Hh. injection Hh as ->. specialize (Hadv p y). rewrite Hr in Hadv.
  specialize (Hadv (or_introl eq_refl)). lia.
Qed.

Lemma some_test_length (input : list N) (patterns : list regex) (lastIndexes : list nat) :
  length (snd (some_test input patterns lastIndexes)) = length lastIndexes.
Proof.
  revert lastIndexes. induction patterns as [|r patterns IH]; intros [|li lis];
    cbn [some_test]; try reflexivity.
  destruct (test_global true input r li) as [[|] li'].
  - reflexivity.
  - specialize (IH lis). destruct (some_test input patterns lis) as [b rest].
    cbn [snd length] in *. now rewrite IH.
Qed.

Lemma some_test_false (input : list N) (patterns : list regex) (lastIndexes : list nat) :
  length lastIndexes = length patterns ->
  fst (some_test input patterns lastIndexes) = false ->
  snd (some_test input patterns lastIndexes) = map (fun _ => 0%nat) patterns.
Proof.
  revert lastIndexes. induction patterns as [|r patterns IH]; intros [|li lis];
    cbn [some_test length]; try discriminate; [reflexivity|].
  intros [= Hlen]. pose proof (test_global_false true input r li) as Hzero.
  destruct (test_global true input r li) as [[|] li']; [discriminate|].
  specialize (IH lis Hlen). destruct (some_test input patterns lis) as [b rest].
  cbn [fst snd] in *. intros Hb. now rewrite (IH Hb), (Hzero eq_refl).
Qed.

Lemma some_test_initial (input : list N) (patterns : list regex) :
  fst (some_test input patterns (map (fun _ => 0%nat) patterns)) =
  existsb (fun r => test true input r) patterns.
Proof.
  induction patterns as [|r patterns IH]; [reflexivity|]. cbn [some_test map existsb].
  rewrite <- (test_global_initial true input r).
  destruct (test_global true input r 0) as [[|] li']; [reflexivity|].
  destruct (some_test input patterns (map (fun _ => 0%nat) patterns)) as [b rest].
  cbn [fst] in *. now rewrite IH.
Qed.

Lemma some_test_advances (input : list N) (patterns : list regex) :
  (forall r, In r patterns ->
     forall i y, In y (run true input r (i, [])) -> (i < fst y)%nat) ->
  fst (some_test input patterns (map (fun _ => 0%nat) patterns)) = true ->
  snd (some_test input patterns (map (fun _ => 0%nat) patterns)) <>
  map (fun _ => 0%nat) patterns.
Proof.
  induction patterns as [|r patterns IH]; intros Hadv; [discriminate|].
  cbn [some_test map].
  pose proof (test_global_advances true input r (Hadv r (or_introl eq_refl))) as Hr.
  destruct (test_global true input r 0) as [[|] li'].
  - cbn [fst snd] in *. intros _ [= He]. now apply Hr.
  - assert (IH' := IH (fun r' Hr' => Hadv r' (or_intror Hr'))).
    destruct (some_test input patterns (map (fun _ => 0%nat) patterns)) as [b rest].
    cbn [fst snd] in *. intros Hb [= _ He]. now apply IH'.
Qed.

Lemma xssPatterns_advance (input : list N) (r : regex) :
  In r xssPatterns ->
  forall i y, In y (run true input r (i, [])) -> (i < fst y)%nat.
Proof.
  intros Hin i y Hy. unfold xssPatterns in Hin. cbn [In] in Hin.
  destruct Hin as [<-|[<-|[<-|[<-|[<-|[<-|[<-|[<-|[]]]]]]]]].
  - refine (run_text_advances true input "<script" _ (i, []) y _ (or_introl Hy)).
    discriminate.
  - apply (run_text_advances true input "javascript:" Empty (i, []) y);
      [discriminate|now right].
  - refine (run_text_advances true input "on" _ (i, []) y _ (or_introl Hy)).
    discriminate.
  - apply (run_text_advances true input "<iframe" Empty (i, []) y);
      [discriminate|now right].
  - apply (run_text_advances true input "<object" Empty (i, []) y);
      [discriminate|now right].
  - apply (run_text_advances true input "<embed" Empty (i, []) y);
      [discriminate|now right].
  - apply (run_text_advances true input "eval(" Empty (i, []) y);
      [discriminate|now right].
  - apply (run_text_advances true input "document.cookie" Empty (i, []) y);
      [discriminate|now right].
Qed.

(** X26.  [containsXSS] keeps state between calls, in the
    [lastIndex] of its patterns, which carry the [g] flag.  On a
    manager whose patterns are all at [lastIndex] 0 the answer is
    right: true exactly when one of the patterns occurs in the input.
    A negative answer leaves every [lastIndex] at 0; a positive one
    always leaves one of them behind, and the next call can then miss
    an input that holds a pattern: asked twice about the same unsafe
    text, the manager can answer true and then false. *)
Theorem containsXSS_lastIndex (input : list N) :
  (fst (containsXSS input initial_lastIndexes) = true <->
   exists r, In r xssPatterns /\ occurs true r input) /\
  (forall lastIndexes, length lastIndexes = length xssPatterns ->
     fst (containsXSS input lastIndexes) = false ->
     snd (containsXSS input lastIndexes) = initial_lastIndexes) /\
  (fst (containsXSS input initial_lastIndexes) = true ->
   snd (containsXSS input initial_lastIndexes) <> initial_lastIndexes) /\
  (exists unsafe,
     fst (containsXSS unsafe initial_lastIndexes) = true /\
     fst (containsXSS unsafe (snd (containsXSS unsafe initial_lastIndexes))) = false).
Proof.
  unfold containsXSS, initial_lastIndexes. split; [|split; [|split]].
  - rewrite some_test_initial, existsb_exists. split.
    + intros (r & Hr & Ht). exists r. split; [exact Hr|]. now apply test_occurs.
    + intros (r & Hr & Ht). exists r. split; [exact Hr|]. now apply test_occurs.
  - intros lastIndexes Hlen. now apply some_test_false.
  - apply some_test_advances. intros r Hr. now apply xssPatterns_advance.
  - exists (code_units "<iframe"). split; vm_compute; reflexivity.
Qed.

Lemma SecurityManager_sanitizeInput_resets (input : list N) (lastIndexes : list nat) :
  input <> [] -> length lastIndexes = length xssPatterns ->
  snd (SecurityManager_sanitizeInput input lastIndexes) = initial_lastIndexes.
Proof.
  intros Hne Hlen. destruct input as [|u input]; [congruence|].
  cbn [SecurityManager_sanitizeInput snd].
  do 9 (destruct lastIndexes as [|? lastIndexes]; try discriminate Hlen). reflexivity.
Qed.

Lemma handlePasteEvent_initial (text : list N) :
  handlePasteEvent text initial_lastIndexes =
  (existsb (fun r => test true text r) xssPatterns, initial_lastIndexes).
Proof.
  unfold handlePasteEvent, containsXSS.
  pose proof (some_test_initial text xssPatterns) as Hfst.
  pose proof (some_test_false text xssPatterns initial_lastIndexes eq_refl) as Hfalse.
  pose proof (some_test_length text xssPatterns initial_lastIndexes) as Hlen.
  fold initial_lastIndexes in Hfst.
  destruct (some_test text xssPatterns initial_lastIndexes) as [[|] rest];
    cbn [fst snd] in *; rewrite <- Hfst.
  - f_equal. apply SecurityManager_sanitizeInput_resets; [discriminate|exact Hlen].
  - now rewrite Hfalse.
Qed.

(** X27.  In the handling of paste events the state of the patterns
    never shows: a paste is blocked exactly when one of the patterns
    matches its text, whatever was pasted before.  After a blocked
    paste the warning passes its message through [sanitizeInput],
    whose [replace] calls put every [lastIndex] back to 0; after a
    paste that is let through every [lastIndex] is 0 already. *)
Theorem handlePasteEvents_stateless (texts : list (list N)) :
  handlePasteEvents texts initial_lastIndexes =
  (map (fun text => existsb (fun r => test true text r) xssPatterns) texts,
   initial_lastIndexes).
Proof.
  induction texts as [|text texts IH]; [reflexivity|].
  cbn [handlePasteEvents map]. rewrite handlePasteEvent_initial, IH. reflexivity.
Qed.

(** ** Colours *)

Lemma hex_digits_fixed (k : nat) (fuel : nat) (n : N) (acc : string) :
  (16 ^ N.of_nat k <= n < 16 ^ N.of_nat (S k))%N -> (k <= fuel)%nat ->
  hex_digits fuel n acc = hex_fixed (S k) n acc.
Proof.
  revert fuel n acc. induction k as [|k IH]; intros fuel n acc Hn Hfuel.
  - change (16 ^ N.of_nat 1)%N with 16%N in Hn. cbn [hex_fixed].
    destruct fuel; cbn [hex_digits]; [reflexivity|].
    destruct (N.ltb_spec n 16); [reflexivity|lia].
  - destruct fuel as [|fuel]; [lia|]. cbn [hex_digits].
    rewrite !Nat2N.inj_succ, !N.pow_succ_r' in Hn.
    destruct (N.ltb_spec n 16) as [Hlt|_].
    + assert (1 <= 16 ^ N.of_nat k)%N by (apply N.neq_0_le_1, N.pow_nonzero; lia). lia.
    + change (hex_fixed (S (S k)) n acc)
        with (hex_fixed (S k) (n / 16) (String (hex_digit_lower (n mod 16)) acc)).
      apply IH; [|lia]. rewrite Nat2N.inj_succ, N.pow_succ_r'. split.
      * apply N.div_le_lower_bound; lia.
      * apply N.Div0.div_lt_upper_bound; lia.
Qed.

Lemma code_units_hex_digit (d : N) (s : string) :
  (d < 16)%N ->
  code_units (String (hex_digit_lower d) s) = hex_unit d :: code_units s.
Proof.
  intros Hd. assert (Hin : In d [0; 1; 2; 3; 4; 5; 6; 7; 8; 9; 10; 11; 12; 13; 14; 15]%N)
    by (cbn [In]; lia).
  cbn [In] in Hin.
  repeat (destruct Hin as [<- | Hin]; [reflexivity|]). destruct Hin.
Qed.

Lemma hex_unit_class (d : N) :
  (d < 16)%N -> class_matches true false [Range 97 102; Digit] (hex_unit d) = true.
Proof.
  intros Hd. assert (Hin : In d [0; 1; 2; 3; 4; 5; 6; 7; 8; 9; 10; 11; 12; 13; 14; 15]%N)
    by (cbn [In]; lia).
  cbn [In] in Hin.
  repeat (destruct Hin as [<- | Hin]; [reflexivity|]). destruct Hin.
Qed.

Lemma parseInt16_pair (d1 d0 : N) :
  (d1 < 16)%N -> (d0 < 16)%N ->
  parseInt16 [hex_unit d1; hex_unit d0] = Some (Z.of_N (16 * d1 + d0)).
Proof.
  intros H1 H0.
  assert (Hin1 : In d1 [0; 1; 2; 3; 4; 5; 6; 7; 8; 9; 10; 11; 12; 13; 14; 15]%N)
    by (cbn [In]; lia).
  assert (Hin0 : In d0 [0; 1; 2; 3; 4; 5; 6; 7; 8; 9; 10; 11; 12; 13; 14; 15]%N)
    by (cbn [In]; lia).
  cbn [In] in Hin1, Hin0.
  repeat (destruct Hin1 as [<- | Hin1];
          [repeat (destruct Hin0 as [<- | Hin0]; [reflexivity|]); destruct Hin0|]).
  destruct Hin1.
Qed.

Lemma run_twice_hex (input : list N) (k : nat) (caps : captures) (u1 u2 : N) :
  input !! k = Some u1 -> input !! S k = Some u2 ->
  class_matches true false [Range 97 102; Digit] u1 = true ->
  class_matches true false [Range 97 102; Digit] u2 = true ->
  run true input (Twice hex_class) (k, caps) = [(S (S k), caps)].
Proof.
  intros Hu1 Hu2 Hc1 Hc2. unfold Twice, hex_class. cbn [run fst snd].
  rewrite Hu1, Hc1. cbn [flat_map fst snd]. now rewrite Hu2, Hc2.
Qed.

Lemma hexToRgb_digits (r1 r0 g1 g0 b1 b0 : N) :
  (r1 < 16)%N -> (r0 < 16)%N -> (g1 < 16)%N -> (g0 < 16)%N -> (b1 < 16)%N -> (b0 < 16)%N ->
  hexToRgb [35%N; hex_unit r1; hex_unit r0; hex_unit g1; hex_unit g0;
            hex_unit b1; hex_unit b0] =
  Some {| rgb_r := Some (Z.of_N (16 * r1 + r0));
          rgb_g := Some (Z.of_N (16 * g1 + g0));
          rgb_b := Some (Z.of_N (16 * b1 + b0)) |}.
Proof.
  intros Hr1 Hr0 Hg1 Hg0 Hb1 Hb0.
  rewrite <- (parseInt16_pair r1 r0 Hr1 Hr0), <- (parseInt16_pair g1 g0 Hg1 Hg0),
    <- (parseInt16_pair b1 b0 Hb1 Hb0).
  apply hex_unit_class in Hr1, Hr0, Hg1, Hg0, Hb1, Hb0.
  set (hex := [35%N; hex_unit r1; hex_unit r0; hex_unit g1; hex_unit g0;
               hex_unit b1; hex_unit b0]).
  pose proof (fun caps => run_twice_hex hex 1 caps _ _ eq_refl eq_refl Hr1 Hr0) as T1.
  pose proof (fun caps => run_twice_hex hex 3 caps _ _ eq_refl eq_refl Hg1 Hg0) as T2.
  pose proof (fun caps => run_twice_hex hex 5 caps _ _ eq_refl eq_refl Hb1 Hb0) as T3.
  assert (Hrun : exists rest,
            run true hex hex_pattern (0%nat, []) =
            (7%nat, [(3%nat, (5%nat, 7%nat)); (2%nat, (3%nat, 5%nat));
                     (1%nat, (1%nat, 3%nat))]) :: rest).
  { unfold hex_pattern.
    change (run true hex (Seq Bol ?r) (0%nat, [])) with
      (flat_map (run true hex r) [(0%nat, [] : captures)]).
    cbn [flat_map]. rewrite app_nil_r.
    change (run true hex (Seq (Opt (text "#")) ?r) (0%nat, [])) with
      (flat_map (run true hex r) [(1%nat, [] : captures); (0%nat, [] : captures)]).
    cbn [flat_map].
    change (run true hex (Seq (Group 1 ?t) ?r) (1%nat, [])) with
      (flat_map (run true hex r)
         (map (fun y : mstate => (fst y, (1%nat, (1%nat, fst y)) :: snd y))
            (run true hex t (1%nat, [])))).
    rewrite T1. cbn [map flat_map fst snd].
    change (run true hex (Seq (Group 2 ?t) ?r) (3%nat, ?caps)) with
      (flat_map (run true hex r)
         (map (fun y : mstate => (fst y, (2%nat, (3%nat, fst y)) :: snd y))
            (run true hex t (3%nat, caps)))).
    rewrite T2. cbn [map flat_map fst snd].
    change (run true hex (Seq (Group 3 ?t) ?r) (5%nat, ?caps)) with
      (flat_map (run true hex r)
         (map (fun y : mstate => (fst y, (3%nat, (5%nat, fst y)) :: snd y))
            (run true hex t (5%nat, caps)))).
    rewrite T3. cbn [map flat_map fst snd run length hex Nat.eqb app].
    eexists. reflexivity. }
  destruct Hrun as (rest & Hrun).
  unfold hexToRgb, exec. cbn [length hex Nat.ltb Nat.leb Nat.sub search].
  fold hex. rewrite Hrun. reflexivity.
Qed.

Lemma shift_left_small (a k m : Z) :
  (0 <= a)%Z -> (0 <= k < 32)%Z -> m = (2 ^ k)%Z -> (a * m < 2147483648)%Z ->
  shift_left a k = (a * m)%Z.
Proof.
  intros Ha Hk -> Hm. unfold shift_left.
  assert (Hpos : (0 < 2 ^ k)%Z) by (apply Z.pow_pos_nonneg; lia).
  rewrite (ToInt32_small a) by nia.
  rewrite Z.mod_small by lia. rewrite Z.shiftl_mul_pow2 by lia.
  apply ToInt32_small. nia.
Qed.

Lemma hex_fixed_step (k : nat) (q d : N) (acc : string) :
  (d < 16)%N ->
  hex_fixed (S k) (16 * q + d) acc = hex_fixed k q (String (hex_digit_lower d) acc).
Proof.
  intros Hd. cbn [hex_fixed].
  assert (Hq : ((16 * q + d) / 16 = q)%N).
  { symmetry. apply (N.div_unique _ 16 q d); [exact Hd|reflexivity]. }
  assert (Hm : ((16 * q + d) mod 16 = d)%N).
  { symmetry. apply (N.mod_unique _ 16 q d); [exact Hd|reflexivity]. }
  now rewrite Hq, Hm.
Qed.

(** The two hexadecimal digits of a component. *)
Lemma component_digits (v : Z) :
  (0 <= v <= 255)%Z ->
  exists d1 d0 : N, (d1 < 16)%N /\ (d0 < 16)%N /\ v = Z.of_N (16 * d1 + d0).
Proof.
  intros Hv. exists (Z.to_N (v / 16)), (Z.to_N (v mod 16)).
  assert (0 <= v / 16 < 16)%Z by (split; [apply Z.div_pos|apply Z.div_lt_upper_bound]; lia).
  assert (0 <= v mod 16 < 16)%Z by (apply Z.mod_pos_bound; lia).
  split; [lia|]. split; [lia|].
  rewrite N2Z.inj_add, N2Z.inj_mul, !Z2N.id by lia.
  change (Z.of_N 16) with 16%Z. apply Z.div_mod. lia.
Qed.

Lemma rgbToHex_digits (r1 r0 g1 g0 b1 b0 : N) :
  (r1 < 16)%N -> (r0 < 16)%N -> (g1 < 16)%N -> (g0 < 16)%N -> (b1 < 16)%N -> (b0 < 16)%N ->
  rgbToHex (Z.of_N (16 * r1 + r0)) (Z.of_N (16 * g1 + g0)) (Z.of_N (16 * b1 + b0)) =
  String "#"
    (String (hex_digit_lower r1) (String (hex_digit_lower r0)
       (String (hex_digit_lower g1) (String (hex_digit_lower g0)
          (String (hex_digit_lower b1) (String (hex_digit_lower b0) EmptyString)))))).
Proof.
  intros Hr1 Hr0 Hg1 Hg0 Hb1 Hb0. unfold rgbToHex.
  rewrite (shift_left_small 1 24 16777216),
    (shift_left_small (Z.of_N (16 * r1 + r0)) 16 65536),
    (shift_left_small (Z.of_N (16 * g1 + g0)) 8 256) by (try reflexivity; lia).
  set (n := (16 * (16 * (16 * (16 * (16 * (16 * 1 + r1) + r0) + g1) + g0) + b1) + b0)%N).
  replace (1 * 16777216 + Z.of_N (16 * r1 + r0) * 65536
           + Z.of_N (16 * g1 + g0) * 256 + Z.of_N (16 * b1 + b0))%Z
    with (Z.of_N n) by (unfold n; lia).
  unfold toString16. cbv zeta.
  destruct (Z.ltb_spec (Z.of_N n) 0) as [?|_]; [lia|].
  rewrite Zabs2N.id.
  assert (Hn : (16777216 <= n < 33554432)%N) by (unfold n; lia).
  assert (Hlog : (24 <= N.log2 n)%N).
  { change 24%N with (N.log2 16777216). apply N.log2_le_mono. lia. }
  rewrite (hex_digits_fixed 6) by
    (try (change (16 ^ N.of_nat 6)%N with 16777216%N;
          change (16 ^ N.of_nat 7)%N with 268435456%N); lia).
  unfold n. rewrite !hex_fixed_step by assumption. reflexivity.
Qed.

(** X28.  [hexToRgb] undoes [rgbToHex]: for components between 0
    and 255, [rgbToHex] writes [#] and six hexadecimal digits, and
    [hexToRgb] reads the three components back from them. *)
Theorem hexToRgb_rgbToHex (r g b : Z) :
  (0 <= r <= 255)%Z -> (0 <= g <= 255)%Z -> (0 <= b <= 255)%Z ->
  hexToRgb (code_units (rgbToHex r g b)) =
    Some {| rgb_r := Some r; rgb_g := Some g; rgb_b := Some b |} /\
  String.length (rgbToHex r g b) = 7%nat.
Proof.
  intros Hr Hg Hb.
  destruct (component_digits r Hr) as (r1 & r0 & Hr1 & Hr0 & ->).
  destruct (component_digits g Hg) as (g1 & g0 & Hg1 & Hg0 & ->).
  destruct (component_digits b Hb) as (b1 & b0 & Hb1 & Hb0 & ->).
  rewrite rgbToHex_digits by assumption. split; [|reflexivity].
  change (code_units (String "#" ?s)) with (35%N :: code_units s).
  rewrite !code_units_hex_digit by assumption.
  change (code_units EmptyString) with (@nil N).
  now apply hexToRgb_digits.
Qed.

Lemma hexToRgb_rgbToHex_witness :
  hexToRgb (code_units (rgbToHex 255 0 171)) =
    Some {| rgb_r := Some 255%Z; rgb_g := Some 0%Z; rgb_b := Some 171%Z |} /\
  String.length (rgbToHex 255 0 171) = 7%nat.
Proof. apply (hexToRgb_rgbToHex 255 0 171); lia. Defined.

Lemma hex_fixed_length (k : nat) (n : N) (acc : string) :
  String.length (hex_fixed k n acc) = (k + String.length acc)%nat.
Proof.
  revert n acc. induction k as [|k IH]; intros n acc; [reflexivity|].
  cbn [hex_fixed]. rewrite IH. cbn [String.length]. lia.
Qed.

Lemma hex_fixed_more (j m : nat) (n : N) (acc : string) :
  hex_fixed (m + j) n acc = hex_fixed j (n / 16 ^ N.of_nat m) (hex_fixed m n acc).
Proof.
  revert n acc. induction m as [|m IH]; intros n acc.
  - cbn [Nat.add hex_fixed]. now rewrite N.div_1_r.
  - cbn [Nat.add hex_fixed]. rewrite IH. f_equal.
    rewrite Nat2N.inj_succ, N.pow_succ_r', N.Div0.div_div. reflexivity.
Qed.

Lemma zeros_shift (j : nat) (acc : string) :
  string_of_list_ascii (repeat "0"%char j) ++ String "0" acc =
  String "0" (string_of_list_ascii (repeat "0"%char j) ++ acc).
Proof.
  induction j as [|j IH]; [reflexivity|].
  cbn [repeat string_of_list_ascii append]. now rewrite IH.
Qed.

Lemma hex_fixed_zero (j : nat) (acc : string) :
  hex_fixed j 0 acc = string_of_list_ascii (repeat "0"%char j) ++ acc.
Proof.
  revert acc. induction j as [|j IH]; intros acc; [reflexivity|].
  cbn [hex_fixed]. change (0 / 16)%N with 0%N.
  change (hex_digit_lower (0 mod 16)) with "0"%char.
  rewrite IH. apply zeros_shift.
Qed.

(** Padding the digits of a number below [16^6] gives its six
    digits. *)
Lemma padStart_hex_digits (n : N) :
  (n < 16777216)%N ->
  padStart 6 "0" (hex_digits (N.to_nat (N.log2 n)) n EmptyString) =
  hex_fixed 6 n EmptyString.
Proof.
  intros Hn.
  assert (Hk : exists k, (k <= 5)%nat /\
             hex_digits (N.to_nat (N.log2 n)) n EmptyString = hex_fixed (S k) n EmptyString /\
             (n < 16 ^ N.of_nat (S k))%N).
  { assert (Hlog : forall m, (m <= n)%N -> (N.log2 m <= N.log2 n)%N)
      by (intros m; apply N.log2_le_mono).
    destruct (N.lt_ge_cases n 16) as [H1|H1].
    { exists 0%nat. split; [lia|]. split; [|exact H1].
      destruct (N.to_nat (N.log2 n)); cbn [hex_digits hex_fixed];
        [reflexivity|]. destruct (N.ltb_spec n 16); [reflexivity|lia]. }
    destruct (N.lt_ge_cases n 256) as [H2|H2].
    { exists 1%nat. split; [lia|]. split; [|exact H2].
      specialize (Hlog 16%N H1). change (N.log2 16) with 4%N in Hlog.
      apply hex_digits_fixed; [|lia]. split; [exact H1|exact H2]. }
    destruct (N.lt_ge_cases n 4096) as [H3|H3].
    { exists 2%nat. split; [lia|]. split; [|exact H3].
      specialize (Hlog 256%N H2). change (N.log2 256) with 8%N in Hlog.
      apply hex_digits_fixed; [|lia]. split; [exact H2|exact H3]. }
    destruct (N.lt_ge_cases n 65536) as [H4|H4].
    { exists 3%nat. split; [lia|]. split; [|exact H4].
      specialize (Hlog 4096%N H3). change (N.log2 4096) with 12%N in Hlog.
      apply hex_digits_fixed; [|lia]. split; [exact H3|exact H4]. }
    destruct (N.lt_ge_cases n 1048576) as [H5|H5].
    { exists 4%nat. split; [lia|]. split; [|exact H5].
      specialize (Hlog 65536%N H4). change (N.log2 65536) with 16%N in Hlog.
      apply hex_digits_fixed; [|lia]. split; [exact H4|exact H5]. }
    exists 5%nat. split; [lia|]. split; [|exact Hn].
    specialize (Hlog 1048576%N H5). change (N.log2 1048576) with 20%N in Hlog.
    apply hex_digits_fixed; [|lia]. split; [exact H5|exact Hn]. }
  destruct Hk as (k & Hk & -> & Hlt). unfold padStart.
  rewrite hex_fixed_length. cbn [String.length].
  replace 6%nat with (S k + (5 - k))%nat at 2 by lia.
  rewrite hex_fixed_more, N.div_small by exact Hlt.
  rewrite hex_fixed_zero. do 3 f_equal. lia.
Qed.

Lemma digit_split (n : N) : exists q d : N, (d < 16)%N /\ n = (16 * q + d)%N.
Proof.
  exists (n / 16)%N, (n mod 16)%N. split; [apply N.mod_lt; discriminate|].
  apply N.div_mod. discriminate.
Qed.

(** X29.  A colour made by [generateRandomColor] is always [#] and
    six hexadecimal digits, which [hexToRgb] reads as three
    components between 0 and 255.  White is never made: the number
    drawn is below 16777215, so the three components are not all
    255. *)
Theorem generateRandomColor_read (random : Q) :
  (0 <= random < 1)%Q ->
  String.length (generateRandomColor random) = 7%nat /\
  generateRandomColor random <> "#ffffff" /\
  exists r g b : Z,
    hexToRgb (code_units (generateRandomColor random)) =
      Some {| rgb_r := Some r; rgb_g := Some g; rgb_b := Some b |} /\
    (0 <= r <= 255)%Z /\ (0 <= g <= 255)%Z /\ (0 <= b <= 255)%Z /\
    (65536 * r + 256 * g + b < 16777215)%Z.
Proof.
  intros Hrandom.
  assert (Hfloor : (0 <= Qfloor (random * 16777215) < 16777215)%Z).
  { apply Qfloor_between. change (inject_Z 0) with 0%Q.
    change (inject_Z 16777215) with 16777215%Q. lra. }
  unfold generateRandomColor, toString16. cbv zeta.
  set (z := Qfloor (random * 16777215)) in *.
  destruct (Z.ltb_spec z 0) as [?|_]; [lia|].
  assert (Hz : z = Z.of_N (Z.abs_N z)) by (rewrite N2Z.inj_abs_N; lia).
  set (n := Z.abs_N z) in *. assert (Hn : (n < 16777215)%N) by lia. clearbody n.
  change (EmptyString ++ ?s) with s.
  rewrite padStart_hex_digits by lia.
  change ("#" ++ ?s) with (String "#" s).
  destruct (digit_split n) as (q1 & d0 & Hd0 & E0).
  destruct (digit_split q1) as (q2 & d1 & Hd1 & E1).
  destruct (digit_split q2) as (q3 & d2 & Hd2 & E2).
  destruct (digit_split q3) as (q4 & d3 & Hd3 & E3).
  destruct (digit_split q4) as (q5 & d4 & Hd4 & E4).
  destruct (digit_split q5) as (q6 & d5 & Hd5 & E5).
  assert (q6 = 0%N) by lia. subst q6 q5 q4 q3 q2 q1.
  rewrite E0, !hex_fixed_step by assumption. cbn [hex_fixed].
  split; [reflexivity|]. split.
  - intros [= H5 H4 H3 H2 H1 H0].
    assert (Hf : forall d, (d < 16)%N -> hex_digit_lower d = "f"%char -> d = 15%N).
    { intros d Hd. assert (Hin : In d [0; 1; 2; 3; 4; 5; 6; 7; 8; 9; 10; 11; 12; 13; 14; 15]%N)
        by (cbn [In]; lia).
      cbn [In] in Hin.
      repeat (destruct Hin as [<- | Hin]; [try discriminate; reflexivity|]). destruct Hin. }
    apply Hf in H5, H4, H3, H2, H1, H0; try assumption. lia.
  - exists (Z.of_N (16 * d5 + d4)), (Z.of_N (16 * d3 + d2)), (Z.of_N (16 * d1 + d0)).
    split.
    + change (code_units (String "#" ?s)) with (35%N :: code_units s).
      rewrite !code_units_hex_digit by assumption.
      change (code_units EmptyString) with (@nil N).
      now apply hexToRgb_digits.
    + repeat split; lia.
Qed.

Lemma generateRandomColor_read_witness :
  String.length (generateRandomColor (1 # 2)) = 7%nat.
Proof.
  apply (generateRandomColor_read (1 # 2)). split; [discriminate|reflexivity].
Defined.
